(** * laspy: the LAS header codec ([laspy/header.py])

    A shallow embedding of [Version], [GpsTimeType], [GlobalEncoding] and
    [LasHeader] and the properties of their operations.

    Conventions.
    - A Python [int] is a [Z]; a fixed-width numpy integer is a [Z] with its
      wrap-around written out.
    - A [bytes] object is a [list byte]; [int.to_bytes] and [int.from_bytes]
      (little endian, unsigned) are coqutil's [le_split] and [le_combine].
    - A float64 is the [Z] of its 64 IEEE-754 bits, so that [struct.pack "<d"]
      and [struct.unpack "<d"] move bits and nothing else; the arithmetic of
      [LasHeader.update] is done on Rocq's primitive binary64 floats.
    - A Python [str] is the list of its code points.
    - A method that mutates [self] and may raise is a function from the state
      before to an outcome and the state after: the state reached when the
      exception leaves the method is part of the model. *)

From Stdlib Require Import ZArith Lia Floats Uint63 Strings.Ascii Strings.String.
From coqutil Require Import Byte Word.LittleEndianList Datatypes.RecordSetters.
From stdpp Require Import base list sorting strings pretty.

Import TriangleBracketNotations.
Local Open Scope Z_scope.

(** ** Exceptions and outcomes *)

(** The messages of the [LaspyException]s this module raises itself, and the
    one the compatibility check of [laspy.point.dims] raises. *)
Inductive LaspyError :=
| InvalidFileSignature
| IncoherentHeaderSize
| IncoherentOffsetToPointData
| IncoherentPointSize
| PointCountOverflow
| IncompatibleFormat.

Inductive exn :=
| LaspyException (e : LaspyError)
| OverflowError
| ValueError
| IndexError
| KeyError
| AssertionError
| UnicodeEncodeError
| UnicodeDecodeError
| StructError
| ExternalError.

Inductive result (A : Type) :=
| Ok (a : A)
| Raise (e : exn).
Arguments Ok {A} a.
Arguments Raise {A} e.

#[global] Instance LaspyError_eq_dec : EqDecision LaspyError.
Proof. solve_decision. Defined.
#[global] Instance exn_eq_dec : EqDecision exn.
Proof. solve_decision. Defined.

#[global] Instance result_ret : MRet result := @Ok.
#[global] Instance result_bind : MBind result :=
  λ A B f r, match r with Ok a => f a | Raise e => Raise e end.
#[global] Instance result_fmap : FMap result :=
  λ A B f r, match r with Ok a => Ok (f a) | Raise e => Raise e end.

(** A computation over a mutable state [S]: the state is returned on both
    outcomes. *)
Definition M (S A : Type) : Type := S → result A * S.

#[global] Instance M_ret {S} : MRet (M S) := λ A a s, (Ok a, s).
#[global] Instance M_bind {S} : MBind (M S) :=
  λ A B f m s, match m s with
               | (Ok a, s') => f a s'
               | (Raise e, s') => (Raise e, s')
               end.

#[global] Instance M_fmap {S} : FMap (M S) :=
  λ A B f m s, match m s with
               | (Ok a, s') => (Ok (f a), s')
               | (Raise e, s') => (Raise e, s')
               end.

Definition raise {S A} (e : exn) : M S A := λ s, (Raise e, s).
Definition lift {S A} (r : result A) : M S A := λ s, (r, s).
Definition get {S} : M S S := λ s, (Ok s, s).
Definition gets {S A} (f : S → A) : M S A := λ s, (Ok (f s), s).
Definition modify {S} (f : S → S) : M S unit := λ s, (Ok tt, f s).
Definition when {S} (b : bool) (m : M S unit) : M S unit :=
  if b then m else mret tt.

(** [for x in xs: body x] *)
Fixpoint for_each {S A} (xs : list A) (body : A → M S unit) : M S unit :=
  match xs with
  | [] => mret tt
  | x :: xs' => body x ≫= λ _, for_each xs' body
  end.

(** ** Bytes and integers *)

Abbreviation bytes := (list byte).

#[global] Instance byte_eq_dec : EqDecision byte := Strings.Byte.byte_eq_dec.

(** [range(n)] *)
Definition range (n : nat) : list nat := seq 0 n.

(** [v.to_bytes(length, "little", signed=False)] *)
Definition to_bytes (v : Z) (length : nat) : result bytes :=
  if (0 <=? v) && (v <? 2 ^ (Z.of_nat length * 8))
  then Ok (le_split length v)
  else Raise OverflowError.

(** [int.from_bytes(bs, "little", signed=False)] *)
Definition from_bytes (bs : bytes) : Z := le_combine bs.

(** A float64, as its bits. *)
Abbreviation f64 := Z.

(** [struct.pack("<d", x)] *)
Definition pack_d (x : f64) : bytes := le_split 8 x.

(** [struct.unpack("<d", bs)[0]]: the buffer must hold 8 bytes. *)
Definition unpack_d (bs : bytes) : result f64 :=
  if decide (length bs = 8%nat) then Ok (le_combine bs) else Raise StructError.

(** ** Version *)

Record Version := mkVersion { major : Z; minor : Z }.

#[global] Instance Version_eq_dec : EqDecision Version.
Proof. solve_decision. Defined.

(** ** GpsTimeType *)

Inductive GpsTimeType := WEEK_TIME | STANDARD.

#[global] Instance GpsTimeType_eq_dec : EqDecision GpsTimeType.
Proof. solve_decision. Defined.

(** [int(value)] of the [IntEnum]. *)
Definition GpsTimeType_int (t : GpsTimeType) : Z :=
  match t with WEEK_TIME => 0 | STANDARD => 1 end.

(** [GpsTimeType(n)]: the member of that value, [ValueError] when none. *)
Definition GpsTimeType_of_int (n : Z) : result GpsTimeType :=
  if n =? 0 then Ok WEEK_TIME
  else if n =? 1 then Ok STANDARD
  else Raise ValueError.

(** ** GlobalEncoding *)

Module GlobalEncoding.

Record t := mk { value : Z }.

Definition GPS_TIME_TYPE_MASK : Z := 1.
Definition WAVEFORM_INTERNAL_MASK : Z := 2.
Definition WAVEFORM_EXTERNAL_MASK : Z := 4.
Definition SYNTHETIC_RETURN_NUMBERS_MASK : Z := 8.
Definition WKT_MASK : Z := 16.

(** [__init__(self, value=0)] *)
Definition init : t := mk 0.

Definition _set_bit (mask : Z) (self : t) : t :=
  mk (Z.lor (value self) mask).

Definition _unset_bit (mask : Z) (self : t) : t :=
  mk (Z.lxor (value self) mask).

Definition _set_if_true (mask : Z) (v : bool) (self : t) : t :=
  if v then _set_bit mask self else _unset_bit mask self.

Definition gps_time_type (self : t) : result GpsTimeType :=
  GpsTimeType_of_int (Z.land (value self) GPS_TIME_TYPE_MASK).

Definition set_gps_time_type (v : GpsTimeType) (self : t) : t :=
  let self := mk (Z.lxor (value self) GPS_TIME_TYPE_MASK) in
  mk (Z.lor (value self) (Z.land (GpsTimeType_int v) GPS_TIME_TYPE_MASK)).

(** [bool(self.value & mask)] *)
Definition test (mask : Z) (self : t) : bool :=
  negb (Z.land (value self) mask =? 0).

Definition waveform_data_packets_internal := test WAVEFORM_INTERNAL_MASK.
Definition set_waveform_data_packets_internal :=
  _set_if_true WAVEFORM_INTERNAL_MASK.

Definition waveform_data_packets_external := test WAVEFORM_EXTERNAL_MASK.
Definition set_waveform_data_packets_external :=
  _set_if_true WAVEFORM_EXTERNAL_MASK.

Definition synthetic_return_numbers := test SYNTHETIC_RETURN_NUMBERS_MASK.
Definition set_synthetic_return_numbers :=
  _set_if_true SYNTHETIC_RETURN_NUMBERS_MASK.

Definition wkt := test WKT_MASK.
Definition set_wkt := _set_if_true WKT_MASK.

(** [read_from], on the two bytes [stream.read(2)] returned. *)
Definition read_from (bs : bytes) : t := mk (from_bytes bs).

(** [write_to]: the bytes handed to [stream.write]. *)
Definition write_to (self : t) : result bytes := to_bytes (value self) 2.

(** The five named flags, for statements about all of them: the mask of a
    flag, its setter and its getter, the values of [gps_time_type] read as
    [False] and [True]. *)
Inductive flag :=
| GpsTime | WaveformInternal | WaveformExternal | SyntheticReturns | Wkt.

Definition mask_of (f : flag) : Z :=
  match f with
  | GpsTime => GPS_TIME_TYPE_MASK
  | WaveformInternal => WAVEFORM_INTERNAL_MASK
  | WaveformExternal => WAVEFORM_EXTERNAL_MASK
  | SyntheticReturns => SYNTHETIC_RETURN_NUMBERS_MASK
  | Wkt => WKT_MASK
  end.

(** The position of the bit of a flag. *)
Definition bit_of (f : flag) : Z :=
  match f with
  | GpsTime => 0
  | WaveformInternal => 1
  | WaveformExternal => 2
  | SyntheticReturns => 3
  | Wkt => 4
  end.

Definition set_flag (f : flag) (v : bool) : t → t :=
  match f with
  | GpsTime => set_gps_time_type (if v then STANDARD else WEEK_TIME)
  | WaveformInternal => set_waveform_data_packets_internal v
  | WaveformExternal => set_waveform_data_packets_external v
  | SyntheticReturns => set_synthetic_return_numbers v
  | Wkt => set_wkt v
  end.

Definition get_flag (f : flag) (self : t) : result bool :=
  match f with
  | GpsTime =>
      gps_time_type self ≫= λ g,
      mret (match g with WEEK_TIME => false | STANDARD => true end)
  | WaveformInternal => Ok (waveform_data_packets_internal self)
  | WaveformExternal => Ok (waveform_data_packets_external self)
  | SyntheticReturns => Ok (synthetic_return_numbers self)
  | Wkt => Ok (wkt self)
  end.

End GlobalEncoding.

(** ** Text

    A [str] is the list of its code points.  The strings this module builds
    from digits alone (the rendering of a [Version]) and the type strings of
    extra dimensions are Rocq [string]s. *)

Abbreviation str := (list Z).

Definition str_of_string (s : string) : str :=
  (λ c, Z.of_N (Ascii.N_of_ascii c)) <$> String.list_ascii_of_string s.

(** [s.encode("ascii")] *)
Definition encode_ascii (s : str) : result bytes :=
  if forallb (λ c, (0 <=? c) && (c <? 128)) s
  then Ok (byte.of_Z <$> s)
  else Raise UnicodeEncodeError.

(** [s.encode()]: UTF-8, strict (a surrogate is refused). *)
Definition encode_utf8_char (c : Z) : result bytes :=
  let cont (x : Z) := byte.of_Z (Z.lor 128 (Z.land x 63)) in
  if (c <? 0) || (1114111 <? c) then Raise UnicodeEncodeError
  else if c <? 128 then Ok [byte.of_Z c]
  else if c <? 2048 then
    Ok [byte.of_Z (Z.lor 192 (Z.shiftr c 6)); cont c]
  else if c <? 65536 then
    if (55296 <=? c) && (c <=? 57343) then Raise UnicodeEncodeError
    else Ok [byte.of_Z (Z.lor 224 (Z.shiftr c 12)); cont (Z.shiftr c 6); cont c]
  else
    Ok [byte.of_Z (Z.lor 240 (Z.shiftr c 18)); cont (Z.shiftr c 12);
        cont (Z.shiftr c 6); cont c].

Fixpoint encode_utf8 (s : str) : result bytes :=
  match s with
  | [] => Ok []
  | c :: s' =>
      bs ← encode_utf8_char c;
      bs' ← encode_utf8 s';
      mret (bs ++ bs')
  end.

(** [bs.decode()]: UTF-8, strict (no overlong form, no surrogate, nothing
    above U+10FFFF). *)
Definition in_range (lo hi x : Z) : bool := (lo <=? x) && (x <=? hi).

Fixpoint decode_utf8 (bs : bytes) : result str :=
  let low6 (x : Z) := Z.land x 63 in
  match bs with
  | [] => Ok []
  | b0 :: r0 =>
      let x0 := byte.unsigned b0 in
      if x0 <? 128 then (x0 ::.) <$> decode_utf8 r0
      else match r0 with
      | [] => Raise UnicodeDecodeError
      | b1 :: r1 =>
          let x1 := byte.unsigned b1 in
          if in_range 194 223 x0 then
            if in_range 128 191 x1
            then ((Z.shiftl (Z.land x0 31) 6 + low6 x1) ::.) <$> decode_utf8 r1
            else Raise UnicodeDecodeError
          else match r1 with
          | [] => Raise UnicodeDecodeError
          | b2 :: r2 =>
              let x2 := byte.unsigned b2 in
              if in_range 224 239 x0 then
                if in_range (if x0 =? 224 then 160 else 128)
                            (if x0 =? 237 then 159 else 191) x1
                   && in_range 128 191 x2
                then ((Z.shiftl (Z.land x0 15) 12 + Z.shiftl (low6 x1) 6
                       + low6 x2) ::.) <$> decode_utf8 r2
                else Raise UnicodeDecodeError
              else match r2 with
              | [] => Raise UnicodeDecodeError
              | b3 :: r3 =>
                  let x3 := byte.unsigned b3 in
                  if in_range 240 244 x0
                     && in_range (if x0 =? 240 then 144 else 128)
                                 (if x0 =? 244 then 143 else 191) x1
                     && in_range 128 191 x2 && in_range 128 191 x3
                  then ((Z.shiftl (Z.land x0 7) 18 + Z.shiftl (low6 x1) 12
                         + Z.shiftl (low6 x2) 6 + low6 x3) ::.)
                         <$> decode_utf8 r3
                  else Raise UnicodeDecodeError
              end
          end
      end
  end.

Definition NUL : byte := Byte.x00.

(** [bs.rstrip(b"\0")] *)
Fixpoint rstrip_nul (bs : bytes) : bytes :=
  match bs with
  | [] => []
  | b :: bs' =>
      match rstrip_nul bs' with
      | [] => if decide (b = NUL) then [] else [b]
      | r => b :: r
      end
  end.

(** [bs.ljust(width, b"\0")] *)
Definition ljust_nul (width : nat) (bs : bytes) : bytes :=
  bs ++ replicate (width - length bs) NUL.

(** ** Dates

    A [datetime.date], as its year and its day of the year ([tm_yday],
    from 1): the two numbers the header stores. *)

Record date := mkdate { year : Z; yday : Z }.

#[global] Instance date_eq_dec : EqDecision date.
Proof. solve_decision. Defined.

Definition is_leap (y : Z) : bool :=
  (y mod 4 =? 0) && (negb (y mod 100 =? 0) || (y mod 400 =? 0)).

Definition days_in_year (y : Z) : Z := if is_leap y then 366 else 365.

Definition MINYEAR : Z := 1.
Definition MAXYEAR : Z := 9999.

(** [date(y, 1, 1)] *)
Definition date_jan_1 (y : Z) : result date :=
  if in_range MINYEAR MAXYEAR y then Ok (mkdate y 1) else Raise ValueError.

(** The day [d] (any integer, counted from 1 January of [y]) brought into
    its year; [OverflowError] outside the years a [date] can hold. *)
Fixpoint normalize_date (fuel : nat) (y d : Z) : result date :=
  match fuel with
  | O => Raise OverflowError
  | S fuel' =>
      if d <? 1 then normalize_date fuel' (y - 1) (d + days_in_year (y - 1))
      else if days_in_year y <? d
           then normalize_date fuel' (y + 1) (d - days_in_year y)
      else if in_range MINYEAR MAXYEAR y then Ok (mkdate y d)
      else Raise OverflowError
  end.

(** [d + timedelta(days)], for the day counts two bytes can hold. *)
Definition date_add_days (d : date) (days : Z) : result date :=
  normalize_date (Z.to_nat (Z.abs days / 365) + 2) (year d) (yday d + days).

(** ** The float arithmetic of [update]

    [f64_to_float] and [float_to_f64] read and write the IEEE-754 binary64
    encoding. *)

Definition f64_to_spec (b : f64) : spec_float :=
  let s := Z.testbit b 63 in
  let e := Z.land (Z.shiftr b 52) 2047 in
  let m := Z.land b (2 ^ 52 - 1) in
  if e =? 0 then
    if m =? 0 then S754_zero s else S754_finite s (Z.to_pos m) (-1074)
  else if e =? 2047 then
    if m =? 0 then S754_infinity s else S754_nan
  else S754_finite s (Z.to_pos (m + 2 ^ 52)) (e - 1075).

Definition spec_to_f64 (x : spec_float) : f64 :=
  let sign (s : bool) := if s then 2 ^ 63 else 0 in
  match x with
  | S754_zero s => sign s
  | S754_infinity s => sign s + Z.shiftl 2047 52
  | S754_nan => Z.shiftl 4095 51
  | S754_finite s m e =>
      if Z.pos m <? 2 ^ 52 then sign s + Z.pos m
      else sign s + Z.shiftl (e + 1075) 52 + (Z.pos m - 2 ^ 52)
  end.

Definition f64_to_float (b : f64) : float := SF2Prim (f64_to_spec b).
Definition float_to_f64 (x : float) : f64 := spec_to_f64 (Prim2SF x).

(** The float64 of a numpy integer. *)
Definition int_to_float (n : Z) : float :=
  if n <? 0 then PrimFloat.opp (PrimFloat.of_uint63 (Uint63.of_Z (- n)))
  else PrimFloat.of_uint63 (Uint63.of_Z n).

(** [(n * scale) + offset] *)
Definition scaled (n : Z) (scale offset : f64) : f64 :=
  float_to_f64
    (PrimFloat.add (PrimFloat.mul (int_to_float n) (f64_to_float scale))
                   (f64_to_float offset)).

(** [a < b] on float64 values. *)
Definition f64_lt (a b : f64) : bool :=
  PrimFloat.ltb (f64_to_float a) (f64_to_float b).

(** The builtins [max(a, b)] and [min(a, b)]: [a] unless [b] is strictly
    beyond it. *)
Definition py_max (a b : f64) : f64 := if f64_lt a b then b else a.
Definition py_min (a b : f64) : f64 := if f64_lt b a then b else a.

Arguments scaled : simpl never.
Arguments f64_lt : simpl never.
Arguments py_max : simpl never.
Arguments py_min : simpl never.

(** [np.zeros(3, dtype=np.float64)] and the default scales. *)
Definition f64_0 : f64 := 0.
Definition f64_0_01 : f64 := 0x3F847AE147AE147B.

(** ** Sequences *)

(** [l[i]] and [l[i] = x] for an index from 0: [IndexError] out of range. *)
Definition getitem {A} (l : list A) (i : nat) : result A :=
  match l !! i with
  | Some x => Ok x
  | None => Raise IndexError
  end.

Definition setitem {A} (l : list A) (i : nat) (x : A) : result (list A) :=
  if decide (i < length l)%nat then Ok (<[i := x]> l) else Raise IndexError.

(** [a.max()] and [a.min()] of a numpy array: [ValueError] when empty. *)
Definition np_max (a : list Z) : result Z :=
  match a with
  | [] => Raise ValueError
  | x :: a' => Ok (foldl Z.max x a')
  end.

Definition np_min (a : list Z) : result Z :=
  match a with
  | [] => Raise ValueError
  | x :: a' => Ok (foldl Z.min x a')
  end.

(** The runs of a list, each with its length. *)
Fixpoint runs (xs : list N) : list (N * Z) :=
  match xs with
  | [] => []
  | x :: xs' =>
      match runs xs' with
      | (y, c) :: t => if decide (x = y) then (y, c + 1) :: t
                       else (x, 1) :: (y, c) :: t
      | [] => [(x, 1)]
      end
  end.

(** [np.unique(a, return_counts=True)], zipped: the distinct values in
    ascending order, each with the number of its occurrences. *)
Definition np_unique (a : list N) : list (N * Z) :=
  runs (merge_sort N.le a).

(** [np.iinfo(np.uint32).max] and the store into a [uint32] slot. *)
Definition UINT32_MAX : Z := 4294967295.
Definition uint32 (n : Z) : Z := n mod 2 ^ 32.

(** ** Extra dimensions and VLRs *)

(** The attributes of a [laspy.point.dims.DimensionInfo] that the header
    reads, [type_str] being the result of the method of that name. *)
Record DimensionInfo := {
  name : str;
  description : str;
  num_elements : Z;
  type_str : option string;
  dim_scales : option (list f64);
  dim_offsets : option (list f64)
}.

(** Modelled from the spec: the sub-record of the Extra-Bytes VLR
    ([laspy.vlrs.known.ExtraBytesStruct], whose declaration is not in this
    file), with the fields of the record layout of the spec: a 1-byte
    bit-flag (bit 0 = scale-present, bit 1 = offset-present), a 1-byte
    data-type tag, 1-byte options, a 32-byte name, the 3-slot scale and offset
    arrays and a 32-byte description.  Each of the three 1-byte fields is
    a [byte]: of an integer assigned to it, it keeps the low 8 bits
    ([byte.of_Z]). *)
Record ExtraBytesStruct := {
  eb_flags : byte;
  data_type : byte;
  options : byte;
  eb_name : bytes;
  eb_scale : list f64;
  eb_offset : list f64;
  eb_description : bytes
}.

Definition SCALE_BIT_MASK : Z := 1.
Definition OFFSET_BIT_MASK : Z := 2.

(** A 32-byte field: the bytes, NUL-padded; longer values are refused. *)
Definition fixed32 (bs : bytes) : result bytes :=
  if decide (length bs ≤ 32)%nat then Ok (ljust_nul 32 bs)
  else Raise ValueError.

(** [ExtraBytesStruct(name=..., description=...)] *)
Definition ExtraBytesStruct_init (name description : bytes)
  : result ExtraBytesStruct :=
  n ← fixed32 name;
  d ← fixed32 description;
  mret {| eb_flags := Byte.x00; data_type := Byte.x00; options := Byte.x00;
          eb_name := n;
          eb_scale := replicate 3 f64_0; eb_offset := replicate 3 f64_0;
          eb_description := d |}.

Definition set_scale_is_relevant (s : ExtraBytesStruct) : ExtraBytesStruct :=
  s <| eb_flags :=
         byte.of_Z (Z.lor (byte.unsigned (eb_flags s)) SCALE_BIT_MASK) |>.

Definition set_offset_is_relevant (s : ExtraBytesStruct) : ExtraBytesStruct :=
  s <| eb_flags :=
         byte.of_Z (Z.lor (byte.unsigned (eb_flags s)) OFFSET_BIT_MASK) |>.

(** A record of the VLR list: the Extra-Bytes VLR, or a record of any other
    class. *)
Inductive VLR (Other : Type) :=
| ExtraBytesVlr (extra_bytes_structs : list ExtraBytesStruct)
| OtherVlr (v : Other).
Arguments ExtraBytesVlr {Other} extra_bytes_structs.
Arguments OtherVlr {Other} v.

Definition is_ExtraBytesVlr {Other} (v : VLR Other) : bool :=
  match v with ExtraBytesVlr _ => true | OtherVlr _ => false end.

(** Modelled from the spec: the VLR container ([laspy.vlrs.vlrlist.VLRList],
    not in this file) is an ordered list of records that supports "extract
    first record of a named kind" and "append record"; [get] returns the
    records of a kind, in order.  The one kind this file names is
    ["ExtraBytesVlr"]. *)
Definition VLRList_get {Other} (l : list (VLR Other))
  : list (list ExtraBytesStruct) :=
  omap (λ v, match v with ExtraBytesVlr s => Some s | OtherVlr _ => None end) l.

Fixpoint VLRList_extract {Other} (l : list (VLR Other))
  : result (list (VLR Other)) :=
  match l with
  | [] => Raise IndexError
  | v :: l' => if is_ExtraBytesVlr v then Ok l'
               else (v ::.) <$> VLRList_extract l'
  end.

Definition VLRList_append {Other} (l : list (VLR Other)) (v : VLR Other)
  : list (VLR Other) := l ++ [v].

(** ** Streams

    A binary stream is the bytes already passed and the bytes ahead:
    [tell()] is the number of the former, [read(n)] moves at most [n] bytes
    across, [write(bs)] on a stream at its end appends. *)
Record stream := mkstream { passed : bytes; ahead : bytes }.

Definition stream_of (bs : bytes) : stream := mkstream [] bs.
Definition tell (s : stream) : Z := Z.of_nat (length (passed s)).

Definition read (n : Z) : M stream bytes :=
  λ s, let bs := take (Z.to_nat n) (ahead s) in
       (Ok bs, mkstream (passed s ++ bs) (drop (Z.to_nat n) (ahead s))).

(** ** The collaborators of the header

    What [header.py] imports from the rest of the package and from the
    standard library, and does not define. *)
Class Collaborators := {
  (** [laspy.point.format]: [PointFormat(id)], [.id], [.size],
      [.extra_dimensions], [.add_extra_dimension(param)] *)
  PointFormat : Type;
  ExtraBytesParams : Type;
  PointFormat_init : Z → result PointFormat;
  pf_id : PointFormat → Z;
  pf_size : PointFormat → Z;
  extra_dimensions : PointFormat → list DimensionInfo;
  add_extra_dimension : PointFormat → ExtraBytesParams → result PointFormat;
  (** the object bound to [LasHeader.DEFAULT_POINT_FORMAT], as it is now *)
  DEFAULT_POINT_FORMAT : PointFormat;
  (** [laspy.point.dims] *)
  raise_if_version_not_compatible_with_fmt : Z → string → result unit;
  min_point_format_for_version : string → result Z;
  preferred_file_version_for_point_format : Z → result string;
  (** [laspy.compression] *)
  is_point_format_compressed : Z → bool;
  compressed_id_to_uncompressed : Z → Z;
  uncompressed_id_to_compressed : Z → Z;
  (** [laspy.extradims] *)
  get_id_for_extra_dim_type : string → result Z;
  (** [laspy.vlrs]: the records of other classes, the descriptors an
      Extra-Bytes VLR decodes to, and the binary form of the list *)
  OtherVLR : Type;
  type_of_extra_dims : list ExtraBytesStruct → result (list ExtraBytesParams);
  VLRList_write_to : list (VLR OtherVLR) → result bytes;
  VLRList_read_from : Z → M stream (list (VLR OtherVLR));
  (** the builtin [int(s)] and [date.today()] *)
  int_of_string : string → result Z;
  today : date
}.

(** ** Version, continued *)

(** [str(self)] *)
Definition Version_str (v : Version) : string :=
  pretty (major v) +:+ "." +:+ pretty (minor v).

(** [s.split(".")] *)
Fixpoint split_dot (s : string) : list string :=
  match s with
  | EmptyString => [EmptyString]
  | String c r =>
      match split_dot r with
      | h :: t => if Ascii.eqb c "."%char then EmptyString :: h :: t
                  else String c h :: t
      | [] => []
      end
  end.

(** [for x in xs: acc = f(acc, x)], stopping at the first exception. *)
Fixpoint foldlM_result {A B} (f : A → B → result A) (acc : A) (xs : list B)
  : result A :=
  match xs with
  | [] => Ok acc
  | x :: xs' => acc' ← f acc x; foldlM_result f acc' xs'
  end.

(** [LAS_HEADERS_SIZE[key]] *)
Definition LAS_HEADERS_SIZE (key : string) : result Z :=
  if String.eqb key "1.1" then Ok 227
  else if String.eqb key "1.2" then Ok 227
  else if String.eqb key "1.3" then Ok 235
  else if String.eqb key "1.4" then Ok 375
  else Raise KeyError.

Definition LAS_FILE_SIGNATURE : bytes := [Byte.x4c; Byte.x41; Byte.x53; Byte.x46].

(** A point of a [PackedPointRecord], for what [update] reads of it. *)
Record Point := { X : Z; Y : Z; Z_ : Z; return_number : N }.

(** [type_str[-2:] == "u1"] *)
Definition ends_with_u1 (type_str : string) : bool :=
  String.eqb (substring (String.length type_str - 2) 2 type_str) "u1".

Abbreviation VLRList := (list (VLR OtherVLR)).

Section Header.
Context {C : Collaborators}.

(** [Version.from_str] *)
Definition Version_from_str (s : string) : result Version :=
  fields ← mapM int_of_string (split_dot s);
  match fields with
  | [major; minor] => Ok (mkVersion major minor)
  | _ => Raise ValueError
  end.

(** ** LasHeader *)

Record LasHeader := {
  file_source_id : Z;
  global_encoding : GlobalEncoding.t;
  uuid : bytes;
  _version : Version;
  system_identifier : str;
  generating_software : str;
  _point_format : PointFormat;
  creation_date : option date;
  point_count : Z;
  scales : list f64;
  offsets : list f64;
  maxs : list f64;
  mins : list f64;
  number_of_points_by_return : list Z;
  vlrs : VLRList;
  extra_header_bytes : bytes;
  extra_vlr_bytes : bytes;
  start_of_waveform_data_packet_record : Z;
  start_of_first_evlr : Z;
  number_of_evlrs : Z;
  offset_to_point_data : Z;
  are_points_compressed : bool
}.

Definition DEFAULT_VERSION : Version := mkVersion 1 2.

(** The sub-record [_sync_extra_bytes_vlr] builds for one extra dimension. *)
Fixpoint copy_at (indices : list nat) (src dst : list f64)
  : result (list f64) :=
  match indices with
  | [] => Ok dst
  | i :: indices' =>
      x ← getitem src i;
      dst ← setitem dst i x;
      copy_at indices' src dst
  end.

(** [for i in range(n): dst[i] = src[i]] *)
Definition copy_elements (n : Z) (src dst : list f64) : result (list f64) :=
  copy_at (range (Z.to_nat n)) src dst.

Definition encode_extra_dimension (extra_dimension : DimensionInfo)
  : result ExtraBytesStruct :=
  type_str ← match type_str extra_dimension with
             | Some s => Ok s
             | None => Raise AssertionError
             end;
  name ← encode_utf8 (name extra_dimension);
  description ← encode_utf8 (description extra_dimension);
  eb_struct ← ExtraBytesStruct_init name description;
  '(type_id, eb_struct) ←
    (if (3 <? num_elements extra_dimension) && ends_with_u1 type_str
     then Ok (0, eb_struct <| options :=
                                byte.of_Z (num_elements extra_dimension) |>)
     else type_id ← get_id_for_extra_dim_type type_str;
          Ok (type_id, eb_struct));
  eb_struct ←
    match dim_scales extra_dimension with
    | Some scales =>
        let eb_struct := set_scale_is_relevant eb_struct in
        scale ← copy_elements (num_elements extra_dimension) scales
                              (eb_scale eb_struct);
        Ok (eb_struct <| eb_scale := scale |>)
    | None => Ok eb_struct
    end;
  eb_struct ←
    match dim_offsets extra_dimension with
    | Some offsets =>
        let eb_struct := set_offset_is_relevant eb_struct in
        offset ← copy_elements (num_elements extra_dimension) offsets
                               (eb_offset eb_struct);
        Ok (eb_struct <| eb_offset := offset |>)
    | None => Ok eb_struct
    end;
  mret (eb_struct <| data_type := byte.of_Z type_id |>).

(** [_sync_extra_bytes_vlr] *)
Definition _sync_extra_bytes_vlr : M LasHeader unit :=
  modify (λ self, match VLRList_extract (vlrs self) with
                  | Ok l => self <| vlrs := l |>
                  | Raise _ => self
                  end) ≫= λ _,
  extra_dimensions ← gets (λ self, extra_dimensions (_point_format self));
  match extra_dimensions with
  | [] => mret tt
  | _ =>
      extra_bytes_structs ← lift (mapM encode_extra_dimension extra_dimensions);
      modify (λ self, self <| vlrs := VLRList_append (vlrs self)
                                        (ExtraBytesVlr extra_bytes_structs) |>)
  end.

(** The attributes as [__init__] assigns them, before it synchronizes the
    Extra-Bytes VLR. *)
Definition fresh (version : Version) (point_format : PointFormat)
  : LasHeader := {|
  file_source_id := 0;
  global_encoding := GlobalEncoding.init;
  uuid := replicate 16 NUL;
  _version := version;
  system_identifier := str_of_string "OTHER";
  generating_software := str_of_string "laspy";
  _point_format := point_format;
  creation_date := Some today;
  point_count := 0;
  scales := [f64_0_01; f64_0_01; f64_0_01];
  offsets := replicate 3 f64_0;
  maxs := replicate 3 f64_0;
  mins := replicate 3 f64_0;
  number_of_points_by_return := replicate 15 0;
  vlrs := [];
  extra_header_bytes := [];
  extra_vlr_bytes := [];
  start_of_waveform_data_packet_record := 0;
  start_of_first_evlr := 0;
  number_of_evlrs := 0;
  offset_to_point_data := 0;
  are_points_compressed := false
|}.

(** [__init__(self, *, version=None, point_format=None)] *)
Definition LasHeader_init (version : option (Version + string))
    (point_format : option (PointFormat + Z)) : result LasHeader :=
  point_format ← match point_format with
                 | Some (inr n) => Some <$> PointFormat_init n
                 | Some (inl p) => Ok (Some p)
                 | None => Ok None
                 end;
  version ← match version with
            | Some (inr s) => Some <$> Version_from_str s
            | Some (inl v) => Ok (Some v)
            | None => Ok None
            end;
  '(version, point_format) ←
    match version, point_format with
    | None, None => Ok (DEFAULT_VERSION, DEFAULT_POINT_FORMAT)
    | Some version, None =>
        n ← min_point_format_for_version (Version_str version);
        point_format ← PointFormat_init n;
        Ok (version, point_format)
    | None, Some point_format =>
        s ← preferred_file_version_for_point_format (pf_id point_format);
        version ← Version_from_str s;
        Ok (version, point_format)
    | Some version, Some point_format => Ok (version, point_format)
    end;
  raise_if_version_not_compatible_with_fmt
    (pf_id point_format) (Version_str version) ≫= λ _,
  let self := fresh version point_format in
  match _sync_extra_bytes_vlr self with
  | (Ok _, self) => Ok self
  | (Raise e, _) => Raise e
  end.

(** The [point_format] property and its setter. *)
Definition point_format (self : LasHeader) : PointFormat := _point_format self.

Definition set_point_format (new_point_format : PointFormat)
  : M LasHeader unit :=
  self ← get;
  lift (raise_if_version_not_compatible_with_fmt
          (pf_id new_point_format) (Version_str (_version self))) ≫= λ _,
  modify (λ self, self <| _point_format := new_point_format |>) ≫= λ _,
  _sync_extra_bytes_vlr.

(** The [version] property and its setter. *)
Definition version (self : LasHeader) : Version := _version self.

Definition set_version (version : Version) : M LasHeader unit :=
  self ← get;
  lift (raise_if_version_not_compatible_with_fmt
          (pf_id (point_format self)) (Version_str version)) ≫= λ _,
  modify (λ self, self <| _version := version |>).

(** [add_extra_dims]: the point format object is updated in place, one
    descriptor after the other. *)
Definition add_extra_dims (params : list ExtraBytesParams)
  : M LasHeader unit :=
  for_each params (λ param,
    self ← get;
    pf ← lift (add_extra_dimension (point_format self) param);
    modify (λ self, self <| _point_format := pf |>)) ≫= λ _,
  _sync_extra_bytes_vlr.

Definition add_extra_dim (params : ExtraBytesParams) : M LasHeader unit :=
  add_extra_dims [params].

Definition set_version_and_point_format (version : Version)
    (point_format : PointFormat) : M LasHeader unit :=
  lift (raise_if_version_not_compatible_with_fmt
          (pf_id point_format) (Version_str version)) ≫= λ _,
  modify (λ self, self <| _version := version |>) ≫= λ _,
  set_point_format point_format.

(** [partial_reset] *)
Definition partial_reset : M LasHeader unit :=
  modify (λ self, self <| creation_date := Some today |>) ≫= λ _,
  modify (λ self, self <| point_count := 0 |>) ≫= λ _,
  modify (λ self, self <| maxs := replicate 3 f64_0 |>) ≫= λ _,
  modify (λ self, self <| mins := replicate 3 f64_0 |>) ≫= λ _,
  modify (λ self, self <| number_of_points_by_return := replicate 15 0 |>) ≫= λ _,
  modify (λ self, self <| start_of_first_evlr := 0 |>) ≫= λ _,
  modify (λ self, self <| number_of_evlrs := 0 |>).

(** One statement of [update] on the extents:
    [self.x_max = max(self.x_max, (points["X"].max() * self.x_scale) + self.x_offset)]
    and the five like it. *)
Definition update_max (coord : Point → Z) (i : nat) (points : list Point)
  : M LasHeader unit :=
  self ← get;
  cur ← lift (getitem (maxs self) i);
  m ← lift (np_max (coord <$> points));
  scale ← lift (getitem (scales self) i);
  offset ← lift (getitem (offsets self) i);
  l ← lift (setitem (maxs self) i (py_max cur (scaled m scale offset)));
  modify (λ self, self <| maxs := l |>).

Definition update_min (coord : Point → Z) (i : nat) (points : list Point)
  : M LasHeader unit :=
  self ← get;
  cur ← lift (getitem (mins self) i);
  m ← lift (np_min (coord <$> points));
  scale ← lift (getitem (scales self) i);
  offset ← lift (getitem (offsets self) i);
  l ← lift (setitem (mins self) i (py_min cur (scaled m scale offset)));
  modify (λ self, self <| mins := l |>).

(** The loop of [update] over the distinct return numbers and their
    counts. *)
Fixpoint count_returns (pairs : list (N * Z)) : M LasHeader unit :=
  match pairs with
  | [] => mret tt
  | (return_number, count) :: pairs' =>
      if decide (return_number = 0%N) then count_returns pairs'
      else
        self ← get;
        if Z.of_nat (length (number_of_points_by_return self))
           <? Z.of_N return_number
        then mret tt
        else
          let i := N.to_nat (return_number - 1) in
          old ← lift (getitem (number_of_points_by_return self) i);
          l ← lift (setitem (number_of_points_by_return self) i
                            (uint32 (old + count)));
          modify (λ self, self <| number_of_points_by_return := l |>) ≫= λ _,
          count_returns pairs'
  end.

(** [update] *)
Definition update (points : list Point) : M LasHeader unit :=
  update_max X 0 points ≫= λ _,
  update_max Y 1 points ≫= λ _,
  update_max Z_ 2 points ≫= λ _,
  update_min X 0 points ≫= λ _,
  update_min Y 1 points ≫= λ _,
  update_min Z_ 2 points ≫= λ _,
  count_returns (np_unique (return_number <$> points)) ≫= λ _,
  modify (λ self, self <| point_count :=
                            point_count self + Z.of_nat (length points) |>).

Definition set_compressed (state : bool) : M LasHeader unit :=
  modify (λ self, self <| are_points_compressed := state |>).

(** ** Binary write *)

Inductive Warning :=
| SystemIdentifierTruncated
| GeneratingSoftwareTruncated
| ExtraBytesVlrIgnored.

(** What [write_to] acts on: the header, the stream and the log. *)
Record WriteState := {
  w_self : LasHeader;
  w_stream : stream;
  w_log : list Warning
}.

(** [stream.write(bs)]: over the bytes ahead, if any. *)
Definition stream_write (bs : bytes) (s : stream) : stream :=
  mkstream (passed s ++ bs) (drop (length bs) (ahead s)).

Definition write (bs : bytes) : M WriteState unit :=
  modify (λ w, w <| w_stream := stream_write bs (w_stream w) |>).

Definition warn (x : Warning) : M WriteState unit :=
  modify (λ w, w <| w_log := w_log w ++ [x] |>).

(** An assignment to an attribute of [self]. *)
Definition update_self (f : LasHeader → LasHeader) : M WriteState unit :=
  modify (λ w, w <| w_self := f (w_self w) |>).

(** [stream.write(f(self))] *)
Definition write_field (f : LasHeader → result bytes) : M WriteState unit :=
  self ← gets w_self;
  bs ← lift (f self);
  write bs.

(** The 32-byte text fields. *)
Definition write_text (s : str) (x : Warning) : M WriteState unit :=
  encoded ← lift (encode_ascii s);
  if decide (32 < length encoded)%nat
  then warn x ≫= λ _, write (take 32 encoded)
  else write (ljust_nul 32 encoded).

(** [write_to(self, stream, write_vlrs=True)] *)
Definition write_to (write_vlrs : bool) : M WriteState unit :=
  vlr_bytes ← (if write_vlrs
               then self ← gets w_self; lift (VLRList_write_to (vlrs self))
               else mret []);
  write LAS_FILE_SIGNATURE ≫= λ _,
  write_field (λ self, to_bytes (file_source_id self) 2) ≫= λ _,
  write_field (λ self, GlobalEncoding.write_to (global_encoding self)) ≫= λ _,
  write_field (λ self, Ok (uuid self)) ≫= λ _,
  write_field (λ self, to_bytes (major (version self)) 1) ≫= λ _,
  write_field (λ self, to_bytes (minor (version self)) 1) ≫= λ _,
  (self ← gets w_self;
   write_text (system_identifier self) SystemIdentifierTruncated) ≫= λ _,
  (self ← gets w_self;
   write_text (generating_software self) GeneratingSoftwareTruncated) ≫= λ _,
  update_self (λ self, match creation_date self with
                       | None => self <| creation_date := Some today |>
                       | Some _ => self
                       end) ≫= λ _,
  write_field (λ self, to_bytes (from_option yday 0 (creation_date self)) 2) ≫= λ _,
  write_field (λ self, to_bytes (from_option year 0 (creation_date self)) 2) ≫= λ _,
  self ← gets w_self;
  header_size ← lift (LAS_HEADERS_SIZE (Version_str (version self)));
  when write_vlrs
    (update_self (λ self, self <| offset_to_point_data :=
                            header_size + Z.of_nat (length vlr_bytes) |>)) ≫= λ _,
  write_field (λ _, to_bytes header_size 2) ≫= λ _,
  write_field (λ self, to_bytes (offset_to_point_data self) 4) ≫= λ _,
  write_field (λ self, to_bytes (Z.of_nat (length (vlrs self))) 4) ≫= λ _,
  write_field (λ self,
    let point_format_id := pf_id (point_format self) in
    let point_format_id :=
      if are_points_compressed self
      then uncompressed_id_to_compressed point_format_id
      else point_format_id in
    to_bytes point_format_id 1) ≫= λ _,
  write_field (λ self, to_bytes (pf_size (point_format self)) 2) ≫= λ _,
  self ← gets w_self;
  (if 4 <=? minor (version self) then
     write_field (λ _, to_bytes 0 4) ≫= λ _,
     for_each (range 5) (λ i, write_field (λ _, to_bytes 0 4))
   else
     (if UINT32_MAX <? point_count self
      then raise (LaspyException PointCountOverflow)
      else mret tt) ≫= λ _,
     write_field (λ self, to_bytes (point_count self) 4) ≫= λ _,
     for_each (range 5) (λ i,
       write_field (λ self,
         n ← getitem (number_of_points_by_return self) i; to_bytes n 4))) ≫= λ _,
  for_each (range 3) (λ i,
    write_field (λ self, pack_d <$> getitem (scales self) i)) ≫= λ _,
  for_each (range 3) (λ i,
    write_field (λ self, pack_d <$> getitem (offsets self) i)) ≫= λ _,
  for_each (range 3) (λ i,
    write_field (λ self, pack_d <$> getitem (maxs self) i) ≫= λ _,
    write_field (λ self, pack_d <$> getitem (mins self) i)) ≫= λ _,
  when (3 <=? minor (version self))
    (write_field (λ self,
       to_bytes (start_of_waveform_data_packet_record self) 8)) ≫= λ _,
  when (4 <=? minor (version self))
    (write_field (λ self, to_bytes (start_of_first_evlr self) 8) ≫= λ _,
     write_field (λ self, to_bytes (number_of_evlrs self) 4) ≫= λ _,
     write_field (λ self, to_bytes (point_count self) 8) ≫= λ _,
     for_each (range 15) (λ i,
       write_field (λ self,
         n ← getitem (number_of_points_by_return self) i; to_bytes n 8))) ≫= λ _,
  when write_vlrs (write vlr_bytes).

(** ** Binary read *)

Definition read_int (n : Z) : M stream Z :=
  bs ← read n; mret (from_bytes bs).

Definition read_double : M stream f64 :=
  bs ← read 8; lift (unpack_d bs).

(** [for i in indices: a[i] = rd()] *)
Fixpoint read_into (indices : list nat) (rd : M stream Z) (a : list Z)
  : M stream (list Z) :=
  match indices with
  | [] => mret a
  | i :: indices' =>
      v ← rd;
      a ← lift (setitem a i v);
      read_into indices' rd a
  end.

(** [for i in indices: maxs[i] = rd(); mins[i] = rd()] *)
Fixpoint read_maxs_mins (indices : list nat) (maxs mins : list f64)
  : M stream (list f64 * list f64) :=
  match indices with
  | [] => mret (maxs, mins)
  | i :: indices' =>
      v ← read_double;
      maxs ← lift (setitem maxs i v);
      v ← read_double;
      mins ← lift (setitem mins i v);
      read_maxs_mins indices' maxs mins
  end.

(** [UUID(bytes_le=bs)], kept as those bytes. *)
Definition UUID_of_bytes_le (bs : bytes) : result bytes :=
  if decide (length bs = 16%nat) then Ok bs else Raise ValueError.

(** The creation date of a day of the year and a year; [None] on the
    [ValueError] that [read_from] catches. *)
Definition read_creation_date (creation_day_of_year creation_year : Z)
  : result (option date) :=
  match date_jan_1 creation_year with
  | Raise ValueError => Ok None
  | Raise e => Raise e
  | Ok d =>
      match date_add_days d (creation_day_of_year - 1) with
      | Raise ValueError => Ok None
      | Raise e => Raise e
      | Ok d' => Ok (Some d')
      end
  end.

(** The part of [read_from] up to the end of the VLRs: the header as filled
    so far, and the point format id and point size read. *)
Definition read_fixed_and_vlrs (seekable : bool)
  : M stream (LasHeader * Z * Z) :=
  header ← lift (LasHeader_init None None);
  file_sig ← read 4;
  (if decide (file_sig = LAS_FILE_SIGNATURE) then mret tt
   else raise (LaspyException InvalidFileSignature)) ≫= λ _,
  v ← read_int 2;
  let header := header <| file_source_id := v |> in
  bs ← read 2;
  let header := header <| global_encoding := GlobalEncoding.read_from bs |> in
  bs ← read 16;
  u ← lift (UUID_of_bytes_le bs);
  let header := header <| uuid := u |> in
  version_major ← read_int 1;
  version_minor ← read_int 1;
  let header := header <| _version := mkVersion version_major version_minor |> in
  bs ← read 32;
  s ← lift (decode_utf8 (rstrip_nul bs));
  let header := header <| system_identifier := s |> in
  bs ← read 32;
  s ← lift (decode_utf8 (rstrip_nul bs));
  let header := header <| generating_software := s |> in
  creation_day_of_year ← read_int 2;
  creation_year ← read_int 2;
  d ← lift (read_creation_date creation_day_of_year creation_year);
  let header := header <| creation_date := d |> in
  header_size ← read_int 2;
  v ← read_int 4;
  let header := header <| offset_to_point_data := v |> in
  number_of_vlrs ← read_int 4;
  point_format_id ← read_int 1;
  point_size ← read_int 2;
  v ← read_int 4;
  let header := header <| point_count := v |> in
  a ← read_into (range 5) (uint32 <$> read_int 4)
                (number_of_points_by_return header);
  let header := header <| number_of_points_by_return := a |> in
  a ← read_into (range 3) read_double (scales header);
  let header := header <| scales := a |> in
  a ← read_into (range 3) read_double (offsets header);
  let header := header <| offsets := a |> in
  '(mx, mn) ← read_maxs_mins (range 3) (maxs header) (mins header);
  let header := header <| maxs := mx |> <| mins := mn |> in
  header ← (if 3 <=? minor (version header) then
              v ← read_int 8;
              mret (header <| start_of_waveform_data_packet_record := v |>)
            else mret header);
  header ← (if 4 <=? minor (version header) then
              v ← read_int 8;
              let header := header <| start_of_first_evlr := v |> in
              v ← read_int 4;
              let header := header <| number_of_evlrs := v |> in
              v ← read_int 8;
              let header := header <| point_count := v |> in
              a ← read_into (range 15) (uint32 <$> read_int 8)
                            (number_of_points_by_return header);
              mret (header <| number_of_points_by_return := a |>)
            else mret header);
  current_pos ← (if seekable then gets tell
                 else lift (LAS_HEADERS_SIZE (Version_str (version header))));
  header ← (if current_pos <? header_size then
              bs ← read (header_size - current_pos);
              mret (header <| extra_header_bytes := bs |>)
            else if header_size <? current_pos then
              raise (LaspyException IncoherentHeaderSize)
            else mret header);
  l ← VLRList_read_from number_of_vlrs;
  let header := header <| vlrs := l |> in
  header ← (if seekable then
              current_pos ← gets tell;
              if current_pos <? offset_to_point_data header then
                bs ← read (offset_to_point_data header - current_pos);
                mret (header <| extra_vlr_bytes := bs |>)
              else if offset_to_point_data header <? current_pos then
                raise (LaspyException IncoherentOffsetToPointData)
              else mret header
            else mret header);
  mret (header, point_format_id, point_size).

(** The rest of [read_from]: the point format of the header, from the id and
    the Extra-Bytes VLR, checked against the point size. *)
Definition resolve_point_format (header : LasHeader)
    (point_format_id point_size : Z) : result (LasHeader * list Warning) :=
  let header := header <| are_points_compressed :=
                            is_point_format_compressed point_format_id |> in
  let point_format_id := compressed_id_to_uncompressed point_format_id in
  point_format ← PointFormat_init point_format_id;
  extra_dims ←
    match VLRList_get (vlrs header) with
    | [] => Ok None
    | structs :: _ =>
        match type_of_extra_dims structs with
        | Ok extra_dims => Ok (Some extra_dims)
        | Raise IndexError => Ok None
        | Raise e => Raise e
        end
    end;
  '(header, point_format, log) ←
    match extra_dims with
    | None => Ok (header, point_format, [])
    | Some extra_dims =>
        if point_size =? pf_size point_format then
          l ← VLRList_extract (vlrs header);
          Ok (header <| vlrs := l |>, point_format, [ExtraBytesVlrIgnored])
        else
          point_format ← foldlM_result add_extra_dimension point_format extra_dims;
          Ok (header, point_format, [])
    end;
  let header := header <| _point_format := point_format |> in
  if negb (point_size =? pf_size point_format)
  then Raise (LaspyException IncoherentPointSize)
  else Ok (header, log).

(** [read_from(cls, stream, seekable=True)] *)
Definition read_from (seekable : bool) : M stream (LasHeader * list Warning) :=
  '(header, point_format_id, point_size) ← read_fixed_and_vlrs seekable;
  lift (resolve_point_format header point_format_id point_size).

(** ** The vocabulary of the statements *)

(** The sub-record of the Extra-Bytes VLR that describes an extra dimension:
    name and description copied (encoded, in 32 bytes), the type tag looked
    up from the type string, or tag 0 and the element count in the options
    for more than 3 unsigned single bytes (tag and count as the 1-byte
    fields hold them: modulo 256), and each of scale and offset flagged
    and copied, element by element, when the dimension has it. *)
Definition copied (n : Z) (flag : Z) (src : option (list f64))
    (flags : Z) (dst : list f64) : Prop :=
  length dst = 3%nat ∧
  match src with
  | Some a =>
      Z.testbit flags flag = true ∧
      ∀ i : nat, if decide (i < Z.to_nat n)%nat
                 then is_Some (a !! i) ∧ dst !! i = a !! i
                 else (i < 3)%nat → dst !! i = Some f64_0
  | None => Z.testbit flags flag = false ∧ dst = replicate 3 f64_0
  end.

Record encodes (d : DimensionInfo) (s : ExtraBytesStruct) : Prop := {
  encodes_name :
    ∃ bs, encode_utf8 (name d) = Ok bs ∧ eb_name s = ljust_nul 32 bs;
  encodes_description :
    ∃ bs, encode_utf8 (description d) = Ok bs
          ∧ eb_description s = ljust_nul 32 bs;
  encodes_type :
    ∃ ts, type_str d = Some ts ∧
          if (3 <? num_elements d) && ends_with_u1 ts
          then data_type s = Byte.x00
               ∧ options s = byte.of_Z (num_elements d)
          else ∃ type_id, get_id_for_extra_dim_type ts = Ok type_id
                          ∧ data_type s = byte.of_Z type_id
                          ∧ options s = Byte.x00;
  encodes_scale :
    copied (num_elements d) 0 (dim_scales d)
      (byte.unsigned (eb_flags s)) (eb_scale s);
  encodes_offset :
    copied (num_elements d) 1 (dim_offsets d)
      (byte.unsigned (eb_flags s)) (eb_offset s)
}.

(** The extra dimensions that [_sync_extra_bytes_vlr] can describe. *)
Definition fits32 (s : str) : Prop :=
  ∃ bs, encode_utf8 s = Ok bs ∧ (length bs ≤ 32)%nat.

Definition copyable (n : Z) (src : option (list f64)) : Prop :=
  match src with
  | Some a => n ≤ 3 ∧ n ≤ Z.of_nat (length a)
  | None => True
  end.

Record encodable (d : DimensionInfo) : Prop := {
  encodable_name : fits32 (name d);
  encodable_description : fits32 (description d);
  encodable_type :
    ∃ ts, type_str d = Some ts ∧
          ((3 <? num_elements d) && ends_with_u1 ts = true
           ∨ ∃ n, get_id_for_extra_dim_type ts = Ok n);
  encodable_scales : copyable (num_elements d) (dim_scales d);
  encodable_offsets : copyable (num_elements d) (dim_offsets d)
}.

(** Invariant 3 of the header: no Extra-Bytes VLR when the point format has
    no extra dimension, otherwise one, whose sub-records describe the extra
    dimensions in order. *)
Definition extra_bytes_in_sync (h : LasHeader) : Prop :=
  match extra_dimensions (point_format h) with
  | [] => VLRList_get (vlrs h) = []
  | dims => ∃ structs, VLRList_get (vlrs h) = [structs]
                       ∧ Forall2 encodes dims structs
  end.

Definition at_most_one_extra_bytes_vlr (h : LasHeader) : Prop :=
  (length (VLRList_get (vlrs h)) ≤ 1)%nat.

(** The records of the list that are not Extra-Bytes VLRs. *)
Definition other_vlrs (l : VLRList) : VLRList :=
  filter (λ v, is_ExtraBytesVlr v = false) l.

(** The six statements of [update] on the extents. *)
Definition update_extents (points : list Point) : M LasHeader unit :=
  update_max X 0 points ≫= λ _,
  update_max Y 1 points ≫= λ _,
  update_max Z_ 2 points ≫= λ _,
  update_min X 0 points ≫= λ _,
  update_min Y 1 points ≫= λ _,
  update_min Z_ 2 points.

(** Two headers that differ in their extents at most, these having kept
    their lengths. *)
Definition same_but_extents (h h' : LasHeader) : Prop :=
  ∃ mx mn, h' = h <| maxs := mx |> <| mins := mn |>
           ∧ length mx = length (maxs h) ∧ length mn = length (mins h).

(** The version and the point format [__init__] works with, from its
    arguments: a string is parsed, an id made a point format, and what is
    missing is derived from what is given (lines 162 to 175). *)
Definition init_arguments (version : option (Version + string))
    (point_format : option (PointFormat + Z))
  : result (Version * PointFormat) :=
  point_format ← match point_format with
                 | Some (inr n) => Some <$> PointFormat_init n
                 | Some (inl p) => Ok (Some p)
                 | None => Ok None
                 end;
  version ← match version with
            | Some (inr s) => Some <$> Version_from_str s
            | Some (inl v) => Ok (Some v)
            | None => Ok None
            end;
  match version, point_format with
  | None, None => Ok (DEFAULT_VERSION, DEFAULT_POINT_FORMAT)
  | Some version, None =>
      n ← min_point_format_for_version (Version_str version);
      point_format ← PointFormat_init n;
      Ok (version, point_format)
  | None, Some point_format =>
      s ← preferred_file_version_for_point_format (pf_id point_format);
      version ← Version_from_str s;
      Ok (version, point_format)
  | Some version, Some point_format => Ok (version, point_format)
  end.

(** The number of occurrences of a value in a list, and the number of
    points of a batch with a given return number. *)
Definition occurrences (x : N) (xs : list N) : Z :=
  Z.of_nat (length (filter (x =.) xs)).

Definition returns_of (n : N) (points : list Point) : Z :=
  Z.of_nat (length (filter (λ p, return_number p = n) points)).

(** What [update] makes of the extents on one axis: the greatest and the
    least coordinate of the batch, scaled and offset, compared with the
    extents the header held. *)
Definition extents_updated (coord : Point → Z) (i : nat)
    (points : list Point) (h h' : LasHeader) : Prop :=
  ∃ hi lo cur_max cur_min scale offset,
    (hi ∈ coord <$> points ∧ ∀ p, p ∈ points → coord p ≤ hi)
    ∧ (lo ∈ coord <$> points ∧ ∀ p, p ∈ points → lo ≤ coord p)
    ∧ maxs h !! i = Some cur_max ∧ mins h !! i = Some cur_min
    ∧ scales h !! i = Some scale ∧ offsets h !! i = Some offset
    ∧ maxs h' !! i = Some (py_max cur_max (scaled hi scale offset))
    ∧ mins h' !! i = Some (py_min cur_min (scaled lo scale offset)).

(** ** The bytes of a header

    What [write_to] writes, as a function of the header: the bytes of the
    fields one after the other, or the exception of the first field that
    cannot be written. *)

(** The bytes of two fields in a row. *)
Definition cat (r1 r2 : result bytes) : result bytes :=
  a ← r1; b ← r2; Ok (a ++ b).

Fixpoint cat_list (rs : list (result bytes)) : result bytes :=
  match rs with
  | [] => Ok []
  | r :: rs' => cat r (cat_list rs')
  end.

(** A 32-byte text field: ASCII, cut at 32 bytes or NUL-padded to them. *)
Definition text32 (s : str) : result bytes :=
  encoded ← encode_ascii s;
  Ok (if decide (32 < length encoded)%nat then take 32 encoded
      else ljust_nul 32 encoded).

(** From the signature to the generating software. *)
Definition identity_bytes (self : LasHeader) : result bytes :=
  cat (Ok LAS_FILE_SIGNATURE)
  (cat (to_bytes (file_source_id self) 2)
  (cat (GlobalEncoding.write_to (global_encoding self))
  (cat (Ok (uuid self))
  (cat (to_bytes (major (version self)) 1)
  (cat (to_bytes (minor (version self)) 1)
  (cat (text32 (system_identifier self))
       (text32 (generating_software self)))))))).

(** The creation date: day of the year, year. *)
Definition date_bytes (self : LasHeader) : result bytes :=
  cat (to_bytes (from_option yday 0 (creation_date self)) 2)
      (to_bytes (from_option year 0 (creation_date self)) 2).

(** The legacy point count and the five legacy counts by return. *)
Definition legacy_counts_bytes (self : LasHeader) : result bytes :=
  if 4 <=? minor (version self) then
    cat (to_bytes 0 4) (cat_list ((λ _, to_bytes 0 4) <$> range 5))
  else
    cat (if UINT32_MAX <? point_count self
         then Raise (LaspyException PointCountOverflow) else Ok [])
    (cat (to_bytes (point_count self) 4)
         (cat_list ((λ i, n ← getitem (number_of_points_by_return self) i;
                          to_bytes n 4) <$> range 5))).

(** The three scales, the three offsets, and max and min axis by axis. *)
Definition scales_bytes (self : LasHeader) : result bytes :=
  cat_list ((λ i, pack_d <$> getitem (scales self) i) <$> range 3).

Definition offsets_bytes (self : LasHeader) : result bytes :=
  cat_list ((λ i, pack_d <$> getitem (offsets self) i) <$> range 3).

Definition maxs_mins_bytes (self : LasHeader) : result bytes :=
  cat_list ((λ i, cat (pack_d <$> getitem (maxs self) i)
                      (pack_d <$> getitem (mins self) i)) <$> range 3).

(** The fields of the versions from 1.3 and from 1.4 on. *)
Definition waveform_bytes (self : LasHeader) : result bytes :=
  if 3 <=? minor (version self)
  then to_bytes (start_of_waveform_data_packet_record self) 8
  else Ok [].

Definition evlr_and_counts_bytes (self : LasHeader) : result bytes :=
  if 4 <=? minor (version self) then
    cat (to_bytes (start_of_first_evlr self) 8)
    (cat (to_bytes (number_of_evlrs self) 4)
    (cat (to_bytes (point_count self) 8)
         (cat_list ((λ i, n ← getitem (number_of_points_by_return self) i;
                          to_bytes n 8) <$> range 15))))
  else Ok [].

(** From the header size to the end of the fixed region. *)
Definition layout_bytes (header_size : Z) (self : LasHeader) : result bytes :=
  cat (to_bytes header_size 2)
  (cat (to_bytes (offset_to_point_data self) 4)
  (cat (to_bytes (Z.of_nat (length (vlrs self))) 4)
  (cat (to_bytes (if are_points_compressed self
                  then uncompressed_id_to_compressed (pf_id (point_format self))
                  else pf_id (point_format self)) 1)
  (cat (to_bytes (pf_size (point_format self)) 2)
  (cat (legacy_counts_bytes self)
  (cat (scales_bytes self)
  (cat (offsets_bytes self)
  (cat (maxs_mins_bytes self)
  (cat (waveform_bytes self) (evlr_and_counts_bytes self)))))))))).

(** The header as [write_to] leaves it, and the bytes written. *)
Definition with_creation_date (self : LasHeader) : LasHeader :=
  match creation_date self with
  | None => self <| creation_date := Some today |>
  | Some _ => self
  end.

Definition serialize (write_vlrs : bool) (self : LasHeader)
  : result (LasHeader * bytes) :=
  vlr_bytes ← (if write_vlrs then VLRList_write_to (vlrs self) else Ok []);
  b1 ← identity_bytes self;
  let self1 := with_creation_date self in
  b2 ← date_bytes self1;
  header_size ← LAS_HEADERS_SIZE (Version_str (version self1));
  let self2 :=
    if write_vlrs
    then self1 <| offset_to_point_data :=
                    header_size + Z.of_nat (length vlr_bytes) |>
    else self1 in
  b3 ← layout_bytes header_size self2;
  Ok (self2, b1 ++ b2 ++ b3 ++ (if write_vlrs then vlr_bytes else [])).

(** A computation that writes the bytes [r] and leaves the header [h] as it
    is, or raises the exception [r]. *)
Definition emits (h : LasHeader) (m : M WriteState unit) (r : result bytes)
  : Prop :=
  ∀ w, w_self w = h →
    match r with
    | Ok bs => ∃ w', m w = (Ok tt, w') ∧ w_self w' = h
                     ∧ w_stream w' = stream_write bs (w_stream w)
    | Raise e => ∃ w', m w = (Raise e, w') ∧ w_self w' = h
    end.

(** A computation that starts by writing the bytes [r], the header [h]
    as it is, and goes on as [K]; or raises the exception [r]. *)
Definition writes_first (h : LasHeader) (P : M WriteState unit) (r : result bytes)
    (K : M WriteState unit) : Prop :=
  ∀ w, w_self w = h →
    match r with
    | Ok bs => ∃ w1, w_self w1 = h
                     ∧ w_stream w1 = stream_write bs (w_stream w)
                     ∧ P w = K w1
    | Raise e => ∃ w1, P w = (Raise e, w1) ∧ w_self w1 = h
    end.

(** The entry of [LAS_HEADERS_SIZE] for a version whose two numbers fit a
    byte each: a key for the versions 1.1 to 1.4 only, and its size. *)
Definition header_size_ok (a b : nat) : bool :=
  match LAS_HEADERS_SIZE (Version_str (mkVersion (Z.of_nat a) (Z.of_nat b))) with
  | Ok hs => (a =? 1)%nat
             && (((b =? 1)%nat || (b =? 2)%nat) && (hs =? 227)
                 || (b =? 3)%nat && (hs =? 235) || (b =? 4)%nat && (hs =? 375))
  | Raise e => bool_decide (e = KeyError)
  end.

End Header.

(** ** Reference collaborators

    One implementation of the collaborators, after the LAS 1.4 format and
    the laspy package, on which the header runs on concrete inputs: the
    point formats 0 to 10 with their record sizes, the versions 1.1 to 1.4
    with the formats each admits, the compressed ids of LAZ, the type tags of
    extra dimensions, and a VLR list written record after record (a kind
    byte, a two-byte length, the payload). *)
Module Reference.

Record format := { id : Z; dims : list DimensionInfo }.

Definition base_sizes : list Z := [20; 28; 26; 34; 57; 63; 30; 36; 38; 59; 67].

(** The bytes of one element of a type string: its last digit. *)
Definition item_size (type_str : string) : Z :=
  match rev (String.list_ascii_of_string type_str) with
  | c :: _ => Z.of_N (N_of_ascii c) - 48
  | [] => 0
  end.

Definition dim_size (d : DimensionInfo) : Z :=
  num_elements d * from_option item_size 0 (type_str d).

Definition size (p : format) : Z :=
  from_option (λ x, x) 0 (base_sizes !! Z.to_nat (id p))
  + foldr Z.add 0 (dim_size <$> dims p).

Definition init (n : Z) : result format :=
  if in_range 0 10 n then Ok {| id := n; dims := [] |}
  else Raise ExternalError.

Definition add_dimension (p : format) (d : DimensionInfo)
  : result format :=
  Ok {| id := id p; dims := dims p ++ [d] |}.

Definition max_format (version : string) : result Z :=
  if String.eqb version "1.1" then Ok 1
  else if String.eqb version "1.2" then Ok 3
  else if String.eqb version "1.3" then Ok 5
  else if String.eqb version "1.4" then Ok 10
  else Raise ExternalError.

Definition check_compatible (n : Z) (version : string)
  : result unit :=
  m ← max_format version;
  if in_range 0 m n then Ok tt
  else Raise (LaspyException IncompatibleFormat).

Definition min_format (version : string) : result Z :=
  _ ← max_format version; Ok 0.

Definition preferred_version (n : Z) : result string :=
  if in_range 0 3 n then Ok "1.2"%string
  else if in_range 4 5 n then Ok "1.3"%string
  else if in_range 6 10 n then Ok "1.4"%string
  else Raise ExternalError.

Definition is_compressed (n : Z) : bool :=
  Z.testbit n 7 && negb (Z.testbit n 6).
Definition to_uncompressed (n : Z) : Z := Z.land n 63.
Definition to_compressed (n : Z) : Z := Z.lor 128 n.

Definition base_types : list string :=
  ["u1"; "i1"; "u2"; "i2"; "u4"; "i4"; "u8"; "i8"; "f4"; "f8"]%string.

(** The type string of a tag from 1 to 30. *)
Definition type_of_id (n : Z) : option (Z * string) :=
  let count := (n - 1) / 10 + 1 in
  if in_range 1 30 n then
    (λ b, (count, if count =? 1 then b else pretty count +:+ b))
      <$> base_types !! Z.to_nat ((n - 1) mod 10)
  else None.

Definition id_of_type (type_str : string) : result Z :=
  match filter (λ n, snd <$> type_of_id n = Some type_str)
               (Z.of_nat <$> seq 1 30) with
  | n :: _ => Ok n
  | [] => Raise ExternalError
  end.

Definition decode_struct (s : ExtraBytesStruct) : result DimensionInfo :=
  name ← decode_utf8 (rstrip_nul (eb_name s));
  description ← decode_utf8 (rstrip_nul (eb_description s));
  '(count, type_str) ←
    (if byte.unsigned (data_type s) =? 0
     then Ok (byte.unsigned (options s),
              pretty (byte.unsigned (options s)) +:+ "u1")
     else match type_of_id (byte.unsigned (data_type s)) with
          | Some x => Ok x
          | None => Raise ExternalError
          end);
  let relevant (mask : Z) (a : list f64) :=
    if Z.land (byte.unsigned (eb_flags s)) mask =? 0 then None
    else Some (take (Z.to_nat count) a) in
  mret {| name := name; description := description; num_elements := count;
          type_str := Some type_str;
          dim_scales := relevant SCALE_BIT_MASK (eb_scale s);
          dim_offsets := relevant OFFSET_BIT_MASK (eb_offset s) |}.

Definition decode_structs (structs : list ExtraBytesStruct)
  : result (list DimensionInfo) := mapM decode_struct structs.

Definition struct_bytes (s : ExtraBytesStruct) : result bytes :=
  Ok ([eb_flags s; data_type s; options s] ++ eb_name s
      ++ mjoin (pack_d <$> eb_scale s) ++ mjoin (pack_d <$> eb_offset s)
      ++ eb_description s).

Definition vlr_bytes (v : VLR bytes) : result bytes :=
  match v with
  | ExtraBytesVlr structs =>
      n ← to_bytes (Z.of_nat (length structs)) 2;
      payload ← mapM struct_bytes structs;
      mret (Byte.x01 :: n ++ mjoin payload)
  | OtherVlr payload =>
      n ← to_bytes (Z.of_nat (length payload)) 2;
      mret (Byte.x00 :: n ++ payload)
  end.

Definition write_vlrs (l : list (VLR bytes)) : result bytes :=
  mjoin <$> mapM vlr_bytes l.

(** [count] times [rd]. *)
Fixpoint repeat_read {A} (count : nat) (rd : M stream A) : M stream (list A) :=
  match count with
  | O => mret []
  | S count' => x ← rd; xs ← repeat_read count' rd; mret (x :: xs)
  end.

Definition read_exactly (n : Z) : M stream bytes :=
  bs ← read n;
  if decide (Z.of_nat (length bs) = n) then mret bs else raise ExternalError.

Definition read_struct : M stream ExtraBytesStruct :=
  flags ← read_int 1;
  tag ← read_int 1;
  opts ← read_int 1;
  name ← read_exactly 32;
  scale ← repeat_read 3 read_double;
  offset ← repeat_read 3 read_double;
  description ← read_exactly 32;
  mret {| eb_flags := byte.of_Z flags; data_type := byte.of_Z tag;
          options := byte.of_Z opts;
          eb_name := name; eb_scale := scale; eb_offset := offset;
          eb_description := description |}.

Definition read_vlr : M stream (VLR bytes) :=
  kind ← read_exactly 1;
  n ← read_int 2;
  if decide (kind = [Byte.x01])
  then ExtraBytesVlr <$> repeat_read (Z.to_nat n) read_struct
  else OtherVlr <$> read_exactly n.

Definition read_vlrs (num_to_read : Z) : M stream (list (VLR bytes)) :=
  repeat_read (Z.to_nat num_to_read) read_vlr.

(** [int(s)] on the decimal numerals. *)
Definition parse_int (s : string) : result Z :=
  let digits := (λ c, Z.of_N (N_of_ascii c) - 48)
                  <$> String.list_ascii_of_string s in
  if bool_decide (digits ≠ []) && forallb (in_range 0 9) digits
  then Ok (foldl (λ acc d, 10 * acc + d) 0 digits)
  else Raise ValueError.

(** The collaborators on a given day. *)
Definition collaborators (today : date) : Collaborators := {|
  PointFormat := format;
  ExtraBytesParams := DimensionInfo;
  PointFormat_init := init;
  pf_id := id;
  pf_size := size;
  extra_dimensions := dims;
  add_extra_dimension := add_dimension;
  DEFAULT_POINT_FORMAT := {| id := 3; dims := [] |};
  raise_if_version_not_compatible_with_fmt := check_compatible;
  min_point_format_for_version := min_format;
  preferred_file_version_for_point_format := preferred_version;
  is_point_format_compressed := is_compressed;
  compressed_id_to_uncompressed := to_uncompressed;
  uncompressed_id_to_compressed := to_compressed;
  get_id_for_extra_dim_type := id_of_type;
  OtherVLR := bytes;
  type_of_extra_dims := decode_structs;
  VLRList_write_to := write_vlrs;
  VLRList_read_from := read_vlrs;
  int_of_string := parse_int;
  today := today
|}.

End Reference.

(** ** Inputs of the examples *)
Module Example.

Definition day : date := mkdate 2021 100.

Definition collaborators : Collaborators := Reference.collaborators day.
#[local] Existing Instance collaborators.

(** [LasHeader()] *)
Definition new_header : LasHeader :=
  fresh (mkVersion 1 2) {| Reference.id := 3; Reference.dims := [] |}.

Definition point (n : N) : Point :=
  {| X := 1; Y := 2; Z_ := 3; return_number := n |}.

Definition batch : list Point :=
  [ {| X := 10; Y := -2; Z_ := 3; return_number := 5 |};
    point 1; point 0; point 2; point 1 ].

(** An extra dimension of one unsigned byte, and its sub-record. *)
Definition byte_dim : DimensionInfo := {|
  name := str_of_string "flag";
  description := [];
  num_elements := 1;
  type_str := Some "u1"%string;
  dim_scales := None;
  dim_offsets := None
|}.

Definition byte_struct : ExtraBytesStruct := {|
  eb_flags := Byte.x00;
  data_type := Byte.x01;
  options := Byte.x00;
  eb_name := ljust_nul 32 (byte.of_Z <$> str_of_string "flag");
  eb_scale := replicate 3 f64_0;
  eb_offset := replicate 3 f64_0;
  eb_description := replicate 32 NUL
|}.

(** An extra dimension of four unsigned bytes, each with a scale. *)
Definition scaled_bytes_dim : DimensionInfo := {|
  name := str_of_string "rgba";
  description := [];
  num_elements := 4;
  type_str := Some "4u1"%string;
  dim_scales := Some [f64_0_01; f64_0_01; f64_0_01; f64_0_01];
  dim_offsets := None
|}.

(** Point format 3 with extra dimensions. *)
Definition format_3 (dims : list DimensionInfo) : Reference.format :=
  {| Reference.id := 3; Reference.dims := dims |}.

(** Point format 6, which version 1.4 introduced. *)
Definition format_6 : Reference.format :=
  {| Reference.id := 6; Reference.dims := [] |}.

(** What [write_to] leaves in an empty stream. *)
Definition written (h : LasHeader) : result unit * bytes :=
  let (r, w) := write_to true {| w_self := h; w_stream := stream_of [];
                                 w_log := [] |} in
  (r, passed (w_stream w)).

(** A header before an empty stream. *)
Definition to_write (h : LasHeader) : WriteState :=
  {| w_self := h; w_stream := stream_of []; w_log := [] |}.

(** A file of version 1.2 and point format 3 with one extra byte per
    point, whose VLR section holds the Extra-Bytes VLR twice. *)
Definition file_with_two_extra_bytes_vlrs : bytes :=
  snd (written ((fresh (mkVersion 1 2) (format_3 [byte_dim]))
                  <| vlrs := [ExtraBytesVlr [byte_struct];
                              ExtraBytesVlr [byte_struct]] |>)).

End Example.

(** * Properties *)

(** ** The monad *)

Create HintDb monad_ops.
#[global] Hint Unfold mbind mret fmap M_bind M_ret M_fmap result_bind result_ret
  result_fmap raise lift get gets modify when : monad_ops.

Ltac unfold_monad := autounfold with monad_ops in *.

(** Simplification through the record updates. *)
Ltac rsimpl := simpl in *; unfold constant in *; simpl in *.

Lemma bind_Ok {S A B} (m : M S A) (k : A → M S B) s a s' :
  m s = (Ok a, s') → (m ≫= k) s = k a s'.
Proof. unfold_monad. by intros ->. Qed.

Lemma bind_Raise {S A B} (m : M S A) (k : A → M S B) s e s' :
  m s = (Raise e, s') → (m ≫= k) s = (Raise e, s').
Proof. unfold_monad. by intros ->. Qed.

Lemma bind_Ok_inv {S A B} (m : M S A) (k : A → M S B) s b s' :
  (m ≫= k) s = (Ok b, s') →
  ∃ a s1, m s = (Ok a, s1) ∧ k a s1 = (Ok b, s').
Proof.
  unfold_monad. destruct (m s) as [[a|e] s1]; [eauto|discriminate].
Qed.

(** ** GlobalEncoding *)

Section GlobalEncodingFacts.
Import GlobalEncoding.

Lemma land_lor_same x m : Z.land (Z.lor x m) m = m.
Proof.
  apply Z.bits_inj'. intros n _.
  rewrite Z.land_spec, Z.lor_spec. destruct (Z.testbit x n), (Z.testbit m n); done.
Qed.

Lemma mask_of_bit f : mask_of f = 2 ^ bit_of f.
Proof. by destruct f. Qed.

Lemma land_pow2 x k :
  0 ≤ k → Z.land x (2 ^ k) = if Z.testbit x k then 2 ^ k else 0.
Proof.
  intros Hk. apply Z.bits_inj'. intros n Hn.
  rewrite Z.land_spec, Z.pow2_bits_eqb by done.
  destruct (Z.eqb_spec k n) as [->|Hne].
  - destruct (Z.testbit x n); rewrite ?andb_true_r, ?andb_false_l.
    + by rewrite Z.pow2_bits_true.
    + by rewrite Z.bits_0.
  - rewrite andb_false_r. destruct (Z.testbit x k).
    + by rewrite Z.pow2_bits_false.
    + by rewrite Z.bits_0.
Qed.

Lemma get_flag_testbit f g :
  get_flag f g = Ok (Z.testbit (value g) (bit_of f)).
Proof.
  destruct f; cbn [get_flag bit_of];
    unfold gps_time_type, waveform_data_packets_internal,
      waveform_data_packets_external, synthetic_return_numbers, wkt, test,
      GPS_TIME_TYPE_MASK, WAVEFORM_INTERNAL_MASK, WAVEFORM_EXTERNAL_MASK,
      SYNTHETIC_RETURN_NUMBERS_MASK, WKT_MASK.
  - change 1 with (2 ^ 0). rewrite land_pow2 by done.
    destruct (Z.testbit (value g) 0); reflexivity.
  - change 2 with (2 ^ 1). rewrite land_pow2 by done.
    destruct (Z.testbit (value g) 1); reflexivity.
  - change 4 with (2 ^ 2). rewrite land_pow2 by done.
    destruct (Z.testbit (value g) 2); reflexivity.
  - change 8 with (2 ^ 3). rewrite land_pow2 by done.
    destruct (Z.testbit (value g) 3); reflexivity.
  - change 16 with (2 ^ 4). rewrite land_pow2 by done.
    destruct (Z.testbit (value g) 4); reflexivity.
Qed.

(** What a setter does to each bit of the register: outside the bit of the
    flag, nothing; on it, [True] sets it and [False] flips it. *)
Lemma set_flag_testbit f v g n :
  0 ≤ n →
  Z.testbit (value (set_flag f v g)) n =
    if n =? bit_of f
    then (if v then true else negb (Z.testbit (value g) n))
    else Z.testbit (value g) n.
Proof.
  intros Hn.
  assert (Hm : ∀ f', Z.testbit (mask_of f') n = (n =? bit_of f')).
  { intros f'. rewrite mask_of_bit, Z.pow2_bits_eqb by (by destruct f').
    apply Z.eqb_sym. }
  destruct f; simpl;
    unfold set_gps_time_type, set_waveform_data_packets_internal,
      set_waveform_data_packets_external, set_synthetic_return_numbers,
      set_wkt, _set_if_true, _set_bit, _unset_bit;
    [ pose proof (Hm GpsTime) as Hb | pose proof (Hm WaveformInternal) as Hb
    | pose proof (Hm WaveformExternal) as Hb
    | pose proof (Hm SyntheticReturns) as Hb | pose proof (Hm Wkt) as Hb ];
    simpl in Hb; destruct v; simpl;
    rewrite ?Z.lor_spec, ?Z.lxor_spec, ?Z.land_spec, ?Hb;
    try (change (Z.testbit 1 n) with (Z.testbit GPS_TIME_TYPE_MASK n);
         rewrite ?Hb);
    rewrite ?Z.bits_0;
    destruct (n =? _), (Z.testbit (value g) n); done.
Qed.

Lemma set_flag_outside_mask f v g n :
  0 ≤ n → n ≠ bit_of f →
  Z.testbit (value (set_flag f v g)) n = Z.testbit (value g) n.
Proof.
  intros Hn Hne. rewrite set_flag_testbit by done.
  by destruct (Z.eqb_spec n (bit_of f)).
Qed.

Lemma set_flag_true_reads_true f g :
  get_flag f (set_flag f true g) = Ok true.
Proof.
  rewrite get_flag_testbit, set_flag_testbit by (by destruct f).
  by rewrite Z.eqb_refl.
Qed.

Lemma set_flag_false_reads_negation f g :
  get_flag f (set_flag f false g) = Ok (negb (Z.testbit (value g) (bit_of f))).
Proof.
  rewrite get_flag_testbit, set_flag_testbit by (by destruct f).
  by rewrite Z.eqb_refl.
Qed.

Lemma to_bytes_Ok v n :
  0 ≤ v < 2 ^ (Z.of_nat n * 8) → to_bytes v n = Ok (le_split n v).
Proof.
  intros [H1 H2]. unfold to_bytes.
  by rewrite (proj2 (Z.leb_le _ _) H1), (proj2 (Z.ltb_lt _ _) H2).
Qed.

Lemma from_bytes_le_split v n :
  0 ≤ v < 2 ^ (Z.of_nat n * 8) → from_bytes (le_split n v) = v.
Proof.
  intros H. unfold from_bytes. rewrite le_combine_split.
  by apply Z.mod_small.
Qed.

Lemma GlobalEncoding_roundtrip g :
  0 ≤ value g < 2 ^ 16 →
  ∃ bs, write_to g = Ok bs ∧ length bs = 2%nat ∧ read_from bs = g.
Proof.
  intros H. exists (le_split 2 (value g)). split_and!.
  - by apply to_bytes_Ok.
  - apply length_le_split.
  - unfold read_from. rewrite from_bytes_le_split by done. by destruct g.
Qed.

(** C1 (the code departs from it). Setting a named flag is claimed to leave
    the other bits alone and to make the flag read back as the value set.
    The first half holds ([set_flag_outside_mask]), and so does the raw value
    through [write_to] and [read_from] ([GlobalEncoding_roundtrip]).  The
    second half fails for [False] and for [WEEK_TIME]: [_unset_bit] and the
    [gps_time_type] setter flip the bit with [^=], they do not clear it, so
    on a register where the flag is clear, as in a new [GlobalEncoding],
    setting it to [False] sets it: each of the five flags then reads
    [True]. *)
Theorem C1_setting_a_clear_flag_to_False_sets_it :
  ∀ f, get_flag f (set_flag f false init) = Ok true
       ∧ value (set_flag f false init) = mask_of f.
Proof. by intros []. Qed.

Lemma value_inj g g' : value g = value g' → g = g'.
Proof. destruct g, g'; simpl; by intros ->. Qed.

(** X1.  Assigning a value to one of the five named flags changes no other
    named flag: each of the others reads afterwards what it read before, and
    so does every other bit of the register. *)
Theorem set_flag_keeps_the_other_flags f f' v g :
  f ≠ f' →
  get_flag f' (set_flag f v g) = get_flag f' g
  ∧ ∀ n, n ≠ bit_of f →
         Z.testbit (value (set_flag f v g)) n = Z.testbit (value g) n.
Proof.
  intros Hne. split.
  - rewrite !get_flag_testbit, set_flag_testbit by (by destruct f').
    destruct (Z.eqb_spec (bit_of f') (bit_of f)) as [Heq|]; [|done].
    by destruct f, f'.
  - intros n Hn. destruct (Z.neg_nonneg_cases n) as [Hneg|Hpos].
    + by rewrite !Z.testbit_neg_r.
    + by apply set_flag_outside_mask.
Qed.

(** X2.  Assigning [False] to a flag (and [WEEK_TIME] to the GPS time type)
    flips its bit: done twice it gives back the register as it was, whatever
    the flag held; after an assignment of [True] it does clear the flag. *)
Theorem set_flag_False_toggles f g :
  set_flag f false (set_flag f false g) = g
  ∧ get_flag f (set_flag f false g)
    = Ok (negb (Z.testbit (value g) (bit_of f)))
  ∧ get_flag f (set_flag f false (set_flag f true g)) = Ok false.
Proof.
  split_and!.
  - apply value_inj, Z.bits_inj'. intros n Hn.
    rewrite !set_flag_testbit by done.
    destruct (n =? bit_of f); [apply negb_involutive|done].
  - apply set_flag_false_reads_negation.
  - rewrite get_flag_testbit, !set_flag_testbit by (by destruct f).
    by rewrite Z.eqb_refl.
Qed.

(** X3.  [write_to] hands two bytes to the stream exactly when the register
    holds a 16-bit value, and [read_from] on those two bytes gives the
    register back; on any other value it raises [OverflowError]. *)
Theorem GlobalEncoding_write_then_read g :
  match write_to g with
  | Ok bs => 0 ≤ value g < 2 ^ 16 ∧ length bs = 2%nat ∧ read_from bs = g
  | Raise e => e = OverflowError ∧ ¬ (0 ≤ value g < 2 ^ 16)
  end.
Proof.
  unfold write_to, to_bytes.
  destruct (Z.leb_spec 0 (value g)) as [H0|H0];
    [destruct (Z.ltb_spec (value g) (2 ^ (Z.of_nat 2 * 8))) as [H1|H1]|];
    cbn [andb].
  - split_and!; [done|done|apply length_le_split|].
    unfold read_from. rewrite from_bytes_le_split by done. by destruct g.
  - split; [done|]. intros [_ ?]. change (2 ^ (Z.of_nat 2 * 8)) with (2 ^ 16) in H1. lia.
  - split; [done|]. lia.
Qed.

End GlobalEncodingFacts.

(** ** The header: construction, setters, reset *)

Section HeaderFacts.
Context {C : Collaborators}.

(** [_sync_extra_bytes_vlr] touches the VLR list and nothing else. *)
Lemma sync_frame h r h' :
  _sync_extra_bytes_vlr h = (r, h') → h' = h <| vlrs := vlrs h' |>.
Proof.
  unfold _sync_extra_bytes_vlr. unfold_monad. destruct h; simpl.
  repeat case_match; intros; simplify_eq/=; done.
Qed.

Lemma mapM_result_Forall2 {A B} (f : A → result B) l l' :
  mapM f l = Ok l' ↔ Forall2 (λ a b, f a = Ok b) l l'.
Proof.
  revert l'. induction l as [|a l IH]; intros l'; simpl.
  - split; [intros [= <-]; constructor|by inversion 1].
  - split.
    + unfold_monad. destruct (f a) eqn:Ha; [|done].
      destruct (mapM f l) eqn:Hl; [|done].
      intros [= <-]. constructor; [done|]. by apply IH.
    + inversion 1 as [|? b ? l2 Hb Hl2]; subst. rewrite Hb.
      apply IH in Hl2. cbn. fold (mapM f l). by rewrite Hl2.
Qed.

Lemma mapM_result_total {A B} (f : A → result B) l :
  Forall (λ a, ∃ b, f a = Ok b) l → ∃ l', mapM f l = Ok l'.
Proof.
  induction 1 as [|a l Hb _ IH]; simpl; [by eexists|].
  destruct Hb as [b Hb], IH as [l' IH].
  rewrite Hb. cbn. fold (mapM f l). rewrite IH. by eexists.
Qed.

Lemma getitem_Ok {A} (l : list A) i x : getitem l i = Ok x ↔ l !! i = Some x.
Proof. unfold getitem. destruct (l !! i); naive_solver. Qed.

Lemma setitem_Ok {A} (l : list A) i x l' :
  setitem l i x = Ok l' ↔ (i < length l)%nat ∧ l' = <[i := x]> l.
Proof.
  unfold setitem. destruct (decide _); split.
  - by intros [= <-].
  - by intros [_ ->].
  - done.
  - by intros [? _].
Qed.

(** What the copy loop of [_sync_extra_bytes_vlr] leaves in its 3-slot
    array. *)
Lemma copy_at_seq_inv k n src dst dst' :
  copy_at (seq k n) src dst = Ok dst' →
  length dst' = length dst ∧
  ∀ i : nat, if decide (k ≤ i < k + n)%nat
             then is_Some (src !! i) ∧ dst' !! i = src !! i
             else dst' !! i = dst !! i.
Proof.
  revert k dst. induction n as [|n IH]; intros k dst; simpl.
  - intros [= <-]. split; [done|]. intros i. case_decide; [lia|done].
  - unfold_monad. destruct (getitem src k) as [x|] eqn:Hx; [|done].
    destruct (setitem dst k x) as [d1|] eqn:Hd; [|done].
    apply getitem_Ok in Hx. apply setitem_Ok in Hd as [Hk ->].
    intros [Hlen Hi]%IH. rewrite length_insert in Hlen. split; [done|].
    intros i. specialize (Hi i). repeat case_decide; try lia.
    + done.
    + assert (i = k) as -> by lia. rewrite Hi, Hx.
      rewrite list_lookup_insert_eq by done. eauto.
    + rewrite Hi. by rewrite list_lookup_insert_ne by lia.
Qed.

Lemma copy_at_seq_total k n src dst :
  (k + n ≤ length src)%nat → (k + n ≤ length dst)%nat →
  ∃ dst', copy_at (seq k n) src dst = Ok dst'.
Proof.
  revert k dst. induction n as [|n IH]; intros k dst Hs Hd; simpl.
  - by eexists.
  - unfold_monad.
    destruct (lookup_lt_is_Some_2 src k) as [x Hx]; [lia|].
    rewrite (proj2 (getitem_Ok _ _ _) Hx).
    unfold setitem. rewrite decide_True by lia.
    apply IH; rewrite ?length_insert; lia.
Qed.

Lemma copy_elements_copied n flag src flags dst0 dst :
  length dst0 = 3%nat →
  (∀ i : nat, (i < 3)%nat → dst0 !! i = Some f64_0) →
  Z.testbit flags flag = true →
  copy_elements n src dst0 = Ok dst →
  copied n flag (Some src) flags dst.
Proof.
  intros Hlen H0 Hflag [Hl Hi]%copy_at_seq_inv. split; [congruence|].
  split; [done|]. intros i. specialize (Hi i).
  repeat case_decide; try lia; [done|]. intros ?. rewrite Hi. by apply H0.
Qed.

Lemma replicate3_lookup (i : nat) :
  (i < 3)%nat → replicate 3 f64_0 !! i = Some f64_0.
Proof. intros. by apply lookup_replicate_2. Qed.

Lemma fixed32_Ok bs r : fixed32 bs = Ok r → r = ljust_nul 32 bs.
Proof. unfold fixed32. case_decide; naive_solver. Qed.

Lemma testbit_lor_1_0 x : Z.testbit (Z.lor x 1) 0 = true.
Proof. rewrite Z.lor_spec. by rewrite orb_true_r. Qed.

Lemma testbit_lor_2_1 x : Z.testbit (Z.lor x 2) 1 = true.
Proof. rewrite Z.lor_spec. by rewrite orb_true_r. Qed.

Ltac solve_copied :=
  lazymatch goal with
  | |- copied _ _ None _ _ => split_and!; reflexivity
  | H : copy_elements _ ?a _ = Ok ?b |- copied _ _ (Some ?a) _ ?b =>
      refine (copy_elements_copied _ _ _ _ _ _ _ _ _ H);
      [ reflexivity | apply replicate3_lookup | reflexivity ]
  end.

Lemma encode_extra_dimension_encodes d s :
  encode_extra_dimension d = Ok s → encodes d s.
Proof.
  unfold encode_extra_dimension, ExtraBytesStruct_init. unfold_monad.
  destruct (type_str d) as [ts|] eqn:Hts; [|done].
  destruct (encode_utf8 (name d)) as [nm|] eqn:Hnm; [|done].
  destruct (encode_utf8 (description d)) as [ds|] eqn:Hds; [|done].
  destruct (fixed32 nm) as [nm'|] eqn:Hnm'; [|done].
  destruct (fixed32 ds) as [ds'|] eqn:Hds'; [|done].
  apply fixed32_Ok in Hnm', Hds'. subst nm' ds'.
  destruct ((3 <? num_elements d) && ends_with_u1 ts) eqn:Hsp;
    [|destruct (get_id_for_extra_dim_type ts) as [tag|] eqn:Hid; [|done]];
    (destruct (dim_scales d) as [sc|] eqn:Hdsc;
     [destruct (copy_elements _ sc _) as [sc'|] eqn:Hsc; [|done]|]);
    (destruct (dim_offsets d) as [os|] eqn:Hdos;
     [destruct (copy_elements _ os _) as [os'|] eqn:Hos; [|done]|]);
    intros [= <-]; simpl in *;
    (split; simpl;
     [ eauto | eauto | exists ts; rewrite Hsp; eauto
     | rewrite Hdsc | rewrite Hdos ]);
    cbv [constant SCALE_BIT_MASK OFFSET_BIT_MASK]; solve_copied.
Qed.


Lemma copy_elements_total n src dst :
  n ≤ Z.of_nat (length src) → n ≤ Z.of_nat (length dst) →
  ∃ dst', copy_elements n src dst = Ok dst'.
Proof. intros. apply copy_at_seq_total; lia. Qed.

Lemma encodable_encodes d :
  encodable d → ∃ s, encode_extra_dimension d = Ok s.
Proof.
  intros [(nm & Hnm & Hnl) (ds & Hds & Hdl) (ts & Hts & Hty) Hsc Hos].
  unfold encode_extra_dimension, ExtraBytesStruct_init, fixed32.
  unfold_monad. rewrite Hts, Hnm, Hds, !decide_True by done.
  assert (Hcopy : ∀ src,
    copyable (num_elements d) (Some src) →
    ∃ dst', copy_elements (num_elements d) src [f64_0; f64_0; f64_0]
            = Ok dst').
  { intros src [??]. by apply copy_elements_total. }
  destruct ((3 <? num_elements d) && ends_with_u1 ts) eqn:Hsp;
    [|destruct Hty as [?|[tag ->]]; [done|]];
    (destruct (dim_scales d) as [sc|];
     [destruct (Hcopy sc Hsc) as [sc' Hsc']|]);
    (destruct (dim_offsets d) as [os|];
     [destruct (Hcopy os Hos) as [os' Hos']|]);
    simpl; rewrite ?Hsc'; simpl; rewrite ?Hos'; by eexists.
Qed.

(** [extract] on a list with at most one Extra-Bytes VLR removes it. *)
Lemma VLRList_extract_spec (l : VLRList) :
  match VLRList_extract l with
  | Ok l' => other_vlrs l' = other_vlrs l
             ∧ VLRList_get l' = tail (VLRList_get l)
             ∧ VLRList_get l ≠ []
  | Raise e => e = IndexError ∧ VLRList_get l = []
  end.
Proof.
  induction l as [|[s|o] l IH]; simpl; [done|done|].
  unfold_monad. destruct (VLRList_extract l) as [l'|e].
  - destruct IH as (IH1 & IH2 & IH3). unfold other_vlrs in *.
    rewrite !filter_cons_True by done. split_and!; [by f_equal|done..].
  - done.
Qed.

Lemma VLRList_get_app (l1 l2 : VLRList) :
  VLRList_get (l1 ++ l2) = VLRList_get l1 ++ VLRList_get l2.
Proof. unfold VLRList_get. apply omap_app. Qed.

Lemma other_vlrs_app (l1 l2 : VLRList) :
  other_vlrs (l1 ++ l2) = other_vlrs l1 ++ other_vlrs l2.
Proof. unfold other_vlrs. apply filter_app. Qed.

(** [_sync_extra_bytes_vlr] on a header with at most one Extra-Bytes VLR:
    the outcome is that of describing the extra dimensions, the VLRs of other
    kinds stay, and what is left of Extra-Bytes VLRs is the new one, if
    any. *)
Lemma sync_spec h :
  at_most_one_extra_bytes_vlr h →
  ∃ l, _sync_extra_bytes_vlr h
       = (match extra_dimensions (point_format h) with
          | [] => Ok tt
          | dims => (λ _, tt) <$> mapM encode_extra_dimension dims
          end, h <| vlrs := l |>)
       ∧ other_vlrs l = other_vlrs (vlrs h)
       ∧ VLRList_get l =
           match extra_dimensions (point_format h) with
           | [] => []
           | dims => match mapM encode_extra_dimension dims with
                     | Ok structs => [structs]
                     | Raise _ => []
                     end
           end.
Proof.
  unfold at_most_one_extra_bytes_vlr, _sync_extra_bytes_vlr, point_format.
  destruct h as [? ? ? ? ? ? pf ? ? ? ? ? ? ? l ? ? ? ? ? ? ?].
  cbn [vlrs _point_format]. intros Hone.
  generalize (mapM encode_extra_dimension). intros enc.
  pose proof (VLRList_extract_spec l) as Hx. unfold_monad. simpl.
  assert (∃ l0, other_vlrs l0 = other_vlrs l ∧ VLRList_get l0 = []
                ∧ match VLRList_extract l with
                  | Ok l' => l' = l0
                  | Raise _ => l = l0
                  end) as (l0 & Ho & Hg & Hl0).
  { destruct (VLRList_extract l) as [l'|e].
    - exists l'. destruct Hx as (? & Ht & ?). split_and!; [done| |done].
      rewrite Ht. destruct (VLRList_get l) as [|? [|]];
        simpl in *; [done|done|lia].
    - exists l. destruct Hx. by split_and!. }
  destruct (extra_dimensions pf) as [|d dims] eqn:Hd.
  - exists l0. split_and!; [|done..].
    destruct (VLRList_extract l); subst; simpl; by rewrite Hd.
  - destruct (enc (d :: dims)) as [structs|e] eqn:Hm.
    + exists (VLRList_append l0 (ExtraBytesVlr structs)). split_and!.
      * destruct (VLRList_extract l); subst; simpl; rewrite Hd, Hm; done.
      * unfold VLRList_append. rewrite other_vlrs_app. simpl.
        unfold other_vlrs at 2. simpl. by rewrite app_nil_r.
      * unfold VLRList_append. rewrite VLRList_get_app, Hg. done.
    + exists l0. split_and!; [|done..].
      destruct (VLRList_extract l); subst; simpl; rewrite Hd, Hm; done.
Qed.

Lemma sync_in_sync h h' :
  at_most_one_extra_bytes_vlr h →
  _sync_extra_bytes_vlr h = (Ok tt, h') →
  extra_bytes_in_sync h' ∧ point_format h' = point_format h
  ∧ other_vlrs (vlrs h') = other_vlrs (vlrs h).
Proof.
  intros Hone Hs. destruct (sync_spec h Hone) as (l & Heq & Ho & Hg).
  remember (mapM encode_extra_dimension) as enc eqn:Henc.
  rewrite Hs in Heq. injection Heq as Hr ->. clear Hs Hone.
  unfold extra_bytes_in_sync, point_format in *.
  destruct h as [? ? ? ? ? ? pf ? ? ? ? ? ? ? l1 ? ? ? ? ? ? ?].
  cbn [vlrs _point_format apply_update constant] in *.
  split_and!; [|done..].
  destruct (extra_dimensions pf) as [|d dims]; [done|].
  destruct (enc (d :: dims)) as [structs|] eqn:Hm; [|done].
  exists structs. split; [done|]. subst enc.
  apply mapM_result_Forall2 in Hm.
  eapply Forall2_impl; [exact Hm|]. apply encode_extra_dimension_encodes.
Qed.

Lemma sync_total h :
  at_most_one_extra_bytes_vlr h →
  Forall encodable (extra_dimensions (point_format h)) →
  ∃ h', _sync_extra_bytes_vlr h = (Ok tt, h').
Proof.
  intros Hone Hall. destruct (sync_spec h Hone) as (l & Heq & _).
  rewrite Heq. destruct (extra_dimensions (point_format h)) as [|d dims].
  - by eexists.
  - destruct (mapM_result_total encode_extra_dimension (d :: dims)) as [s Hs].
    { eapply Forall_impl; [exact Hall|]. apply encodable_encodes. }
    rewrite Hs. by eexists.
Qed.


(** *** Construction *)

Lemma init_inv version point_format h :
  LasHeader_init version point_format = Ok h →
  ∃ v pf,
    raise_if_version_not_compatible_with_fmt (pf_id pf) (Version_str v) = Ok tt
    ∧ _sync_extra_bytes_vlr (fresh v pf) = (Ok tt, h)
    ∧ (∀ v0, version = Some (inl v0) → v = v0)
    ∧ (∀ pf0, point_format = Some (inl pf0) → pf = pf0).
Proof.
  unfold LasHeader_init. unfold_monad. intros H.
  repeat (case_match; simplify_eq/=; try done);
    repeat match goal with u : unit |- _ => destruct u end;
    eexists _, _; split_and!; naive_solver.
Qed.

Lemma fresh_at_most_one v pf : at_most_one_extra_bytes_vlr (fresh v pf).
Proof. unfold at_most_one_extra_bytes_vlr. simpl. lia. Qed.

Lemma init_fields version point_format h :
  LasHeader_init version point_format = Ok h →
  ∃ v pf, h = (fresh v pf) <| vlrs := vlrs h |>.
Proof.
  intros (v & pf & _ & Hs & _)%init_inv. exists v, pf.
  by apply sync_frame in Hs.
Qed.

(** *** The setters *)

Lemma set_point_format_incompatible pf h e :
  raise_if_version_not_compatible_with_fmt (pf_id pf) (Version_str (version h))
    = Raise e →
  set_point_format pf h = (Raise e, h).
Proof. unfold set_point_format, version. unfold_monad. by intros ->. Qed.

Lemma set_point_format_compatible pf h :
  raise_if_version_not_compatible_with_fmt (pf_id pf) (Version_str (version h))
    = Ok tt →
  set_point_format pf h = _sync_extra_bytes_vlr (h <| _point_format := pf |>).
Proof. unfold set_point_format, version. unfold_monad. by intros ->. Qed.

Lemma set_version_incompatible v h e :
  raise_if_version_not_compatible_with_fmt
    (pf_id (point_format h)) (Version_str v) = Raise e →
  set_version v h = (Raise e, h).
Proof. unfold set_version. unfold_monad. by intros ->. Qed.

Lemma set_version_compatible v h :
  raise_if_version_not_compatible_with_fmt
    (pf_id (point_format h)) (Version_str v) = Ok tt →
  set_version v h = (Ok tt, h <| _version := v |>).
Proof. unfold set_version. unfold_monad. by intros ->. Qed.

Lemma init_incompatible v pf e :
  raise_if_version_not_compatible_with_fmt (pf_id pf) (Version_str v)
    = Raise e →
  LasHeader_init (Some (inl v)) (Some (inl pf)) = Raise e.
Proof. unfold LasHeader_init. unfold_monad. by intros ->. Qed.

Lemma init_compatible v pf :
  raise_if_version_not_compatible_with_fmt (pf_id pf) (Version_str v) = Ok tt →
  LasHeader_init (Some (inl v)) (Some (inl pf)) =
    match _sync_extra_bytes_vlr (fresh v pf) with
    | (Ok _, h) => Ok h
    | (Raise e, _) => Raise e
    end.
Proof. unfold LasHeader_init. unfold_monad. by intros ->. Qed.

(** The loop of [add_extra_dims] touches the point format and nothing
    else. *)
Lemma add_extra_dims_loop_frame params h r h' :
  for_each params (λ param,
    self ← get;
    pf ← lift (add_extra_dimension (point_format self) param);
    modify (λ self, self <| _point_format := pf |>)) h = (r, h') →
  h' = h <| _point_format := _point_format h' |>.
Proof.
  revert h. induction params as [|p params IH]; intros h; simpl.
  - unfold_monad. intros [= _ <-]. by destruct h.
  - unfold_monad.
    destruct (add_extra_dimension (point_format h) p) as [pf|e].
    + intros ->%IH. by destruct h.
    + intros [= _ <-]. by destruct h.
Qed.

(** [_sync_extra_bytes_vlr] returns whenever each extra dimension of the
    point format can be described, whatever the VLR list holds. *)
Lemma sync_returns h :
  Forall encodable (extra_dimensions (point_format h)) →
  ∃ h', _sync_extra_bytes_vlr h = (Ok tt, h').
Proof.
  intros Hall. unfold _sync_extra_bytes_vlr, point_format in *.
  destruct (mapM_result_total encode_extra_dimension
              (extra_dimensions (_point_format h))) as [structs Hs].
  { eapply Forall_impl; [exact Hall|]. apply encodable_encodes. }
  revert Hs. generalize (mapM encode_extra_dimension). intros enc Hs.
  unfold mbind, M_bind, modify, gets, lift.
  destruct h as [? ? ? ? ? ? pf ? ? ? ? ? ? ? l ? ? ? ? ? ? ?].
  cbn [vlrs _point_format] in *.
  destruct (VLRList_extract l); rsimpl;
    (destruct (extra_dimensions pf); [by eexists|]; rewrite Hs; by eexists).
Qed.

(** What [read_from] makes of the VLR list and the point format, after the
    fixed fields and the VLRs are read. *)
Lemma resolve_point_format_Ok header point_format_id point_size h log :
  resolve_point_format header point_format_id point_size = Ok (h, log) →
  ∃ base,
    PointFormat_init (compressed_id_to_uncompressed point_format_id) = Ok base
    ∧ pf_size (point_format h) = point_size
    ∧ h = header <| are_points_compressed :=
                      is_point_format_compressed point_format_id |>
                 <| vlrs := vlrs h |> <| _point_format := point_format h |>
    ∧ match VLRList_get (vlrs header) with
      | [] => vlrs h = vlrs header ∧ point_format h = base ∧ log = []
      | structs :: _ =>
          match type_of_extra_dims structs with
          | Ok extra_dims =>
              if point_size =? pf_size base
              then VLRList_extract (vlrs header) = Ok (vlrs h)
                   ∧ point_format h = base ∧ log = [ExtraBytesVlrIgnored]
              else vlrs h = vlrs header
                   ∧ foldlM_result add_extra_dimension base extra_dims
                     = Ok (point_format h)
                   ∧ log = []
          | Raise e =>
              e = IndexError ∧ vlrs h = vlrs header ∧ point_format h = base
              ∧ log = []
          end
      end.
Proof.
  unfold resolve_point_format, point_format.
  destruct (PointFormat_init _) as [base|]; [|done].
  cbn [mbind result_bind]. intros H. exists base. split; [done|].
  destruct header as [? ? ? ? ? ? pf ? ? ? ? ? ? ? l ? ? ? ? ? ? ?].
  cbn [vlrs apply_update constant] in *. revert H. rsimpl.
  destruct (VLRList_get l) as [|structs rest].
  - cbn [mbind result_bind]. destruct (Z.eqb_spec point_size (pf_size base));
      [|done]. cbn [negb]. intros [= <- <-]. by split_and!.
  - destruct (type_of_extra_dims structs) as [dims|[]]; try done;
      cbn [mbind result_bind].
    + destruct (Z.eqb_spec point_size (pf_size base)) as [->|Hne].
      * destruct (VLRList_extract l) as [l'|]; [|done].
        cbn [mbind result_bind]. rewrite Z.eqb_refl. cbn [negb].
        intros [= <- <-]. by split_and!.
      * destruct (foldlM_result add_extra_dimension base dims) as [pf'|];
          [|done]. cbn [mbind result_bind].
        destruct (Z.eqb_spec point_size (pf_size pf')); [|done]. cbn [negb].
        intros [= <- <-]. by split_and!.
    + destruct (Z.eqb_spec point_size (pf_size base)); [|done]. cbn [negb].
      intros [= <- <-]. by split_and!.
Qed.

Lemma read_from_Ok seekable s h log s' :
  read_from seekable s = (Ok (h, log), s') →
  ∃ header point_format_id point_size,
    read_fixed_and_vlrs seekable s
    = (Ok (header, point_format_id, point_size), s')
    ∧ resolve_point_format header point_format_id point_size = Ok (h, log).
Proof.
  unfold read_from. intros ([[header id] size] & s1 & Hr & Hl)%bind_Ok_inv.
  unfold lift in Hl. injection Hl as Hl <-. by exists header, id, size.
Qed.

Lemma bind_post {S A B} (m : M S A) (k : A → M S B) (P : B → Prop) :
  (∀ a s b s', k a s = (Ok b, s') → P b) →
  ∀ s b s', (m ≫= k) s = (Ok b, s') → P b.
Proof.
  intros Hk s b s' (a & s1 & _ & H)%bind_Ok_inv. by eapply Hk.
Qed.

Lemma bind_post_result {S A B} (m : M S A) (k : A → M S B) (P : B → Prop) :
  (∀ a s0 s1, m s0 = (Ok a, s1) → ∀ s b s', k a s = (Ok b, s') → P b) →
  ∀ s b s', (m ≫= k) s = (Ok b, s') → P b.
Proof.
  intros Hk s b s' (a & s1 & Hm & H)%bind_Ok_inv. by eapply Hk.
Qed.

(** The VLR list of the header [read_from] has filled up to the end of the
    VLRs is the list [VLRList.read_from] returned. *)
Lemma read_fixed_and_vlrs_vlrs seekable s header point_format_id point_size s' :
  read_fixed_and_vlrs seekable s
  = (Ok (header, point_format_id, point_size), s') →
  ∃ number_of_vlrs s1 s2,
    VLRList_read_from number_of_vlrs s1 = (Ok (vlrs header), s2).
Proof.
  revert s s'.
  cut (∀ s r s', read_fixed_and_vlrs seekable s = (Ok r, s') →
       ∃ number_of_vlrs s1 s2,
         VLRList_read_from number_of_vlrs s1 = (Ok (vlrs r.1.1), s2)).
  { intros Hcut s s' Hr. apply (Hcut _ _ _ Hr). }
  unfold read_fixed_and_vlrs.
  repeat first
    [ lazymatch goal with
      | |- ∀ s b s', (VLRList_read_from _ ≫= _) s = _ → _ =>
          let parsed := fresh "parsed" in let Hv := fresh "Hv" in
          apply bind_post_result; intros parsed ? ? Hv; cbv beta zeta
      | |- ∀ s b s', ((if seekable then _ else _) ≫= _) s = _ → _ =>
          let Hl := fresh "Hl" in
          apply bind_post_result; intros ? ? ? Hl; cbv beta zeta
      end
    | lazymatch goal with
      | |- ∀ s b s', (_ ≫= _) s = _ → _ =>
          apply bind_post; intros ?; cbv beta zeta
      | |- ∀ s b s', (let '(_, _) := ?p in _) s = _ → _ =>
          destruct p
      end ].
  intros s b s' [= <- _]. cbn [fst].
  match type of Hv with VLRList_read_from ?n ?s1 = (Ok ?l, ?s2) =>
    exists n, s1, s2; rewrite Hv; do 2 f_equal
  end.
  match goal with
  | H : context [?x <| vlrs := parsed |>] |- _ =>
      generalize dependent x; intros x' H
  end.
  destruct seekable.
  - unfold mbind, M_bind, gets, mret, M_ret, raise, read in *.
    repeat case_match; simplify_eq; by destruct x'.
  - match goal with H : mret _ _ = _ |- _ => injection H as <- _ end.
    by destruct x'.
Qed.

(** C4 (amended).  The three operations of the header that end in
    [_sync_extra_bytes_vlr] — construction, the [point_format] setter and
    [add_extra_dims] — leave the VLR list in step with the point format when
    they return, provided the list held at most one Extra-Bytes VLR before
    (a new header holds none): no Extra-Bytes VLR if the point format has no
    extra dimension, otherwise exactly one, whose sub-records describe the
    extra dimensions in order ([encodes]: name and description copied, the
    type tag looked up, or tag 0 with the count in the options for more than
    3 unsigned single bytes, tag and count modulo 256 as the fields are one
    byte each, scale and offset flagged and copied when present).  The
    synchronizer returns whenever each extra dimension can be described
    ([encodable]).  [read_from] does not run the synchronizer.  Of the VLR
    list that [VLRList.read_from] returned it removes the first Extra-Bytes
    VLR, with a warning, when the declared point size is the size of the
    point format of the id read, which is then the point format of the
    header; when the sizes differ it leaves the list as it was returned and
    adds the descriptors of the first Extra-Bytes VLR to the point format.
    An Extra-Bytes VLR after the first stays in the list either way. *)
Theorem C4_extra_bytes_vlr_follows_the_point_format :
  (∀ version point_format h,
     LasHeader_init version point_format = Ok h → extra_bytes_in_sync h)
  ∧ (∀ pf h h',
       at_most_one_extra_bytes_vlr h →
       set_point_format pf h = (Ok tt, h') →
       extra_bytes_in_sync h' ∧ point_format h' = pf)
  ∧ (∀ params h h',
       at_most_one_extra_bytes_vlr h →
       add_extra_dims params h = (Ok tt, h') → extra_bytes_in_sync h')
  ∧ (∀ h,
       at_most_one_extra_bytes_vlr h →
       Forall encodable (extra_dimensions (point_format h)) →
       ∃ h', _sync_extra_bytes_vlr h = (Ok tt, h')
             ∧ extra_bytes_in_sync h'
             ∧ other_vlrs (vlrs h') = other_vlrs (vlrs h))
  ∧ (∀ seekable s h log s',
       read_from seekable s = (Ok (h, log), s') →
       ∃ header point_format_id point_size number_of_vlrs s1 s2 base,
         read_fixed_and_vlrs seekable s
         = (Ok (header, point_format_id, point_size), s')
         ∧ VLRList_read_from number_of_vlrs s1 = (Ok (vlrs header), s2)
         ∧ PointFormat_init (compressed_id_to_uncompressed point_format_id)
           = Ok base
         ∧ match VLRList_get (vlrs header) with
           | [] => vlrs h = vlrs header ∧ point_format h = base ∧ log = []
           | structs :: _ =>
               match type_of_extra_dims structs with
               | Ok extra_dims =>
                   if point_size =? pf_size base
                   then VLRList_extract (vlrs header) = Ok (vlrs h)
                        ∧ VLRList_get (vlrs h) = tail (VLRList_get (vlrs header))
                        ∧ point_format h = base
                        ∧ log = [ExtraBytesVlrIgnored]
                   else vlrs h = vlrs header
                        ∧ foldlM_result add_extra_dimension base extra_dims
                          = Ok (point_format h)
                        ∧ log = []
               | Raise e =>
                   e = IndexError ∧ vlrs h = vlrs header
                   ∧ point_format h = base ∧ log = []
               end
           end).
Proof.
  split_and!.
  - intros version point_format h (v & pf & _ & Hs & _)%init_inv.
    by apply sync_in_sync in Hs as [? _]; [|apply fresh_at_most_one].
  - intros pf h h' Hone Hset.
    destruct (raise_if_version_not_compatible_with_fmt
                (pf_id pf) (Version_str (version h))) as [[]|e] eqn:Hc.
    + rewrite (set_point_format_compatible _ _ Hc) in Hset.
      apply sync_in_sync in Hset as (? & Hpf & _); [|by destruct h].
      split; [done|]. rewrite Hpf. by destruct h.
    + by rewrite (set_point_format_incompatible _ _ _ Hc) in Hset.
  - intros params h h' Hone. unfold add_extra_dims.
    intros (? & h1 & Hloop & Hs)%bind_Ok_inv.
    apply add_extra_dims_loop_frame in Hloop.
    apply sync_in_sync in Hs as [? _]; [done|].
    rewrite Hloop. by destruct h.
  - intros h Hone Hall. destruct (sync_total h Hone Hall) as [h' Hs].
    exists h'. split; [done|].
    by apply sync_in_sync in Hs as (? & _ & ?).
  - intros seekable s h log s' (header & id & size & Hr & Hp)%read_from_Ok.
    destruct (read_fixed_and_vlrs_vlrs _ _ _ _ _ _ Hr) as (n & s1 & s2 & Hv).
    apply resolve_point_format_Ok in Hp as (base & Hb & _ & _ & Hp).
    exists header, id, size, n, s1, s2, base. split_and!; [done..|].
    destruct (VLRList_get (vlrs header)) as [|structs rest] eqn:Hg; [done|].
    destruct (type_of_extra_dims structs) as [dims|e]; [|done].
    destruct (size =? pf_size base); [|done].
    destruct Hp as (Hx & ? & ?). split_and!; [done| |done..].
    pose proof (VLRList_extract_spec (vlrs header)) as Hspec.
    rewrite Hx in Hspec. destruct Hspec as (_ & -> & _). by rewrite Hg.
Qed.

(** The construction, from the version and the point format it has made of
    its arguments. *)
Lemma LasHeader_init_arguments version point_format :
  LasHeader_init version point_format =
    '(v, pf) ← init_arguments version point_format;
    raise_if_version_not_compatible_with_fmt
      (pf_id pf) (Version_str v) ≫= λ _,
    match _sync_extra_bytes_vlr (fresh v pf) with
    | (Ok _, self) => Ok self
    | (Raise e, _) => Raise e
    end.
Proof.
  unfold LasHeader_init, init_arguments.
  destruct point_format as [[p|n]|], version as [[v|s]|];
    cbn [mbind result_bind fmap result_fmap];
    repeat first
      [ reflexivity
      | match goal with
        | |- context [match ?r with Ok _ => _ | Raise _ => _ end] =>
            is_var r; destruct r; cbn [mbind result_bind fmap result_fmap]
        | |- context [PointFormat_init ?n] =>
            destruct (PointFormat_init n);
            cbn [mbind result_bind fmap result_fmap]
        | |- context [Version_from_str ?s] =>
            destruct (Version_from_str s);
            cbn [mbind result_bind fmap result_fmap]
        | |- context [min_point_format_for_version ?s] =>
            destruct (min_point_format_for_version s);
            cbn [mbind result_bind fmap result_fmap]
        | |- context [preferred_file_version_for_point_format ?s] =>
            destruct (preferred_file_version_for_point_format s);
            cbn [mbind result_bind fmap result_fmap]
        end ].
Qed.

(** C5 (amended).  The compatibility gate: when the check of
    [laspy.point.dims] raises, the [point_format] setter, the [version]
    setter and the construction raise that exception and the header is as
    it was (the construction yields none).  When it passes, the [version]
    setter replaces the field; the [point_format] setter replaces the field
    and then runs [_sync_extra_bytes_vlr], and the construction fills the
    attributes and runs it: their outcome is the synchronizer's, which
    returns whenever each extra dimension of the format can be described.
    The construction checks the version and the point format it has made
    of its arguments ([init_arguments]): given as they are, parsed from a
    string, made from an id, or derived when one is missing. *)
Theorem C5_compatibility_gate h v pf :
  (∀ e, raise_if_version_not_compatible_with_fmt
          (pf_id pf) (Version_str (version h)) = Raise e →
        set_point_format pf h = (Raise e, h))
  ∧ (∀ e, raise_if_version_not_compatible_with_fmt
            (pf_id (point_format h)) (Version_str v) = Raise e →
          set_version v h = (Raise e, h))
  ∧ (∀ version point_format e,
       init_arguments version point_format = Ok (v, pf) →
       raise_if_version_not_compatible_with_fmt
         (pf_id pf) (Version_str v) = Raise e →
       LasHeader_init version point_format = Raise e)
  ∧ (raise_if_version_not_compatible_with_fmt
       (pf_id (point_format h)) (Version_str v) = Ok tt →
     set_version v h = (Ok tt, h <| _version := v |>))
  ∧ (raise_if_version_not_compatible_with_fmt
       (pf_id pf) (Version_str (version h)) = Ok tt →
     set_point_format pf h
       = _sync_extra_bytes_vlr (h <| _point_format := pf |>)
     ∧ (Forall encodable (extra_dimensions pf) →
        ∃ h', set_point_format pf h = (Ok tt, h')
              ∧ h' = h <| _point_format := pf |> <| vlrs := vlrs h' |>))
  ∧ (∀ version point_format,
       init_arguments version point_format = Ok (v, pf) →
       raise_if_version_not_compatible_with_fmt
         (pf_id pf) (Version_str v) = Ok tt →
       LasHeader_init version point_format =
         match _sync_extra_bytes_vlr (fresh v pf) with
         | (Ok _, h) => Ok h
         | (Raise e, _) => Raise e
         end
       ∧ (Forall encodable (extra_dimensions pf) →
          ∃ h', LasHeader_init version point_format = Ok h'
                ∧ h' = (fresh v pf) <| vlrs := vlrs h' |>))
  ∧ init_arguments (Some (inl v)) (Some (inl pf)) = Ok (v, pf)
  ∧ (∀ s n,
       Version_from_str s = Ok v → PointFormat_init n = Ok pf →
       init_arguments (Some (inr s)) (Some (inr n)) = Ok (v, pf)
       ∧ init_arguments (Some (inr s)) (Some (inl pf)) = Ok (v, pf)
       ∧ init_arguments (Some (inl v)) (Some (inr n)) = Ok (v, pf))
  ∧ (∀ version point_format e,
       init_arguments version point_format = Raise e →
       LasHeader_init version point_format = Raise e).
Proof.
  split_and!.
  - intros e. apply set_point_format_incompatible.
  - intros e. apply set_version_incompatible.
  - intros version point_format e Ha Hc.
    rewrite LasHeader_init_arguments, Ha. cbn [mbind result_bind].
    by rewrite Hc.
  - apply set_version_compatible.
  - intros Hc. split; [by apply set_point_format_compatible|].
    intros Hall. rewrite (set_point_format_compatible _ _ Hc).
    destruct (sync_returns (h <| _point_format := pf |>)) as [h' Hs].
    { by destruct h. }
    exists h'. split; [done|]. by apply sync_frame in Hs.
  - intros version point_format Ha Hc.
    rewrite LasHeader_init_arguments, Ha. cbn [mbind result_bind].
    rewrite Hc. cbn [mbind result_bind]. split; [done|].
    intros Hall. destruct (sync_returns (fresh v pf)) as [h' Hs]; [done|].
    rewrite Hs. exists h'. split; [done|]. by apply sync_frame in Hs.
  - reflexivity.
  - intros s n Hv Hp. unfold init_arguments. rewrite Hv, Hp. done.
  - intros version point_format e Ha.
    by rewrite LasHeader_init_arguments, Ha.
Qed.

(** C9 (amended).  [partial_reset] sets the point count, the maxs, the
    mins, the 15 slots of the histogram, the offset of the first EVLR and the
    number of EVLRs to zero, and it sets the creation date to the current
    date; the other attributes, among them the identifiers, the version, the
    point format and the VLR list, are left as they were. *)
Theorem C9_partial_reset h :
  ∃ h', partial_reset h = (Ok tt, h')
    ∧ point_count h' = 0
    ∧ maxs h' = [f64_0; f64_0; f64_0]
    ∧ mins h' = [f64_0; f64_0; f64_0]
    ∧ number_of_points_by_return h' = replicate 15 0
    ∧ start_of_first_evlr h' = 0
    ∧ number_of_evlrs h' = 0
    ∧ creation_date h' = Some today
    ∧ file_source_id h' = file_source_id h
    ∧ global_encoding h' = global_encoding h
    ∧ uuid h' = uuid h
    ∧ version h' = version h
    ∧ system_identifier h' = system_identifier h
    ∧ generating_software h' = generating_software h
    ∧ point_format h' = point_format h
    ∧ scales h' = scales h
    ∧ offsets h' = offsets h
    ∧ vlrs h' = vlrs h
    ∧ extra_header_bytes h' = extra_header_bytes h
    ∧ extra_vlr_bytes h' = extra_vlr_bytes h
    ∧ start_of_waveform_data_packet_record h'
      = start_of_waveform_data_packet_record h
    ∧ offset_to_point_data h' = offset_to_point_data h
    ∧ are_points_compressed h' = are_points_compressed h.
Proof. eexists. split; [reflexivity|]. by destruct h. Qed.


(** *** [update] *)

Lemma same_but_extents_refl h : same_but_extents h h.
Proof. exists (maxs h), (mins h). by destruct h. Qed.

Lemma same_but_extents_trans h1 h2 h3 :
  same_but_extents h1 h2 → same_but_extents h2 h3 → same_but_extents h1 h3.
Proof.
  intros (mx & mn & -> & ? & ?) (mx' & mn' & -> & ? & ?).
  exists mx', mn'. destruct h1; rsimpl. split_and!; [done|congruence..].
Qed.

Lemma same_but_extents_maxs h l :
  length l = length (maxs h) → same_but_extents h (h <| maxs := l |>).
Proof. intros Hl. exists l, (mins h). by destruct h. Qed.

Lemma same_but_extents_mins h l :
  length l = length (mins h) → same_but_extents h (h <| mins := l |>).
Proof. intros Hl. exists (maxs h), l. by destruct h. Qed.

Lemma update_max_inv coord i points h r h' :
  update_max coord i points h = (r, h') → same_but_extents h h'.
Proof.
  unfold update_max. unfold_monad.
  destruct (getitem (maxs h) i); [|intros [= _ <-]; apply same_but_extents_refl].
  destruct (np_max _); [|intros [= _ <-]; apply same_but_extents_refl].
  destruct (getitem (scales h) i);
    [|intros [= _ <-]; apply same_but_extents_refl].
  destruct (getitem (offsets h) i);
    [|intros [= _ <-]; apply same_but_extents_refl].
  destruct (setitem _ _ _) as [l|] eqn:Hl;
    [|intros [= _ <-]; apply same_but_extents_refl].
  apply setitem_Ok in Hl as [? ->]. intros [= _ <-].
  apply same_but_extents_maxs. by rewrite length_insert.
Qed.

Lemma update_min_inv coord i points h r h' :
  update_min coord i points h = (r, h') → same_but_extents h h'.
Proof.
  unfold update_min. unfold_monad.
  destruct (getitem (mins h) i); [|intros [= _ <-]; apply same_but_extents_refl].
  destruct (np_min _); [|intros [= _ <-]; apply same_but_extents_refl].
  destruct (getitem (scales h) i);
    [|intros [= _ <-]; apply same_but_extents_refl].
  destruct (getitem (offsets h) i);
    [|intros [= _ <-]; apply same_but_extents_refl].
  destruct (setitem _ _ _) as [l|] eqn:Hl;
    [|intros [= _ <-]; apply same_but_extents_refl].
  apply setitem_Ok in Hl as [? ->]. intros [= _ <-].
  apply same_but_extents_mins. by rewrite length_insert.
Qed.

Lemma np_max_Ok a : a ≠ [] → ∃ m, np_max a = Ok m.
Proof. destruct a; [done|]. by eexists. Qed.

Lemma np_min_Ok a : a ≠ [] → ∃ m, np_min a = Ok m.
Proof. destruct a; [done|]. by eexists. Qed.

Lemma getitem_total {A} (l : list A) i :
  (i < length l)%nat → ∃ x, getitem l i = Ok x.
Proof.
  intros [x Hx]%lookup_lt_is_Some_2. exists x. by apply getitem_Ok.
Qed.

Lemma update_max_Ok coord i points h :
  points ≠ [] → (i < length (maxs h))%nat → (i < length (scales h))%nat →
  (i < length (offsets h))%nat →
  ∃ h', update_max coord i points h = (Ok tt, h').
Proof.
  intros Hp Hm Hs Ho. unfold update_max.
  destruct (getitem_total _ _ Hm) as [cur Hcur].
  destruct (np_max_Ok (coord <$> points)) as [m Hmm]; [by destruct points|].
  destruct (getitem_total _ _ Hs) as [sc Hsc].
  destruct (getitem_total _ _ Ho) as [os Hos].
  unfold mbind, M_bind, get, lift, modify. rewrite Hcur, Hmm, Hsc, Hos.
  unfold setitem. rewrite decide_True by done. by eexists.
Qed.

Lemma update_min_Ok coord i points h :
  points ≠ [] → (i < length (mins h))%nat → (i < length (scales h))%nat →
  (i < length (offsets h))%nat →
  ∃ h', update_min coord i points h = (Ok tt, h').
Proof.
  intros Hp Hm Hs Ho. unfold update_min.
  destruct (getitem_total _ _ Hm) as [cur Hcur].
  destruct (np_min_Ok (coord <$> points)) as [m Hmm]; [by destruct points|].
  destruct (getitem_total _ _ Hs) as [sc Hsc].
  destruct (getitem_total _ _ Ho) as [os Hos].
  unfold mbind, M_bind, get, lift, modify. rewrite Hcur, Hmm, Hsc, Hos.
  unfold setitem. rewrite decide_True by done. by eexists.
Qed.

Lemma update_unfold points :
  update points =
    update_max X 0 points ≫= λ _,
    update_max Y 1 points ≫= λ _,
    update_max Z_ 2 points ≫= λ _,
    update_min X 0 points ≫= λ _,
    update_min Y 1 points ≫= λ _,
    update_min Z_ 2 points ≫= λ _,
    count_returns (np_unique (return_number <$> points)) ≫= λ _,
    modify (λ self, self <| point_count :=
                              point_count self + Z.of_nat (length points) |>).
Proof. reflexivity. Qed.

(** The loop over the return numbers: it never raises, it touches the
    histogram and nothing else, and it leaves a slot as it was unless the
    return number of that slot is among the values. *)
Lemma count_returns_inv pairs h :
  ∃ l, count_returns pairs h = (Ok tt, h <| number_of_points_by_return := l |>)
       ∧ length l = length (number_of_points_by_return h)
       ∧ ∀ i : nat, (∀ c, (N.of_nat (S i), c) ∉ pairs) →
                    l !! i = number_of_points_by_return h !! i.
Proof.
  revert h. induction pairs as [|[rn c] pairs IH]; intros h;
    cbn [count_returns].
  - exists (number_of_points_by_return h). unfold_monad.
    split_and!; [by destruct h|done..].
  - destruct (decide (rn = 0%N)) as [->|Hrn].
    + destruct (IH h) as (l & -> & Hlen & Hl). exists l.
      split_and!; [done..|]. intros i Hi. apply Hl. intros c' Hin.
      apply (Hi c'). by right.
    + unfold_monad.
      destruct (Z.ltb_spec (Z.of_nat (length (number_of_points_by_return h)))
                           (Z.of_N rn)) as [Hlt|Hge].
      * exists (number_of_points_by_return h).
        split_and!; [by destruct h|done..].
      * assert (Hi : (N.to_nat (rn - 1) < length (number_of_points_by_return h))%nat)
          by lia.
        destruct (getitem_total _ _ Hi) as [old Hold]. rewrite Hold.
        unfold setitem. rewrite decide_True by done.
        set (h1 := h <| number_of_points_by_return :=
               <[N.to_nat (rn - 1) := uint32 (old + c)]>
                 (number_of_points_by_return h) |>).
        destruct (IH h1) as (l & Hl1 & Hlen & Hl). exists l. split_and!.
        -- rewrite Hl1. subst h1. by destruct h.
        -- rewrite Hlen. subst h1. destruct h; rsimpl.
           by rewrite length_insert.
        -- intros i Hn. rewrite Hl.
           ++ subst h1. destruct h; rsimpl.
              apply list_lookup_insert_ne. intros Heq.
              apply (Hn c). assert (rn = N.of_nat (S i)) as -> by lia. left.
           ++ intros c' Hin. apply (Hn c'). by right.
Qed.

Lemma runs_elem_of xs x c : (x, c) ∈ runs xs → x ∈ xs.
Proof.
  revert x c. induction xs as [|y xs IH]; intros x c; simpl; [by inversion 1|].
  destruct (runs xs) as [|[z k] t] eqn:Hr.
  - intros Hin%list_elem_of_singleton. injection Hin as -> _. left.
  - destruct (decide (y = z)) as [->|Hyz].
    + intros [Heq|Hin]%elem_of_cons.
      * injection Heq as -> _. left.
      * right. apply (IH x c). by right.
    + intros [Heq|Hin]%elem_of_cons.
      * injection Heq as -> _. left.
      * right. by apply (IH x c).
Qed.

Lemma np_unique_elem_of a x c : (x, c) ∈ np_unique a → x ∈ a.
Proof.
  intros Hin%runs_elem_of. by rewrite merge_sort_Permutation in Hin.
Qed.

Lemma np_unique_Permutation a b : a ≡ₚ b → np_unique a = np_unique b.
Proof.
  intros Hab. unfold np_unique. f_equal.
  apply (Sorted_unique N.le).
  - apply (Sorted_merge_sort N.le).
  - apply (Sorted_merge_sort N.le).
  - by rewrite !merge_sort_Permutation.
Qed.

Lemma update_extents_inv points h r h' :
  update_extents points h = (r, h') → same_but_extents h h'.
Proof.
  unfold update_extents. unfold_monad.
  repeat match goal with
  | |- context [update_max ?c ?i points ?s] =>
      let E := fresh "E" in
      destruct (update_max c i points s) as [[[]|] ?] eqn:E;
      apply update_max_inv in E
  | |- context [update_min ?c ?i points ?s] =>
      let E := fresh "E" in
      destruct (update_min c i points s) as [[[]|] ?] eqn:E;
      apply update_min_inv in E
  end; intros; simplify_eq;
  repeat (eapply same_but_extents_trans; [eassumption|]);
  try apply same_but_extents_refl; eauto using same_but_extents_trans.
Qed.

Lemma update_extents_Ok points h :
  points ≠ [] →
  length (maxs h) = 3%nat → length (mins h) = 3%nat →
  length (scales h) = 3%nat → length (offsets h) = 3%nat →
  ∃ h', update_extents points h = (Ok tt, h').
Proof.
  intros Hp Hmx Hmn Hs Ho. unfold update_extents.
  assert (Hstep : ∀ h0 h1, same_but_extents h0 h1 →
    length (maxs h0) = 3%nat → length (mins h0) = 3%nat →
    length (scales h0) = 3%nat → length (offsets h0) = 3%nat →
    length (maxs h1) = 3%nat ∧ length (mins h1) = 3%nat ∧
    length (scales h1) = 3%nat ∧ length (offsets h1) = 3%nat).
  { intros h0 h1 (mx & mn & -> & ? & ?) ????. destruct h0; rsimpl.
    split_and!; congruence. }
  destruct (update_max_Ok X 0 points h) as [h1 E1]; [done|lia..|].
  pose proof (Hstep _ _ (update_max_inv _ _ _ _ _ _ E1) Hmx Hmn Hs Ho)
    as (?&?&?&?).
  destruct (update_max_Ok Y 1 points h1) as [h2 E2]; [done|lia..|].
  pose proof (Hstep _ _ (update_max_inv _ _ _ _ _ _ E2)) as (?&?&?&?);
    [done..|].
  destruct (update_max_Ok Z_ 2 points h2) as [h3 E3]; [done|lia..|].
  pose proof (Hstep _ _ (update_max_inv _ _ _ _ _ _ E3)) as (?&?&?&?);
    [done..|].
  destruct (update_min_Ok X 0 points h3) as [h4 E4]; [done|lia..|].
  pose proof (Hstep _ _ (update_min_inv _ _ _ _ _ _ E4)) as (?&?&?&?);
    [done..|].
  destruct (update_min_Ok Y 1 points h4) as [h5 E5]; [done|lia..|].
  pose proof (Hstep _ _ (update_min_inv _ _ _ _ _ _ E5)) as (?&?&?&?);
    [done..|].
  destruct (update_min_Ok Z_ 2 points h5) as [h6 E6]; [done|lia..|].
  exists h6.
  rewrite (bind_Ok _ _ _ _ _ E1), (bind_Ok _ _ _ _ _ E2),
    (bind_Ok _ _ _ _ _ E3), (bind_Ok _ _ _ _ _ E4), (bind_Ok _ _ _ _ _ E5).
  done.
Qed.

(** [update], split at the end of the statements on the extents: if they
    return, the loop and the point count follow and cannot fail. *)
Lemma update_split points h :
  update points h =
    match update_extents points h with
    | (Ok _, h1) =>
        (count_returns (np_unique (return_number <$> points)) ≫= λ _,
         modify (λ self, self <| point_count :=
                   point_count self + Z.of_nat (length points) |>)) h1
    | (Raise e, h1) => (Raise e, h1)
    end.
Proof.
  rewrite update_unfold. unfold update_extents. unfold_monad.
  repeat match goal with
  | |- context [update_max ?c ?i points ?s] =>
      destruct (update_max c i points s) as [[[]|] ?]; try done
  | |- context [update_min ?c ?i points ?s] =>
      destruct (update_min c i points s) as [[[]|] ?]; try done
  end.
Qed.

(** What [update] does to the histogram and to the point count. *)
Lemma update_histogram points h r h' :
  update points h = (r, h') →
  (r = Ok tt →
   point_count h' = point_count h + Z.of_nat (length points)) ∧
  length (number_of_points_by_return h')
    = length (number_of_points_by_return h) ∧
  ∀ i : nat, (∀ p, p ∈ points → N.to_nat (return_number p) ≠ S i) →
             number_of_points_by_return h' !! i
             = number_of_points_by_return h !! i.
Proof.
  rewrite update_split.
  destruct (update_extents points h) as [[[]|e] h1] eqn:Hx;
    apply update_extents_inv in Hx as (mx & mn & -> & _ & _).
  - destruct (count_returns_inv (np_unique (return_number <$> points))
                (h <| maxs := mx |> <| mins := mn |>))
      as (l & Hc & Hlen & Hl).
    unfold mbind, M_bind. rewrite Hc. unfold modify. intros [= <- <-].
    assert (Hslot : ∀ i : nat,
      (∀ p, p ∈ points → N.to_nat (return_number p) ≠ S i) →
      l !! i = number_of_points_by_return h !! i).
    { intros i Hi. rewrite Hl; [by destruct h|].
      intros c Hin%np_unique_elem_of.
      apply list_elem_of_fmap in Hin as (p & Hp & Hin).
      apply (Hi p Hin). rewrite <- Hp. lia. }
    clear Hc Hl. destruct h; rsimpl. by split_and!.
  - intros [= <- <-]. destruct h; rsimpl. by split_and!.
Qed.


Lemma occurrences_cons x y xs :
  occurrences x (y :: xs) = (if decide (x = y) then 1 else 0) + occurrences x xs.
Proof.
  unfold occurrences. rewrite filter_cons.
  destruct (decide (x = y)); simpl; lia.
Qed.

Lemma occurrences_not_in x xs : x ∉ xs → occurrences x xs = 0.
Proof.
  induction xs as [|y xs IH]; [done|]. intros Hx.
  rewrite occurrences_cons, IH.
  - destruct (decide (x = y)) as [->|]; [|done]. exfalso. apply Hx. left.
  - intros Hin. apply Hx. by right.
Qed.

Lemma occurrences_pos x xs : x ∈ xs → 0 < occurrences x xs.
Proof.
  induction xs as [|y xs IH]; [by inversion 1|].
  rewrite occurrences_cons. intros [->|Hin]%elem_of_cons.
  - rewrite decide_True by done. unfold occurrences. lia.
  - specialize (IH Hin). destruct (decide (x = y)); lia.
Qed.

Lemma occurrences_Permutation x xs ys :
  xs ≡ₚ ys → occurrences x xs = occurrences x ys.
Proof. intros H. unfold occurrences. by rewrite H. Qed.

Lemma runs_nil xs : runs xs = [] → xs = [].
Proof.
  destruct xs as [|x xs]; [done|]. simpl.
  destruct (runs xs) as [|[y c] t]; [done|]. by destruct (decide (x = y)).
Qed.

(** The values of the runs of an ascending list ascend strictly, and
    the length of the run of a value is the number of its occurrences. *)
Lemma runs_sorted xs :
  Sorted N.le xs →
  StronglySorted (λ a b, (a.1 < b.1)%N) (runs xs)
  ∧ (∀ x c, (x, c) ∈ runs xs → c = occurrences x xs)
  ∧ (∀ x, x ∈ xs → ∃ c, (x, c) ∈ runs xs).
Proof.
  intros Hs%Sorted_StronglySorted; [|intros ???; apply N.le_trans].
  induction Hs as [|x xs Hs IH Hx].
  - split_and!; [constructor|by inversion 1|by inversion 1].
  - destruct IH as (IH1 & IH2 & IH3). rewrite Forall_forall in Hx.
    assert (Hfst : ∀ y c, (y, c) ∈ runs xs → (x ≤ y)%N).
    { intros y c Hin%runs_elem_of. by apply Hx. }
    simpl. destruct (runs xs) as [|[y c] t] eqn:Hr.
    + apply runs_nil in Hr as ->. split_and!.
      * repeat constructor.
      * intros z k [= -> ->]%list_elem_of_singleton.
        rewrite occurrences_cons, decide_True by done. done.
      * intros z ->%list_elem_of_singleton. eexists. left.
    + apply StronglySorted_inv in IH1 as [IHt IHy].
      rewrite Forall_forall in IHy.
      destruct (decide (x = y)) as [->|Hxy].
      * split_and!.
        -- constructor; [done|]. apply Forall_forall. intros p Hp.
           apply (IHy p Hp).
        -- intros z k [Heq|Hin]%elem_of_cons.
           ++ injection Heq as -> ->.
              rewrite occurrences_cons, decide_True by done.
              rewrite <- (IH2 y c) by left. lia.
           ++ rewrite occurrences_cons, decide_False.
              ** rewrite <- (IH2 z k) by (by right). lia.
              ** intros ->. specialize (IHy _ Hin). simpl in IHy. lia.
        -- intros z [->|Hin]%elem_of_cons.
           ++ eexists. left.
           ++ destruct (IH3 z Hin) as [k [Heq|Hk]%elem_of_cons].
              ** injection Heq as -> ->. eexists. left.
              ** eexists. by right.
      * assert (Hlt : (x < y)%N).
        { specialize (Hfst y c ltac:(left)). lia. }
        assert (Hnin : x ∉ xs).
        { intros [k Hk]%IH3. apply elem_of_cons in Hk as [Heq|Hk].
          - by injection Heq as -> ->.
          - specialize (IHy _ Hk). simpl in IHy. lia. }
        split_and!.
        -- constructor; [by constructor; [|apply Forall_forall]|].
           constructor; [done|]. apply Forall_forall. intros p Hp.
           specialize (IHy p Hp). simpl in *. lia.
        -- intros z k [Heq|Hin]%elem_of_cons.
           ++ injection Heq as -> ->.
              rewrite occurrences_cons, decide_True by done.
              rewrite occurrences_not_in by done. done.
           ++ rewrite occurrences_cons, decide_False.
              ** rewrite <- (IH2 z k) by done. lia.
              ** intros ->. apply Hnin. rewrite <- Hr in Hin.
                 by apply runs_elem_of in Hin.
        -- intros z [->|Hin]%elem_of_cons.
           ++ eexists. left.
           ++ destruct (IH3 z Hin) as [k Hk]. eexists. by right.
Qed.

Lemma histogram_update_inj (h : LasHeader) l l' :
  h <| number_of_points_by_return := l |>
  = h <| number_of_points_by_return := l' |> → l = l'.
Proof.
  intros H. apply (f_equal number_of_points_by_return) in H. by destruct h.
Qed.

(** The loop over return numbers in strictly ascending order adds, into the
    slot of each return number that has one, its count. *)
Lemma count_returns_sorted pairs h :
  StronglySorted (λ a b : N * Z, (a.1 < b.1)%N) pairs →
  ∃ l, count_returns pairs h = (Ok tt, h <| number_of_points_by_return := l |>)
       ∧ ∀ (i : nat) old c,
           number_of_points_by_return h !! i = Some old →
           (N.of_nat (S i), c) ∈ pairs →
           l !! i = Some (uint32 (old + c)).
Proof.
  intros Hs. revert h. induction Hs as [|[rn c] pairs Hs IH Hrn]; intros h.
  - exists (number_of_points_by_return h). split; [by destruct h|].
    intros ???? Hin. by inversion Hin.
  - rewrite Forall_forall in Hrn.
    assert (Hnot : ∀ c', (rn, c') ∉ pairs).
    { intros c' Hin. specialize (Hrn _ Hin). simpl in Hrn. lia. }
    destruct (count_returns_inv ((rn, c) :: pairs) h) as (l & Hl & _ & _).
    exists l. split; [done|]. intros i old c' Hold Hin.
    assert (Hi : (i < length (number_of_points_by_return h))%nat)
      by (by apply lookup_lt_is_Some_1).
    revert Hl. cbn [count_returns].
    destruct (decide (rn = 0%N)) as [->|Hrn0].
    + apply elem_of_cons in Hin as [[=]|Hin].
      destruct (IH h) as (l' & Hl' & Hslot). rewrite Hl'. intros [_ Heq]%pair_equal_spec.
      apply histogram_update_inj in Heq as <-.
      by apply (Hslot i old c').
    + unfold mbind, M_bind, get, lift.
      destruct (Z.ltb_spec (Z.of_nat (length (number_of_points_by_return h)))
                           (Z.of_N rn)) as [Hlt|Hge].
      * exfalso. apply elem_of_cons in Hin as [[= Heq _]|Hin]; [lia|].
        specialize (Hrn _ Hin). simpl in Hrn. lia.
      * assert (Hi0 : (N.to_nat (rn - 1)
                       < length (number_of_points_by_return h))%nat) by lia.
        destruct (getitem_total _ _ Hi0) as [old0 Hold0]. rewrite Hold0.
        unfold setitem. rewrite decide_True by done.
        unfold modify.
        set (h1 := h <| number_of_points_by_return :=
               <[N.to_nat (rn - 1) := uint32 (old0 + c)]>
                 (number_of_points_by_return h) |>).
        destruct (IH h1) as (l' & Hl' & Hslot).
        destruct (count_returns_inv pairs h1) as (l'' & Hl'' & _ & Hframe).
        rewrite Hl'' in Hl'. apply pair_equal_spec in Hl' as [_ Hl'].
        apply histogram_update_inj in Hl' as ->.
        rewrite Hl''. intros [_ Heq]%pair_equal_spec.
        assert (l = l') as ->.
        { apply (f_equal number_of_points_by_return) in Heq.
          subst h1. by destruct h. }
        assert (Hh1 : number_of_points_by_return h1
                      = <[N.to_nat (rn - 1) := uint32 (old0 + c)]>
                          (number_of_points_by_return h))
          by (subst h1; by destruct h).
        apply elem_of_cons in Hin as [[= Hrni ->]|Hin].
        -- assert (N.to_nat (rn - 1) = i) as Hi' by lia.
           rewrite Hframe by (intros c0; rewrite Hrni; apply Hnot).
           rewrite Hh1, Hi'. rewrite list_lookup_insert_eq by done.
           apply getitem_Ok in Hold0. rewrite Hi' in Hold0. congruence.
        -- apply (Hslot i old c'); [|done].
           rewrite Hh1, list_lookup_insert_ne; [done|].
           specialize (Hrn _ Hin). simpl in Hrn. lia.
Qed.

Lemma returns_of_occurrences n points :
  returns_of n points = occurrences n (return_number <$> points).
Proof.
  unfold returns_of, occurrences. f_equal.
  induction points as [|p points IH]; [done|].
  rewrite fmap_cons, !filter_cons.
  destruct (decide (return_number p = n)) as [->|Hne].
  - rewrite decide_True by done. simpl. by rewrite IH.
  - rewrite decide_False by done. done.
Qed.

(** When [update] returns, each slot [i] of the histogram that exists has
    been increased, modulo 2^32, by the number of points of the batch whose
    return number is [i + 1], and is as it was when there is no such point:
    the return number 0 and the return numbers beyond the slots are counted
    nowhere. *)
Lemma update_counts points h h' :
  update points h = (Ok tt, h') →
  length (number_of_points_by_return h')
  = length (number_of_points_by_return h)
  ∧ ∀ (i : nat) old,
      number_of_points_by_return h !! i = Some old →
      number_of_points_by_return h' !! i
      = Some (if decide (returns_of (N.of_nat (S i)) points = 0) then old
              else uint32 (old + returns_of (N.of_nat (S i)) points)).
Proof.
  intros Hu. split; [by apply update_histogram in Hu as (_ & ? & _)|].
  intros i old Hold. rewrite returns_of_occurrences.
  pose proof (update_histogram _ _ _ _ Hu) as (_ & _ & Hframe).
  revert Hu. rewrite update_split.
  destruct (update_extents points h) as [[[]|e] h1] eqn:Hx; [|done].
  apply update_extents_inv in Hx as (mx & mn & -> & _ & _).
  pose proof (Sorted_merge_sort N.le (return_number <$> points)) as Hsorted.
  apply runs_sorted in Hsorted as (Hs & Hcount & Hin).
  destruct (count_returns_sorted _ (h <| maxs := mx |> <| mins := mn |>) Hs)
    as (l & Hl & Hslot).
  unfold mbind, M_bind. fold (np_unique (return_number <$> points)) in *.
  rewrite Hl. unfold modify. intros [= <-].
  destruct (decide (occurrences (N.of_nat (S i)) (return_number <$> points) = 0))
    as [H0|H0].
  - rewrite Hframe; [done|]. intros p Hp Heq.
    assert (Hpos : N.of_nat (S i) ∈ return_number <$> points).
    { apply list_elem_of_fmap. exists p. split; [lia|done]. }
    apply occurrences_pos in Hpos. lia.
  - assert (Hpos : N.of_nat (S i) ∈ merge_sort N.le (return_number <$> points)).
    { rewrite merge_sort_Permutation.
      destruct (decide (N.of_nat (S i) ∈ return_number <$> points)); [done|].
      by rewrite occurrences_not_in in H0. }
    destruct (Hin _ Hpos) as [c Hc].
    rewrite (Hcount _ _ Hc) in Hc.
    rewrite (occurrences_Permutation _ _ _ (merge_sort_Permutation _ _)) in Hc.
    assert (Hold' : number_of_points_by_return
                      (h <| maxs := mx |> <| mins := mn |>) !! i = Some old)
      by (by destruct h).
    specialize (Hslot i old _ Hold' Hc). clear -Hslot.
    destruct h; rsimpl. done.
Qed.

(** C3 (amended).  The slots of the histogram from index 5 on are zero in
    a new header and after [partial_reset], where all 15 slots are zero; the
    [version] setter leaves the histogram as it is; and [update] leaves slot
    [i] as it is when no point of the batch has return number [i + 1], so the
    slots from index 5 on stay zero under a batch whose return numbers are
    all at most 5.  None of this depends on the version: when [update]
    returns, under any version, each slot [i] of the histogram holds what it
    held plus the number of points of the batch whose return number is
    [i + 1], modulo 2^32, so that the points of return number 6 to 15 are
    counted in the slots 5 to 14. *)
Theorem C3_slots_from_5_on :
  (∀ version point_format h,
     LasHeader_init version point_format = Ok h →
     number_of_points_by_return h = replicate 15 0)
  ∧ (∀ h r h',
       partial_reset h = (r, h') →
       number_of_points_by_return h' = replicate 15 0)
  ∧ (∀ v h r h',
       set_version v h = (r, h') →
       number_of_points_by_return h' = number_of_points_by_return h)
  ∧ (∀ points h r h' (i : nat),
       update points h = (r, h') →
       (∀ p, p ∈ points → N.to_nat (return_number p) ≠ S i) →
       number_of_points_by_return h' !! i
       = number_of_points_by_return h !! i)
  ∧ (∀ points h r h' (i : nat),
       update points h = (r, h') →
       (∀ p, p ∈ points → (return_number p ≤ 5)%N) →
       (5 ≤ i)%nat →
       number_of_points_by_return h !! i = Some 0 →
       number_of_points_by_return h' !! i = Some 0)
  ∧ (∀ points h h' (i : nat) old,
       update points h = (Ok tt, h') →
       number_of_points_by_return h !! i = Some old →
       number_of_points_by_return h' !! i
       = Some (if decide (returns_of (N.of_nat (S i)) points = 0) then old
               else uint32 (old + returns_of (N.of_nat (S i)) points))).
Proof.
  split_and!.
  - intros version point_format h (v & pf & ->)%init_fields. done.
  - intros h r h' [= _ <-]. by destruct h.
  - intros v h r h'. unfold set_version. unfold_monad.
    case_match; intros [= _ <-]; by destruct h.
  - intros points h r h' i Hu Hi.
    apply update_histogram in Hu as (_ & _ & Hslot). by apply Hslot.
  - intros points h r h' i Hu Hle Hi H0.
    apply update_histogram in Hu as (_ & _ & Hslot).
    rewrite Hslot; [done|]. intros p Hp. specialize (Hle p Hp). lia.
  - intros points h h' i old Hu Hold.
    by apply (update_counts points h h').
Qed.

(** C8.  A batch whose return numbers are 0, 1, 1, 2 and 5 (in any order,
    with any coordinates), given to [update] on a new header: the call
    returns, slot 0 of the histogram holds 2, slot 1 holds 1, slot 4 holds
    1, the other slots hold 0 (the return number 0 is counted nowhere), and
    the point count is 5. *)
Theorem C8_update_histogram version point_format h points :
  LasHeader_init version point_format = Ok h →
  return_number <$> points ≡ₚ [0; 1; 1; 2; 5]%N →
  ∃ h', update points h = (Ok tt, h')
    ∧ number_of_points_by_return h'
      = [2; 1; 0; 0; 1; 0; 0; 0; 0; 0; 0; 0; 0; 0; 0]
    ∧ point_count h' = 5.
Proof.
  intros (v & pf & Hh)%init_fields Hperm.
  assert (Hlen : length points = 5%nat).
  { apply Permutation_length in Hperm. by rewrite length_fmap in Hperm. }
  assert (Hne : points ≠ []) by (by destruct points).
  destruct (update_extents_Ok points h Hne) as [h1 Hx];
    [by rewrite Hh..|].
  pose proof (update_extents_inv _ _ _ _ Hx) as (mx & mn & Hh1 & _).
  rewrite update_split, Hx, (np_unique_Permutation _ _ Hperm), Hlen.
  rewrite Hh1, Hh. eexists. split; [reflexivity|]. split; reflexivity.
Qed.

(** [update] on an empty batch: [max()] of an empty array. *)
Lemma update_empty_batch h :
  maxs h ≠ [] → update [] h = (Raise ValueError, h).
Proof.
  intros Hm. rewrite update_unfold. apply bind_Raise.
  unfold update_max, mbind, M_bind, get, lift.
  destruct (maxs h) as [|x l] eqn:E; [done|]. reflexivity.
Qed.

Lemma foldl_max_spec x a :
  foldl Z.max x a ∈ x :: a ∧ Forall (λ y, y ≤ foldl Z.max x a) (x :: a).
Proof.
  revert x. induction a as [|y a IH]; intros x; simpl.
  - split; [left|]. by constructor.
  - destruct (IH (Z.max x y)) as [Hin Hall].
    apply Forall_cons in Hall as [Hm Hall]. split.
    + apply elem_of_cons in Hin as [Heq|Hin].
      * rewrite Heq. destruct (Z.max_spec x y) as [[_ ->]|[_ ->]];
          [right; left|left].
      * by do 2 right.
    + repeat constructor; [lia..|done].
Qed.

Lemma foldl_min_spec x a :
  foldl Z.min x a ∈ x :: a ∧ Forall (λ y, foldl Z.min x a ≤ y) (x :: a).
Proof.
  revert x. induction a as [|y a IH]; intros x; simpl.
  - split; [left|]. by constructor.
  - destruct (IH (Z.min x y)) as [Hin Hall].
    apply Forall_cons in Hall as [Hm Hall]. split.
    + apply elem_of_cons in Hin as [Heq|Hin].
      * rewrite Heq. destruct (Z.min_spec x y) as [[_ ->]|[_ ->]];
          [left|right; left].
      * by do 2 right.
    + repeat constructor; [lia..|done].
Qed.

Lemma np_max_spec {A} (f : A → Z) l m :
  np_max (f <$> l) = Ok m → m ∈ f <$> l ∧ ∀ x, x ∈ l → f x ≤ m.
Proof.
  unfold np_max. destruct (f <$> l) as [|y a] eqn:E; [done|].
  intros [= <-]. destruct (foldl_max_spec y a) as [Hin Hall].
  split; [done|]. intros x Hx. rewrite Forall_forall in Hall.
  apply Hall. rewrite <- E. by apply list_elem_of_fmap_2.
Qed.

Lemma np_min_spec {A} (f : A → Z) l m :
  np_min (f <$> l) = Ok m → m ∈ f <$> l ∧ ∀ x, x ∈ l → m ≤ f x.
Proof.
  unfold np_min. destruct (f <$> l) as [|y a] eqn:E; [done|].
  intros [= <-]. destruct (foldl_min_spec y a) as [Hin Hall].
  split; [done|]. intros x Hx. rewrite Forall_forall in Hall.
  apply Hall. rewrite <- E. by apply list_elem_of_fmap_2.
Qed.

Lemma update_max_spec coord i points h h' :
  update_max coord i points h = (Ok tt, h') →
  ∃ cur m scale offset,
    maxs h !! i = Some cur ∧ np_max (coord <$> points) = Ok m
    ∧ scales h !! i = Some scale ∧ offsets h !! i = Some offset
    ∧ h' = h <| maxs := <[i := py_max cur (scaled m scale offset)]> (maxs h) |>.
Proof.
  unfold update_max, mbind, M_bind, get, lift, modify.
  destruct (getitem (maxs h) i) as [cur|] eqn:E1; [|done].
  destruct (np_max _) as [m|] eqn:E2; [|done].
  destruct (getitem (scales h) i) as [sc|] eqn:E3; [|done].
  destruct (getitem (offsets h) i) as [os|] eqn:E4; [|done].
  destruct (setitem _ _ _) as [l|] eqn:E5; [|done].
  apply setitem_Ok in E5 as [_ ->]. intros [= <-].
  apply getitem_Ok in E1, E3, E4. by exists cur, m, sc, os.
Qed.

Lemma update_min_spec coord i points h h' :
  update_min coord i points h = (Ok tt, h') →
  ∃ cur m scale offset,
    mins h !! i = Some cur ∧ np_min (coord <$> points) = Ok m
    ∧ scales h !! i = Some scale ∧ offsets h !! i = Some offset
    ∧ h' = h <| mins := <[i := py_min cur (scaled m scale offset)]> (mins h) |>.
Proof.
  unfold update_min, mbind, M_bind, get, lift, modify.
  destruct (getitem (mins h) i) as [cur|] eqn:E1; [|done].
  destruct (np_min _) as [m|] eqn:E2; [|done].
  destruct (getitem (scales h) i) as [sc|] eqn:E3; [|done].
  destruct (getitem (offsets h) i) as [os|] eqn:E4; [|done].
  destruct (setitem _ _ _) as [l|] eqn:E5; [|done].
  apply setitem_Ok in E5 as [_ ->]. intros [= <-].
  apply getitem_Ok in E1, E3, E4. by exists cur, m, sc, os.
Qed.

Lemma update_Ok_inv points h h' :
  update points h = (Ok tt, h') →
  ∃ h1 l, update_extents points h = (Ok tt, h1)
    ∧ h' = h1 <| number_of_points_by_return := l |>
              <| point_count := point_count h1 + Z.of_nat (length points) |>.
Proof.
  rewrite update_split.
  destruct (update_extents points h) as [[[]|e] h1] eqn:Hx; [|done].
  destruct (count_returns_inv (np_unique (return_number <$> points)) h1)
    as (l & Hl & _).
  unfold mbind, M_bind. rewrite Hl. unfold modify. intros [= <-].
  exists h1, l. split; [done|]. by destruct h1.
Qed.

(** X5.  When [update] returns, on each of the three axes the maximum held
    is the greater of the maximum before and of the greatest coordinate of
    the batch times the scale plus the offset of that axis, the minimum the
    lesser of the minimum before and of the least coordinate so scaled; the
    scales and the offsets are as before. *)
Theorem update_extents_of_the_batch points h h' :
  update points h = (Ok tt, h') →
  extents_updated X 0 points h h'
  ∧ extents_updated Y 1 points h h'
  ∧ extents_updated Z_ 2 points h h'
  ∧ scales h' = scales h ∧ offsets h' = offsets h.
Proof.
  intros (h6 & l & Hx & ->)%update_Ok_inv. revert Hx. unfold update_extents.
  intros (? & h1 & E1 & Hx)%bind_Ok_inv.
  apply bind_Ok_inv in Hx as (? & h2 & E2 & Hx).
  apply bind_Ok_inv in Hx as (? & h3 & E3 & Hx).
  apply bind_Ok_inv in Hx as (? & h4 & E4 & Hx).
  apply bind_Ok_inv in Hx as (? & h5 & E5 & E6).
  repeat match goal with u : unit |- _ => destruct u end.
  apply update_max_spec in E1 as (c1 & m1 & s1 & o1 & ? & Hm1 & ? & ? & ->).
  apply update_max_spec in E2 as (c2 & m2 & s2 & o2 & ? & Hm2 & ? & ? & ->).
  apply update_max_spec in E3 as (c3 & m3 & s3 & o3 & ? & Hm3 & ? & ? & ->).
  apply update_min_spec in E4 as (c4 & m4 & s4 & o4 & ? & Hm4 & ? & ? & ->).
  apply update_min_spec in E5 as (c5 & m5 & s5 & o5 & ? & Hm5 & ? & ? & ->).
  apply update_min_spec in E6 as (c6 & m6 & s6 & o6 & ? & Hm6 & ? & ? & ->).
  apply np_max_spec in Hm1 as [??], Hm2 as [??], Hm3 as [??].
  apply np_min_spec in Hm4 as [??], Hm5 as [??], Hm6 as [??].
  destruct h; rsimpl.
  repeat match goal with
  | H : <[?i := _]> _ !! ?j = Some _ |- _ =>
      rewrite list_lookup_insert_ne in H by done
  end.
  assert (s4 = s1 ∧ o4 = o1 ∧ s5 = s2 ∧ o5 = o2 ∧ s6 = s3 ∧ o6 = o3)
    as (-> & -> & -> & -> & -> & ->) by (split_and!; congruence).
  assert (Hlen : ∀ {A} (l : list A) (i : nat) x, l !! i = Some x → (i < length l)%nat)
    by (intros; by eapply lookup_lt_Some).
  split_and!; [| | |done..].
  - exists m1, m4, c1, c4, s1, o1. simpl. split_and!; try done.
    + rewrite !list_lookup_insert_ne by done.
      apply list_lookup_insert_eq. eauto.
    + rewrite !list_lookup_insert_ne by done.
      apply list_lookup_insert_eq. eauto.
  - exists m2, m5, c2, c5, s2, o2. simpl. split_and!; try done.
    + rewrite !list_lookup_insert_ne by done.
      apply list_lookup_insert_eq. rewrite length_insert. eauto.
    + rewrite !list_lookup_insert_ne by done.
      apply list_lookup_insert_eq. rewrite length_insert. eauto.
  - exists m3, m6, c3, c6, s3, o3. simpl. split_and!; try done.
    + apply list_lookup_insert_eq. rewrite !length_insert. eauto.
    + apply list_lookup_insert_eq. rewrite !length_insert. eauto.
Qed.

(** X4.  On a header whose extents, scales and offsets have their three
    slots, [update] raises [ValueError] on an empty batch, the header being
    left as it was, and returns on every other batch. *)
Theorem update_returns_unless_the_batch_is_empty points h :
  length (maxs h) = 3%nat → length (mins h) = 3%nat →
  length (scales h) = 3%nat → length (offsets h) = 3%nat →
  match points with
  | [] => update points h = (Raise ValueError, h)
  | _ :: _ => ∃ h', update points h = (Ok tt, h')
  end.
Proof.
  intros Hmx Hmn Hs Ho. destruct points as [|p points].
  - apply update_empty_batch. by destruct (maxs h).
  - destruct (update_extents_Ok (p :: points) h) as [h1 Hx]; [done..|].
    rewrite update_split, Hx.
    destruct (count_returns_inv
                (np_unique (return_number <$> p :: points)) h1)
      as (l & Hl & _).
    unfold mbind, M_bind. rewrite Hl. by eexists.
Qed.

(** X6.  Whether it returns or raises, [update] changes nothing of the
    header but the extents, the histogram and the point count, and the
    extents keep their lengths; when it raises, the histogram and the point
    count are as they were. *)
Theorem update_changes_extents_histogram_and_count_only points h r h' :
  update points h = (r, h') →
  h' = h <| maxs := maxs h' |> <| mins := mins h' |>
         <| number_of_points_by_return := number_of_points_by_return h' |>
         <| point_count := point_count h' |>
  ∧ length (maxs h') = length (maxs h)
  ∧ length (mins h') = length (mins h)
  ∧ (r ≠ Ok tt →
     number_of_points_by_return h' = number_of_points_by_return h
     ∧ point_count h' = point_count h).
Proof.
  rewrite update_split.
  destruct (update_extents points h) as [[[]|e] h1] eqn:Hx;
    apply update_extents_inv in Hx as (mx & mn & -> & Hmx & Hmn).
  - destruct (count_returns_inv (np_unique (return_number <$> points))
                (h <| maxs := mx |> <| mins := mn |>)) as (l & Hl & _).
    unfold mbind, M_bind. rewrite Hl. unfold modify. intros [= <- <-].
    destruct h; rsimpl. by split_and!.
  - intros [= <- <-]. destruct h; rsimpl. by split_and!.
Qed.

(** X7.  [set_version_and_point_format] checks the new point format against
    the new version, not against the version the header has: when the check
    raises, the header is as it was; when it passes, the version and the
    point format are both replaced and the outcome is that of the
    synchronizer, which returns, leaving the VLR list in step with the new
    point format, whenever each extra dimension can be described. *)
Theorem set_version_and_point_format_checks_the_new_pair v pf h :
  match raise_if_version_not_compatible_with_fmt (pf_id pf) (Version_str v) with
  | Raise e => set_version_and_point_format v pf h = (Raise e, h)
  | Ok _ =>
      set_version_and_point_format v pf h
      = _sync_extra_bytes_vlr (h <| _version := v |> <| _point_format := pf |>)
      ∧ (at_most_one_extra_bytes_vlr h →
         Forall encodable (extra_dimensions pf) →
         ∃ h', set_version_and_point_format v pf h = (Ok tt, h')
               ∧ h' = h <| _version := v |> <| _point_format := pf |>
                        <| vlrs := vlrs h' |>
               ∧ extra_bytes_in_sync h')
  end.
Proof.
  destruct (raise_if_version_not_compatible_with_fmt _ _) as [[]|e] eqn:Hc.
  - assert (Heq : set_version_and_point_format v pf h
      = _sync_extra_bytes_vlr (h <| _version := v |> <| _point_format := pf |>)).
    { unfold set_version_and_point_format, set_point_format.
      unfold mbind, M_bind, lift, modify, get. rewrite Hc.
      cbv beta iota.
      replace (Version_str (_version (h <| _version := v |>)))
        with (Version_str v) by (by destruct h).
      rewrite Hc. by destruct h. }
    split; [done|]. intros Hone Hall. rewrite Heq.
    destruct (sync_total (h <| _version := v |> <| _point_format := pf |>))
      as [h' Hs]; [by destruct h..|].
    exists h'. split; [done|]. split; [by apply sync_frame in Hs|].
    apply sync_in_sync in Hs as [? _]; [done|by destruct h].
  - unfold set_version_and_point_format.
    unfold mbind, M_bind, lift. by rewrite Hc.
Qed.

Lemma add_extra_dims_loop params h :
  match foldlM_result add_extra_dimension (point_format h) params with
  | Ok pf =>
      for_each params (λ param,
        self ← get;
        pf ← lift (add_extra_dimension (point_format self) param);
        modify (λ self, self <| _point_format := pf |>)) h
      = (Ok tt, h <| _point_format := pf |>)
  | Raise e =>
      ∃ before param after pf,
        params = before ++ param :: after
        ∧ foldlM_result add_extra_dimension (point_format h) before = Ok pf
        ∧ add_extra_dimension pf param = Raise e
        ∧ for_each params (λ param,
            self ← get;
            pf ← lift (add_extra_dimension (point_format self) param);
            modify (λ self, self <| _point_format := pf |>)) h
          = (Raise e, h <| _point_format := pf |>)
  end.
Proof.
  revert h. induction params as [|p params IH]; intros h.
  - simpl. by destruct h.
  - cbn [foldlM_result for_each].
    match goal with |- context [for_each params ?b] => set (body := b) in * end.
    assert (Hbody : body p h
      = match add_extra_dimension (point_format h) p with
        | Ok pf1 => (Ok tt, h <| _point_format := pf1 |>)
        | Raise e => (Raise e, h)
        end).
    { subst body. unfold mbind, M_bind, get, lift, modify.
      by destruct (add_extra_dimension (point_format h) p). }
    destruct (add_extra_dimension (point_format h) p) as [pf1|e] eqn:Hp;
      cbn [mbind result_bind].
    + specialize (IH (h <| _point_format := pf1 |>)).
      replace (point_format (h <| _point_format := pf1 |>)) with pf1 in IH
        by (by destruct h).
      rewrite (bind_Ok _ _ _ _ _ Hbody).
      destruct (foldlM_result add_extra_dimension pf1 params) as [pf|e].
      * rewrite IH. by destruct h.
      * destruct IH as (before & param & after & pf & -> & Hb & Hr & ->).
        exists (p :: before), param, after, pf. split_and!; [done| |done|].
        -- cbn [foldlM_result]. rewrite Hp. done.
        -- by destruct h.
    + exists [], p, params, (point_format h). split_and!; [done..|].
      rewrite (bind_Raise _ _ _ _ _ Hbody). by destruct h.
Qed.

(** X8.  [add_extra_dims] adds the descriptors to the point format one after
    the other and then synchronizes the Extra-Bytes VLR.  When the point
    format refuses a descriptor, the call raises at once: the descriptors
    before it stay added, and the VLR list is as it was, the synchronizer not
    having run. *)
Theorem add_extra_dims_stops_at_the_first_refusal params h :
  match foldlM_result add_extra_dimension (point_format h) params with
  | Ok pf =>
      add_extra_dims params h
      = _sync_extra_bytes_vlr (h <| _point_format := pf |>)
  | Raise e =>
      ∃ before param after pf,
        params = before ++ param :: after
        ∧ foldlM_result add_extra_dimension (point_format h) before = Ok pf
        ∧ add_extra_dimension pf param = Raise e
        ∧ add_extra_dims params h = (Raise e, h <| _point_format := pf |>)
  end.
Proof.
  pose proof (add_extra_dims_loop params h) as Hloop. unfold add_extra_dims.
  destruct (foldlM_result add_extra_dimension (point_format h) params)
    as [pf|e].
  - by rewrite (bind_Ok _ _ _ _ _ Hloop).
  - destruct Hloop as (before & param & after & pf & ? & ? & ? & Hloop).
    exists before, param, after, pf. split_and!; [done..|].
    by rewrite (bind_Raise _ _ _ _ _ Hloop).
Qed.

Lemma header_size_table :
  forallb (λ a, forallb (header_size_ok a) (seq 0 256)) (seq 0 256) = true.
Proof. vm_compute. reflexivity. Qed.

Lemma LAS_HEADERS_SIZE_cases v :
  0 ≤ major v < 256 → 0 ≤ minor v < 256 →
  match LAS_HEADERS_SIZE (Version_str v) with
  | Ok hs => major v = 1
             ∧ ((minor v = 1 ∨ minor v = 2) ∧ hs = 227
                ∨ minor v = 3 ∧ hs = 235 ∨ minor v = 4 ∧ hs = 375)
  | Raise e => e = KeyError
  end.
Proof.
  intros Ha Hb. pose proof header_size_table as Ht.
  rewrite forallb_forall in Ht.
  specialize (Ht (Z.to_nat (major v))). rewrite forallb_forall in Ht.
  specialize (Ht ltac:(apply in_seq; lia) (Z.to_nat (minor v))
                 ltac:(apply in_seq; lia)).
  unfold header_size_ok in Ht. rewrite !Z2Nat.id in Ht by lia.
  destruct v as [a b]; simpl in *.
  destruct (LAS_HEADERS_SIZE _) as [hs|e].
  - apply andb_prop in Ht as [Ha1 Ht]. apply Nat.eqb_eq in Ha1.
    split; [lia|].
    apply orb_prop in Ht as [Ht|Ht]; [apply orb_prop in Ht as [Ht|Ht]|];
      apply andb_prop in Ht as [H1 H2]; apply Z.eqb_eq in H2.
    + left. split; [|done]. apply orb_prop in H1 as [H1|H1];
        apply Nat.eqb_eq in H1; lia.
    + right; left. apply Nat.eqb_eq in H1. lia.
    + right; right. apply Nat.eqb_eq in H1. lia.
  - by apply bool_decide_eq_true in Ht.
Qed.

Lemma stream_write_nil s : stream_write [] s = s.
Proof. destruct s. unfold stream_write. simpl. by rewrite app_nil_r. Qed.

Lemma stream_write_app a b s :
  stream_write b (stream_write a s) = stream_write (a ++ b) s.
Proof.
  unfold stream_write. simpl.
  by rewrite <- app_assoc, drop_drop, length_app.
Qed.

Lemma emits_ret h : emits h (mret tt) (Ok []).
Proof. intros w Hw. exists w. by rewrite stream_write_nil. Qed.

Lemma emits_raise h e : emits h (raise e) (Raise e).
Proof. intros w Hw. by exists w. Qed.

Lemma emits_write h bs : emits h (write bs) (Ok bs).
Proof. intros w Hw. eexists. split; [reflexivity|]. by destruct w. Qed.

Lemma emits_write_field h f : emits h (write_field f) (f h).
Proof.
  intros w Hw. unfold write_field. unfold_monad. rewrite Hw.
  destruct (f h) as [bs|e]; [|by exists w].
  eexists. split; [reflexivity|]. by destruct w.
Qed.

Lemma emits_bind h m1 m2 r1 r2 :
  emits h m1 r1 → emits h m2 r2 → emits h (m1 ≫= λ _, m2) (cat r1 r2).
Proof.
  intros H1 H2 w Hw. specialize (H1 w Hw). unfold cat. unfold_monad.
  destruct r1 as [a|e].
  - destruct H1 as (w1 & -> & Hw1 & Hs1). specialize (H2 w1 Hw1).
    destruct r2 as [b|e].
    + destruct H2 as (w2 & -> & Hw2 & Hs2). exists w2.
      split_and!; [done..|]. by rewrite Hs2, Hs1, stream_write_app.
    + destruct H2 as (w2 & -> & Hw2). by exists w2.
  - destruct H1 as (w1 & -> & Hw1). by exists w1.
Qed.

Lemma emits_gets h k r :
  emits h (k h) r → emits h (gets w_self ≫= k) r.
Proof. intros H w Hw. unfold_monad. rewrite Hw. by apply H. Qed.

Lemma emits_when h (b : bool) m r :
  emits h m r → emits h (when b m) (if b then r else Ok []).
Proof. destruct b; [done|]. intros _. apply emits_ret. Qed.

Lemma emits_if h (b : bool) m1 m2 r1 r2 :
  emits h m1 r1 → emits h m2 r2 →
  emits h (if b then m1 else m2) (if b then r1 else r2).
Proof. by destruct b. Qed.

Lemma emits_for_each {A} h (xs : list A) body f :
  (∀ x, emits h (body x) (f x)) →
  emits h (for_each xs body) (cat_list (f <$> xs)).
Proof.
  intros Hb. induction xs as [|x xs IH]; simpl.
  - apply emits_ret.
  - by apply emits_bind.
Qed.

Lemma emits_write_text h s x : emits h (write_text s x) (text32 s).
Proof.
  intros w Hw. unfold write_text, text32, warn, write. unfold_monad.
  destruct (encode_ascii s) as [enc|e]; [|by exists w].
  case_decide; eexists; (split; [reflexivity|]); by destruct w.
Qed.

Lemma writes_first_last h m r K :
  emits h m r → writes_first h (m ≫= λ _, K) r K.
Proof.
  intros Hm w Hw. specialize (Hm w Hw). unfold_monad.
  destruct r as [bs|e].
  - destruct Hm as (w1 & -> & ? & ?). by exists w1.
  - destruct Hm as (w1 & -> & ?). by exists w1.
Qed.

Lemma writes_first_step h m P r1 r2 K :
  emits h m r1 → writes_first h P r2 K → writes_first h (m ≫= λ _, P) (cat r1 r2) K.
Proof.
  intros Hm HP w Hw. specialize (Hm w Hw). unfold cat. unfold_monad.
  destruct r1 as [a|e].
  - destruct Hm as (w1 & -> & Hw1 & Hs1). specialize (HP w1 Hw1).
    destruct r2 as [b|e].
    + destruct HP as (w2 & Hw2 & Hs2 & ->). exists w2.
      split_and!; [done| |done]. by rewrite Hs2, Hs1, stream_write_app.
    + destruct HP as (w2 & -> & Hw2). by exists w2.
  - destruct Hm as (w1 & -> & Hw1). by exists w1.
Qed.

Lemma writes_first_gets h Q r K :
  writes_first h (Q h) r K → writes_first h (gets w_self ≫= Q) r K.
Proof.
  intros HQ w Hw. specialize (HQ w Hw). unfold_monad. by rewrite Hw.
Qed.

Ltac solve_emits :=
  repeat first
    [ apply emits_write_field | apply emits_write | apply emits_write_text
    | apply emits_raise | apply emits_ret
    | apply emits_gets
    | apply emits_for_each; intros ?
    | apply emits_bind | apply emits_when | apply emits_if ].

Lemma write_to_identity h K :
  writes_first h
    (write LAS_FILE_SIGNATURE ≫= λ _,
     write_field (λ self, to_bytes (file_source_id self) 2) ≫= λ _,
     write_field (λ self, GlobalEncoding.write_to (global_encoding self)) ≫= λ _,
     write_field (λ self, Ok (uuid self)) ≫= λ _,
     write_field (λ self, to_bytes (major (version self)) 1) ≫= λ _,
     write_field (λ self, to_bytes (minor (version self)) 1) ≫= λ _,
     (self ← gets w_self;
      write_text (system_identifier self) SystemIdentifierTruncated) ≫= λ _,
     (self ← gets w_self;
      write_text (generating_software self) GeneratingSoftwareTruncated) ≫= λ _,
     K)
    (identity_bytes h) K.
Proof.
  unfold identity_bytes.
  do 7 (eapply writes_first_step; [solve_emits|]). apply writes_first_last. solve_emits.
Qed.

Lemma write_to_date h K :
  writes_first h
    (write_field (λ self, to_bytes (from_option yday 0 (creation_date self)) 2) ≫= λ _,
     write_field (λ self, to_bytes (from_option year 0 (creation_date self)) 2) ≫= λ _,
     K)
    (date_bytes h) K.
Proof.
  unfold date_bytes.
  eapply writes_first_step; [solve_emits|]. apply writes_first_last. solve_emits.
Qed.

Lemma write_to_layout h header_size K :
  writes_first h
    (write_field (λ _, to_bytes header_size 2) ≫= λ _,
     write_field (λ self, to_bytes (offset_to_point_data self) 4) ≫= λ _,
     write_field (λ self, to_bytes (Z.of_nat (length (vlrs self))) 4) ≫= λ _,
     write_field (λ self,
       to_bytes (if are_points_compressed self
                 then uncompressed_id_to_compressed (pf_id (point_format self))
                 else pf_id (point_format self)) 1) ≫= λ _,
     write_field (λ self, to_bytes (pf_size (point_format self)) 2) ≫= λ _,
     self ← gets w_self;
     (if 4 <=? minor (version self) then
        write_field (λ _, to_bytes 0 4) ≫= λ _,
        for_each (range 5) (λ i, write_field (λ _, to_bytes 0 4))
      else
        (if UINT32_MAX <? point_count self
         then raise (LaspyException PointCountOverflow)
         else mret tt) ≫= λ _,
        write_field (λ self, to_bytes (point_count self) 4) ≫= λ _,
        for_each (range 5) (λ i,
          write_field (λ self,
            n ← getitem (number_of_points_by_return self) i; to_bytes n 4))) ≫= λ _,
     for_each (range 3) (λ i,
       write_field (λ self, pack_d <$> getitem (scales self) i)) ≫= λ _,
     for_each (range 3) (λ i,
       write_field (λ self, pack_d <$> getitem (offsets self) i)) ≫= λ _,
     for_each (range 3) (λ i,
       write_field (λ self, pack_d <$> getitem (maxs self) i) ≫= λ _,
       write_field (λ self, pack_d <$> getitem (mins self) i)) ≫= λ _,
     when (3 <=? minor (version self))
       (write_field (λ self,
          to_bytes (start_of_waveform_data_packet_record self) 8)) ≫= λ _,
     when (4 <=? minor (version self))
       (write_field (λ self, to_bytes (start_of_first_evlr self) 8) ≫= λ _,
        write_field (λ self, to_bytes (number_of_evlrs self) 4) ≫= λ _,
        write_field (λ self, to_bytes (point_count self) 8) ≫= λ _,
        for_each (range 15) (λ i,
          write_field (λ self,
            n ← getitem (number_of_points_by_return self) i; to_bytes n 8))) ≫= λ _,
     K)
    (layout_bytes header_size h) K.
Proof.
  unfold layout_bytes, legacy_counts_bytes, scales_bytes, offsets_bytes,
    maxs_mins_bytes, waveform_bytes, evlr_and_counts_bytes.
  do 5 (eapply writes_first_step; [solve_emits|]). apply writes_first_gets.
  do 5 (eapply writes_first_step; [solve_emits|]). apply writes_first_last. solve_emits.
Qed.

Lemma update_self_bind {A} f (k : unit → M WriteState A) w :
  (update_self f ≫= k) w = k tt (w <| w_self := f (w_self w) |>).
Proof. reflexivity. Qed.

Lemma gets_bind {S A B} (f : S → A) (k : A → M S B) s :
  (gets f ≫= k) s = k (f s) s.
Proof. reflexivity. Qed.

Lemma lift_bind {S A B} (r : result A) (k : A → M S B) s :
  (lift r ≫= k) s = match r with Ok a => k a s | Raise e => (Raise e, s) end.
Proof. by destruct r. Qed.

Lemma ret_bind {S A B} (a : A) (k : A → M S B) s :
  (mret a ≫= k) s = k a s.
Proof. reflexivity. Qed.

Lemma gets_bind_bind {S A B D} (f : S → A) (g : A → M S B) (k : B → M S D) s :
  ((gets f ≫= g) ≫= k) s = (g (f s) ≫= k) s.
Proof. reflexivity. Qed.

Lemma update_self_bind_ex {A} f (k : unit → M WriteState A) w :
  ∃ w', (update_self f ≫= k) w = k tt w'
        ∧ w_self w' = f (w_self w) ∧ w_stream w' = w_stream w.
Proof. by eexists. Qed.

Lemma write_to_serialize write_vlrs w :
  match serialize write_vlrs (w_self w) with
  | Ok (h', bs) =>
      ∃ w', write_to write_vlrs w = (Ok tt, w') ∧ w_self w' = h'
            ∧ w_stream w' = stream_write bs (w_stream w)
  | Raise e => ∃ w', write_to write_vlrs w = (Raise e, w')
  end.
Proof.
  unfold write_to, serialize.
  assert (∃ h, w_self w = h) as [h Hh] by eauto. rewrite Hh.
  destruct write_vlrs.
  - rewrite gets_bind_bind, lift_bind, Hh.
    destruct (VLRList_write_to (vlrs h)) as [vlr_bytes|e]; [|by eexists].
    cbn [mbind result_bind].
    epose proof (write_to_identity h _ w Hh) as H1.
    destruct (identity_bytes h) as [b1|e]; cbn [mbind result_bind].
    2:{ destruct H1 as (w1 & HP & Hw1). rewrite HP. by eexists. }
    destruct H1 as (w1 & Hw1 & Hs1 & HP). rewrite HP. clear HP.
    edestruct (update_self_bind_ex (A:=unit)) as (w2 & HP & Hw2 & Hs2).
    rewrite HP. clear HP. rewrite Hw1 in Hw2. fold (with_creation_date h) in Hw2.
    epose proof (write_to_date _ _ w2 Hw2) as H1.
    destruct (date_bytes (with_creation_date h)) as [b2|e]; cbn [mbind result_bind].
    2:{ destruct H1 as (w3 & HP & Hw3). rewrite HP. by eexists. }
    destruct H1 as (w3 & Hw3 & Hs3 & HP). rewrite HP. clear HP.
    rewrite gets_bind, lift_bind, Hw3.
    destruct (LAS_HEADERS_SIZE _) as [header_size|e]; cbn [mbind result_bind];
      [|by eexists].
    cbn [when].
    edestruct (update_self_bind_ex (A:=unit)) as (w4 & HP & Hw4 & Hs4).
    rewrite HP. clear HP. rewrite Hw3 in Hw4.
    epose proof (write_to_layout _ header_size _ w4 Hw4) as H1.
    destruct (layout_bytes header_size _) as [b3|e]; cbn [mbind result_bind].
    2:{ destruct H1 as (w5 & HP & Hw5). rewrite HP. by eexists. }
    destruct H1 as (w5 & Hw5 & Hs5 & HP). rewrite HP. clear HP.
    eexists. split; [reflexivity|]. split; [exact Hw5|].
    change (stream_write vlr_bytes (w_stream w5) = stream_write (b1 ++ b2 ++ b3 ++ vlr_bytes) (w_stream w)).
    rewrite Hs5, Hs4, Hs3, Hs2, Hs1.
    by rewrite !stream_write_app, <- ?app_assoc.
  - rewrite ret_bind.
    cbn [mbind result_bind].
    epose proof (write_to_identity h _ w Hh) as H1.
    destruct (identity_bytes h) as [b1|e]; cbn [mbind result_bind].
    2:{ destruct H1 as (w1 & HP & Hw1). rewrite HP. by eexists. }
    destruct H1 as (w1 & Hw1 & Hs1 & HP). rewrite HP. clear HP.
    edestruct (update_self_bind_ex (A:=unit)) as (w2 & HP & Hw2 & Hs2).
    rewrite HP. clear HP. rewrite Hw1 in Hw2. fold (with_creation_date h) in Hw2.
    epose proof (write_to_date _ _ w2 Hw2) as H1.
    destruct (date_bytes (with_creation_date h)) as [b2|e]; cbn [mbind result_bind].
    2:{ destruct H1 as (w3 & HP & Hw3). rewrite HP. by eexists. }
    destruct H1 as (w3 & Hw3 & Hs3 & HP). rewrite HP. clear HP.
    rewrite gets_bind, lift_bind, Hw3.
    destruct (LAS_HEADERS_SIZE _) as [header_size|e]; cbn [mbind result_bind];
      [|by eexists].
    cbn [when]. rewrite ret_bind.
    epose proof (write_to_layout _ header_size _ w3 Hw3) as H1.
    destruct (layout_bytes header_size _) as [b3|e]; cbn [mbind result_bind].
    2:{ destruct H1 as (w5 & HP & Hw5). rewrite HP. by eexists. }
    destruct H1 as (w5 & Hw5 & Hs5 & HP). rewrite HP. clear HP.
    eexists. split; [reflexivity|]. split; [exact Hw5|].
    change (w_stream w5 = stream_write (b1 ++ b2 ++ b3 ++ []) (w_stream w)).
    rewrite Hs5, Hs3, Hs2, Hs1.
    by rewrite !stream_write_app, <- ?app_assoc, ?app_nil_r.
Qed.

Lemma cat_Ok_inv r1 r2 bs :
  cat r1 r2 = Ok bs → ∃ a b, r1 = Ok a ∧ r2 = Ok b ∧ bs = a ++ b.
Proof.
  unfold cat. destruct r1 as [a|]; [|done]. destruct r2 as [b|]; [|done].
  intros [= <-]. by exists a, b.
Qed.

Lemma cat_Ok a b : cat (Ok a) (Ok b) = Ok (a ++ b).
Proof. reflexivity. Qed.

Lemma to_bytes_Ok_inv v n bs :
  to_bytes v n = Ok bs → 0 ≤ v < 2 ^ (Z.of_nat n * 8) ∧ bs = le_split n v.
Proof.
  unfold to_bytes.
  destruct (Z.leb_spec 0 v); [|done].
  destruct (Z.ltb_spec v (2 ^ (Z.of_nat n * 8))); [|done].
  intros [= <-]. done.
Qed.

Lemma to_bytes_Raise_inv v n e : to_bytes v n = Raise e → e = OverflowError.
Proof. unfold to_bytes. case_match; [done|]. by intros [= <-]. Qed.

Lemma text32_length s bs : text32 s = Ok bs → length bs = 32%nat.
Proof.
  unfold text32. destruct (encode_ascii s) as [enc|]; [|done].
  cbn [mbind result_bind]. intros [= <-].
  destruct (decide (32 < length enc)%nat).
  - rewrite length_take. lia.
  - unfold ljust_nul. rewrite length_app, length_replicate. lia.
Qed.

(** The bytes of the slots from [j] to [j + m] of an array of integers,
    each written on [k] bytes. *)
Lemma cat_list_ints (l : list Z) k j m bs :
  cat_list ((λ i, n ← getitem l i; to_bytes n k) <$> seq j m) = Ok bs →
  length (take m (drop j l)) = m
  ∧ Forall (λ n, 0 ≤ n < 2 ^ (Z.of_nat k * 8)) (take m (drop j l))
  ∧ bs = concat (le_split k <$> take m (drop j l)).
Proof.
  revert j bs. induction m as [|m IH]; intros j bs.
  - simpl. intros [= <-]. rewrite ?take_0. by split_and!.
  - cbn [seq fmap list_fmap cat_list].
    intros (a & b & Ha & Hb & ->)%cat_Ok_inv.
    destruct (getitem l j) as [n|] eqn:Hn; [|done].
    cbn [mbind result_bind] in Ha. apply getitem_Ok in Hn.
    apply to_bytes_Ok_inv in Ha as [Hr ->].
    apply IH in Hb as (Hlen & Hall & ->).
    rewrite (drop_S _ _ _ Hn). cbn [take fmap list_fmap concat length].
    split_and!; [by rewrite Hlen|by constructor|done].
Qed.

Lemma cat_list_ints_Ok (l : list Z) k j m :
  length (take m (drop j l)) = m →
  Forall (λ n, 0 ≤ n < 2 ^ (Z.of_nat k * 8)) (take m (drop j l)) →
  cat_list ((λ i, n ← getitem l i; to_bytes n k) <$> seq j m)
  = Ok (concat (le_split k <$> take m (drop j l))).
Proof.
  revert j. induction m as [|m IH]; intros j.
  - by rewrite ?take_0.
  - intros Hlen Hall. cbn [seq fmap list_fmap cat_list].
    destruct (l !! j) as [n|] eqn:Hn.
    + rewrite (drop_S _ _ _ Hn) in Hlen, Hall |- *.
      cbn [take length] in *. apply Forall_cons in Hall as [Hr Hall].
      rewrite (proj2 (getitem_Ok _ _ _) Hn). cbn [mbind result_bind].
      rewrite (to_bytes_Ok _ _ Hr), IH by (done || lia). done.
    + apply lookup_ge_None in Hn. rewrite drop_ge in Hlen by done.
      by rewrite take_nil in Hlen.
Qed.

(** The bytes of the slots of an array of floats. *)
Lemma cat_list_floats (l : list f64) j m bs :
  cat_list ((λ i, pack_d <$> getitem l i) <$> seq j m) = Ok bs →
  length (take m (drop j l)) = m
  ∧ bs = concat (pack_d <$> take m (drop j l)).
Proof.
  revert j bs. induction m as [|m IH]; intros j bs.
  - simpl. intros [= <-]. by rewrite ?take_0.
  - cbn [seq fmap list_fmap cat_list].
    intros (a & b & Ha & Hb & ->)%cat_Ok_inv.
    destruct (getitem l j) as [n|] eqn:Hn; [|done].
    cbn [fmap result_fmap] in Ha. injection Ha as <-.
    apply getitem_Ok in Hn. apply IH in Hb as (Hlen & ->).
    rewrite (drop_S _ _ _ Hn). cbn [take fmap list_fmap concat length].
    split; [by rewrite Hlen|done].
Qed.

Lemma cat_list_maxs_mins (mx mn : list f64) j m bs :
  cat_list ((λ i, cat (pack_d <$> getitem mx i) (pack_d <$> getitem mn i))
            <$> seq j m) = Ok bs →
  length (take m (drop j mx)) = m ∧ length (take m (drop j mn)) = m
  ∧ bs = concat (zip_with (λ a b, pack_d a ++ pack_d b)
                   (take m (drop j mx)) (take m (drop j mn))).
Proof.
  revert j bs. induction m as [|m IH]; intros j bs.
  - simpl. intros [= <-]. by rewrite ?take_0.
  - cbn [seq fmap list_fmap cat_list].
    intros (a & b & Ha & Hb & ->)%cat_Ok_inv.
    apply cat_Ok_inv in Ha as (a1 & a2 & H1 & H2 & ->).
    destruct (getitem mx j) as [x|] eqn:Hx; [|done].
    destruct (getitem mn j) as [y|] eqn:Hy; [|done].
    cbn [fmap result_fmap] in H1, H2. injection H1 as <-. injection H2 as <-.
    apply getitem_Ok in Hx, Hy. apply IH in Hb as (Hl1 & Hl2 & ->).
    rewrite (drop_S _ _ _ Hx), (drop_S _ _ _ Hy).
    cbn [take zip_with concat length].
    split_and!; [by rewrite Hl1|by rewrite Hl2|done].
Qed.

Lemma length_concat_le_split k (l : list Z) :
  length (concat (le_split k <$> l)) = (k * length l)%nat.
Proof.
  induction l as [|x l IH]; [simpl; lia|].
  cbn [fmap list_fmap concat length].
  rewrite length_app, length_le_split, IH. lia.
Qed.

Lemma length_concat_pack_d (l : list f64) :
  length (concat (pack_d <$> l)) = (8 * length l)%nat.
Proof. exact (length_concat_le_split 8 l). Qed.

Ltac inv_cat H :=
  let a := fresh "a" in let b := fresh "b" in let Ha := fresh "Ha" in
  apply cat_Ok_inv in H as (a & b & Ha & H & ->);
  first [ apply to_bytes_Ok_inv in Ha as [? ->]
        | injection Ha as <-
        | idtac ].

Lemma identity_bytes_shape h b :
  identity_bytes h = Ok b →
  ∃ t1 t2,
    text32 (system_identifier h) = Ok t1
    ∧ text32 (generating_software h) = Ok t2
    ∧ 0 ≤ file_source_id h < 2 ^ (Z.of_nat 2 * 8)
    ∧ 0 ≤ GlobalEncoding.value (global_encoding h) < 2 ^ (Z.of_nat 2 * 8)
    ∧ 0 ≤ major (version h) < 2 ^ (Z.of_nat 1 * 8)
    ∧ 0 ≤ minor (version h) < 2 ^ (Z.of_nat 1 * 8)
    ∧ b = LAS_FILE_SIGNATURE ++ le_split 2 (file_source_id h)
          ++ le_split 2 (GlobalEncoding.value (global_encoding h))
          ++ uuid h ++ le_split 1 (major (version h))
          ++ le_split 1 (minor (version h)) ++ t1 ++ t2.
Proof.
  unfold identity_bytes, GlobalEncoding.write_to.
  intros H. inv_cat H.
  inv_cat H.
  inv_cat H.
  inv_cat H.
  inv_cat H.
  inv_cat H.
  apply cat_Ok_inv in H as (t1 & t2 & Ht1 & Ht2 & ->).
  exists t1, t2. repeat split; tauto.
Qed.

Lemma date_bytes_shape h b :
  date_bytes h = Ok b →
  0 ≤ from_option yday 0 (creation_date h) < 2 ^ (Z.of_nat 2 * 8)
  ∧ 0 ≤ from_option year 0 (creation_date h) < 2 ^ (Z.of_nat 2 * 8)
  ∧ b = le_split 2 (from_option yday 0 (creation_date h))
        ++ le_split 2 (from_option year 0 (creation_date h)).
Proof.
  unfold date_bytes.
  intros H. inv_cat H. apply to_bytes_Ok_inv in H as [? ->]. repeat split; tauto.
Qed.

Lemma legacy_counts_bytes_shape h b :
  legacy_counts_bytes h = Ok b →
  if 4 <=? minor (version h) then b = replicate 24 Byte.x00
  else 0 ≤ point_count h ≤ UINT32_MAX
       ∧ length (take 5 (number_of_points_by_return h)) = 5%nat
       ∧ Forall (λ n, 0 ≤ n < 2 ^ (Z.of_nat 4 * 8))
                (take 5 (number_of_points_by_return h))
       ∧ b = le_split 4 (point_count h)
             ++ concat (le_split 4 <$> take 5 (number_of_points_by_return h)).
Proof.
  unfold legacy_counts_bytes. destruct (4 <=? minor (version h)).
  - by intros [= <-].
  - intros H. apply cat_Ok_inv in H as (a0 & b0 & H1 & H & ->).
    destruct (Z.ltb_spec UINT32_MAX (point_count h)); [done|].
    injection H1 as <-.
    inv_cat H.
    apply (cat_list_ints _ 4 0 5) in H as (? & ? & ->).
    rewrite drop_0 in *. split_and!; [lia|done..].
Qed.

Lemma evlr_and_counts_bytes_shape h b :
  evlr_and_counts_bytes h = Ok b →
  if 4 <=? minor (version h) then
    0 ≤ start_of_first_evlr h < 2 ^ (Z.of_nat 8 * 8)
    ∧ 0 ≤ number_of_evlrs h < 2 ^ (Z.of_nat 4 * 8)
    ∧ 0 ≤ point_count h < 2 ^ (Z.of_nat 8 * 8)
    ∧ length (take 15 (number_of_points_by_return h)) = 15%nat
    ∧ Forall (λ n, 0 ≤ n < 2 ^ (Z.of_nat 8 * 8))
             (take 15 (number_of_points_by_return h))
    ∧ b = le_split 8 (start_of_first_evlr h)
          ++ le_split 4 (number_of_evlrs h)
          ++ le_split 8 (point_count h)
          ++ concat (le_split 8 <$> take 15 (number_of_points_by_return h))
  else b = [].
Proof.
  unfold evlr_and_counts_bytes. destruct (4 <=? minor (version h)).
  - intros H. inv_cat H.
    inv_cat H.
    inv_cat H.
    apply (cat_list_ints _ 8 0 15) in H as (? & ? & ->).
    rewrite drop_0 in *. repeat split; tauto.
  - by intros [= <-].
Qed.

Lemma waveform_bytes_shape h b :
  waveform_bytes h = Ok b →
  if 3 <=? minor (version h) then
    0 ≤ start_of_waveform_data_packet_record h < 2 ^ (Z.of_nat 8 * 8)
    ∧ b = le_split 8 (start_of_waveform_data_packet_record h)
  else b = [].
Proof.
  unfold waveform_bytes. destruct (3 <=? minor (version h)).
  - by intros [? ->]%to_bytes_Ok_inv.
  - by intros [= <-].
Qed.

(** The bytes of the fields from the header size on, when they can all be
    written. *)
Lemma layout_bytes_shape header_size h b :
  layout_bytes header_size h = Ok b →
  ∃ legacy wave ext,
    legacy_counts_bytes h = Ok legacy
    ∧ waveform_bytes h = Ok wave
    ∧ evlr_and_counts_bytes h = Ok ext
    ∧ 0 ≤ header_size < 2 ^ (Z.of_nat 2 * 8)
    ∧ 0 ≤ offset_to_point_data h < 2 ^ (Z.of_nat 4 * 8)
    ∧ 0 ≤ Z.of_nat (length (vlrs h)) < 2 ^ (Z.of_nat 4 * 8)
    ∧ 0 ≤ (if are_points_compressed h
           then uncompressed_id_to_compressed (pf_id (point_format h))
           else pf_id (point_format h)) < 2 ^ (Z.of_nat 1 * 8)
    ∧ 0 ≤ pf_size (point_format h) < 2 ^ (Z.of_nat 2 * 8)
    ∧ length (take 3 (scales h)) = 3%nat
    ∧ length (take 3 (offsets h)) = 3%nat
    ∧ length (take 3 (maxs h)) = 3%nat
    ∧ length (take 3 (mins h)) = 3%nat
    ∧ b = le_split 2 header_size
          ++ le_split 4 (offset_to_point_data h)
          ++ le_split 4 (Z.of_nat (length (vlrs h)))
          ++ le_split 1 (if are_points_compressed h
                         then uncompressed_id_to_compressed
                                (pf_id (point_format h))
                         else pf_id (point_format h))
          ++ le_split 2 (pf_size (point_format h))
          ++ legacy
          ++ concat (pack_d <$> take 3 (scales h))
          ++ concat (pack_d <$> take 3 (offsets h))
          ++ concat (zip_with (λ a b, pack_d a ++ pack_d b)
                       (take 3 (maxs h)) (take 3 (mins h)))
          ++ wave ++ ext.
Proof.
  unfold layout_bytes, scales_bytes, offsets_bytes, maxs_mins_bytes.
  intros H. inv_cat H.
  inv_cat H.
  inv_cat H.
  inv_cat H.
  inv_cat H.
  apply cat_Ok_inv in H as (legacy & b4 & Hlegacy & H & ->).
  apply cat_Ok_inv in H as (a5 & b5 & Hs & H & ->).
  apply cat_Ok_inv in H as (a6 & b6 & Ho & H & ->).
  apply cat_Ok_inv in H as (a7 & b7 & Hm & H & ->).
  apply cat_Ok_inv in H as (wave & ext & Hwave & Hext & ->).
  apply (cat_list_floats _ 0 3) in Hs as (? & ->), Ho as (? & ->).
  apply (cat_list_maxs_mins _ _ 0 3) in Hm as (? & ? & ->).
  rewrite drop_0 in *.
  exists legacy, wave, ext. repeat split; tauto.
Qed.

Lemma version_with_creation_date h :
  version (with_creation_date h) = version h.
Proof. unfold with_creation_date. by destruct h as [???????[]]. Qed.

Lemma with_creation_date_eq h :
  with_creation_date h
  = h <| creation_date := Some (default today (creation_date h)) |>.
Proof. unfold with_creation_date. by destruct h as [???????[]]. Qed.

Lemma serialize_Ok_inv write_vlrs h h' bs :
  serialize write_vlrs h = Ok (h', bs) →
  ∃ vlr_bytes b1 b2 b3 header_size,
    (if write_vlrs then VLRList_write_to (vlrs h) = Ok vlr_bytes
     else vlr_bytes = [])
    ∧ identity_bytes h = Ok b1
    ∧ date_bytes (with_creation_date h) = Ok b2
    ∧ LAS_HEADERS_SIZE (Version_str (version h)) = Ok header_size
    ∧ h' = (if write_vlrs
            then (with_creation_date h)
                   <| offset_to_point_data :=
                        header_size + Z.of_nat (length vlr_bytes) |>
            else with_creation_date h)
    ∧ layout_bytes header_size h' = Ok b3
    ∧ bs = b1 ++ b2 ++ b3 ++ vlr_bytes.
Proof.
  unfold serialize. rewrite version_with_creation_date.
  destruct write_vlrs.
  - destruct (VLRList_write_to (vlrs h)) as [vb|]; [|done].
    cbn [mbind result_bind].
    destruct (identity_bytes h) as [b1|]; [|done].
    destruct (date_bytes _) as [b2|]; [|done].
    destruct (LAS_HEADERS_SIZE _) as [hs|]; [|done].
    cbn [mbind result_bind].
    destruct (layout_bytes _ _) as [b3|] eqn:Hl; [|done].
    intros [= <- <-]. by exists vb, b1, b2, b3, hs.
  - cbn [mbind result_bind].
    destruct (identity_bytes h) as [b1|]; [|done].
    destruct (date_bytes _) as [b2|]; [|done].
    destruct (LAS_HEADERS_SIZE _) as [hs|]; [|done].
    cbn [mbind result_bind].
    destruct (layout_bytes _ _) as [b3|] eqn:Hl; [|done].
    intros [= <- <-]. by exists [], b1, b2, b3, hs.
Qed.

Lemma write_to_Ok_inv write_vlrs w w' :
  write_to write_vlrs w = (Ok tt, w') →
  ∃ bs, serialize write_vlrs (w_self w) = Ok (w_self w', bs)
        ∧ w_stream w' = stream_write bs (w_stream w).
Proof.
  intros Hw. pose proof (write_to_serialize write_vlrs w) as Hs.
  destruct (serialize write_vlrs (w_self w)) as [[h' bs]|e].
  - destruct Hs as (w1 & Hw1 & <- & Hs). rewrite Hw in Hw1.
    injection Hw1 as <-. by exists bs.
  - destruct Hs as (w1 & Hw1). by rewrite Hw in Hw1.
Qed.

Lemma write_to_Raise_inv write_vlrs w e w' :
  write_to write_vlrs w = (Raise e, w') →
  serialize write_vlrs (w_self w) = Raise e.
Proof.
  intros Hw. pose proof (write_to_serialize write_vlrs w) as Hs.
  destruct (serialize write_vlrs (w_self w)) as [[h' bs]|e'].
  - destruct Hs as (w1 & Hw1 & _). by rewrite Hw in Hw1.
  - destruct Hs as (w1 & Hw1). rewrite Hw in Hw1. by injection Hw1 as <-.
Qed.

(** X9.  When [write_to] returns it has changed the header in two
    places and nowhere else: the creation date, when there was none, is the
    current date; and with [write_vlrs] the offset to the point data is the
    size of the header of the version plus the number of bytes of the VLRs
    as written. *)
Theorem write_to_assigns_the_date_and_the_offset write_vlrs w w' :
  write_to write_vlrs w = (Ok tt, w') →
  ∃ header_size vlr_bytes,
    LAS_HEADERS_SIZE (Version_str (version (w_self w))) = Ok header_size
    ∧ (if write_vlrs
       then VLRList_write_to (vlrs (w_self w)) = Ok vlr_bytes
       else vlr_bytes = [])
    ∧ w_self w'
      = (w_self w)
          <| creation_date :=
               Some (default today (creation_date (w_self w))) |>
          <| offset_to_point_data :=
               if write_vlrs
               then header_size + Z.of_nat (length vlr_bytes)
               else offset_to_point_data (w_self w) |>.
Proof.
  intros (bs & Hs & _)%write_to_Ok_inv.
  apply serialize_Ok_inv in Hs
    as (vb & b1 & b2 & b3 & hs & Hvb & _ & _ & Hhs & Hh' & _).
  exists hs, vb. split_and!; [done..|].
  rewrite Hh', with_creation_date_eq.
  destruct write_vlrs; [done|]. by destruct (w_self w).
Qed.

Lemma length_maxs_mins (mx mn : list f64) :
  length mx = 3%nat → length mn = 3%nat →
  length (concat (zip_with (λ a b, pack_d a ++ pack_d b) mx mn)) = 48%nat.
Proof.
  destruct mx as [|? [|? [|? [|]]]]; try done.
  destruct mn as [|? [|? [|? [|]]]]; try done.
Qed.

(** The number of bytes of the fixed region, when it can be written. *)
Lemma fixed_region_length h header_size b1 b2 b3 :
  length (uuid h) = 16%nat →
  identity_bytes h = Ok b1 → date_bytes h = Ok b2 →
  layout_bytes header_size h = Ok b3 →
  Z.of_nat (length (b1 ++ b2 ++ b3))
  = 227 + (if 3 <=? minor (version h) then 8 else 0)
        + (if 4 <=? minor (version h) then 140 else 0).
Proof.
  intros Hu (t1 & t2 & Ht1%text32_length & Ht2%text32_length & _ & _ & _ & _ & ->)
    %identity_bytes_shape (_ & _ & ->)%date_bytes_shape
    (legacy & wave & ext & Hlegacy & Hwave & Hext & _ & _ & _ & _ & _
     & Hs & Ho & Hmx & Hmn & ->)%layout_bytes_shape.
  apply legacy_counts_bytes_shape in Hlegacy.
  apply waveform_bytes_shape in Hwave.
  apply evlr_and_counts_bytes_shape in Hext.
  assert (Hl : length legacy = 24%nat).
  { destruct (4 <=? minor (version h)); [by subst|].
    destruct Hlegacy as (_ & Hlen & _ & ->).
    rewrite length_app, length_le_split, length_concat_le_split, Hlen. done. }
  assert (Hw : Z.of_nat (length wave)
               = if 3 <=? minor (version h) then 8 else 0).
  { destruct (3 <=? minor (version h)); [|by subst].
    destruct Hwave as [_ ->]. by rewrite length_le_split. }
  assert (He : Z.of_nat (length ext)
               = if 4 <=? minor (version h) then 140 else 0).
  { destruct (4 <=? minor (version h)); [|by subst].
    destruct Hext as (_ & _ & _ & Hlen & _ & ->).
    rewrite !length_app, !length_le_split, length_concat_le_split, Hlen.
    done. }
  rewrite !length_app, !length_le_split, !length_concat_pack_d,
    length_maxs_mins, Hs, Ho, Hu, Ht1, Ht2, Hl by done.
  change (length LAS_FILE_SIGNATURE) with 4%nat. lia.
Qed.

(** The bytes [write_to] has written when it returns, in terms of the
    header as it leaves it. *)
Lemma write_to_Ok_bytes write_vlrs w w' :
  write_to write_vlrs w = (Ok tt, w') →
  ∃ header_size vlr_bytes b1 b2 b3,
    LAS_HEADERS_SIZE (Version_str (version (w_self w))) = Ok header_size
    ∧ (if write_vlrs
       then VLRList_write_to (vlrs (w_self w)) = Ok vlr_bytes
       else vlr_bytes = [])
    ∧ w_self w'
      = (w_self w)
          <| creation_date :=
               Some (default today (creation_date (w_self w))) |>
          <| offset_to_point_data :=
               if write_vlrs
               then header_size + Z.of_nat (length vlr_bytes)
               else offset_to_point_data (w_self w) |>
    ∧ identity_bytes (w_self w') = Ok b1
    ∧ date_bytes (w_self w') = Ok b2
    ∧ layout_bytes header_size (w_self w') = Ok b3
    ∧ w_stream w' = stream_write (b1 ++ b2 ++ b3 ++ vlr_bytes) (w_stream w).
Proof.
  intros (bs & Hs & Hstream)%write_to_Ok_inv.
  apply serialize_Ok_inv in Hs
    as (vb & b1 & b2 & b3 & hs & Hvb & Hb1 & Hb2 & Hhs & Hh' & Hb3 & ->).
  exists hs, vb, b1, b2, b3.
  assert (Heq : w_self w'
      = (w_self w)
          <| creation_date :=
               Some (default today (creation_date (w_self w))) |>
          <| offset_to_point_data :=
               if write_vlrs
               then hs + Z.of_nat (length vb)
               else offset_to_point_data (w_self w) |>).
  { rewrite Hh', with_creation_date_eq.
    destruct write_vlrs; [done|]. by destruct (w_self w). }
  split_and!; [done..| | |done|done].
  - rewrite <- Hb1, Heq. by destruct (w_self w).
  - rewrite <- Hb2, Heq, with_creation_date_eq. by destruct (w_self w).
Qed.

(** X10.  When [write_to] returns, on a header whose UUID has its 16
    bytes, the version of the header is one of 1.1, 1.2, 1.3 and 1.4 and
    the fixed fields written take as many bytes as [LAS_HEADERS_SIZE] gives
    for it; the bytes of the VLRs, with [write_vlrs], follow them; and the
    offset to the point data that [write_vlrs] assigns is the number of
    bytes written. *)
Theorem write_to_writes_the_header_size write_vlrs w w' :
  length (uuid (w_self w)) = 16%nat →
  write_to write_vlrs w = (Ok tt, w') →
  ∃ header_size fixed vlr_bytes,
    LAS_HEADERS_SIZE (Version_str (version (w_self w))) = Ok header_size
    ∧ (if write_vlrs
       then VLRList_write_to (vlrs (w_self w)) = Ok vlr_bytes
       else vlr_bytes = [])
    ∧ w_stream w' = stream_write (fixed ++ vlr_bytes) (w_stream w)
    ∧ Z.of_nat (length fixed) = header_size
    ∧ (write_vlrs = true →
       offset_to_point_data (w_self w')
       = Z.of_nat (length (fixed ++ vlr_bytes)))
    ∧ major (version (w_self w)) = 1
    ∧ 1 ≤ minor (version (w_self w)) ≤ 4.
Proof.
  intros Hu (hs & vb & b1 & b2 & b3 & Hhs & Hvb & Heq & Hb1 & Hb2 & Hb3 & Hs)
    %write_to_Ok_bytes.
  assert (Hv : version (w_self w') = version (w_self w))
    by (rewrite Heq; by destruct (w_self w)).
  assert (Hu' : length (uuid (w_self w')) = 16%nat)
    by (rewrite Heq; by destruct (w_self w)).
  pose proof (fixed_region_length _ _ _ _ _ Hu' Hb1 Hb2 Hb3) as Hlen.
  apply identity_bytes_shape in Hb1
    as (_ & _ & _ & _ & _ & _ & Hmaj & Hmin & _).
  rewrite Hv in Hlen, Hmaj, Hmin.
  pose proof (LAS_HEADERS_SIZE_cases (version (w_self w)) Hmaj Hmin) as Hc.
  rewrite Hhs in Hc. destruct Hc as [Hm1 Hc].
  assert (Hfix : Z.of_nat (length (b1 ++ b2 ++ b3)) = hs).
  { rewrite Hlen.
    destruct Hc as [[[->| ->] ->]|[[-> ->]|[-> ->]]]; reflexivity. }
  exists hs, (b1 ++ b2 ++ b3), vb. split_and!; try done; try lia.
  - by rewrite Hs, <- !app_assoc.
  - intros ->. rewrite Heq, length_app, Nat2Z.inj_add, Hfix.
    by destruct (w_self w).
Qed.

Lemma cat_Raise_inv r1 r2 e :
  cat r1 r2 = Raise e → r1 = Raise e ∨ r2 = Raise e.
Proof.
  unfold cat. destruct r1 as [a|], r2 as [b|]; cbn; intros H;
    try discriminate; injection H as <-; auto.
Qed.

Lemma cat_list_Raise_inv {A} (f : A → result bytes) xs e :
  cat_list (f <$> xs) = Raise e → ∃ x, f x = Raise e.
Proof.
  induction xs as [|x xs IH]; [done|]. cbn [fmap list_fmap cat_list].
  intros [H|H]%cat_Raise_inv; [by exists x|by apply IH].
Qed.

Lemma text32_Raise_inv s e : text32 s = Raise e → e = UnicodeEncodeError.
Proof.
  unfold text32, encode_ascii. case_match; [done|]. by intros [= <-].
Qed.

Lemma getitem_Raise_inv {A} (l : list A) i e :
  getitem l i = Raise e → e = IndexError.
Proof. unfold getitem. case_match; [done|]. by intros [= <-]. Qed.

Lemma LAS_HEADERS_SIZE_Raise_inv key e :
  LAS_HEADERS_SIZE key = Raise e → e = KeyError.
Proof. unfold LAS_HEADERS_SIZE. repeat case_match; try done. by intros [= <-]. Qed.

Lemma fmap_getitem_Raise_inv {A B} (f : A → B) (l : list A) i e :
  f <$> getitem l i = Raise e → e = IndexError.
Proof.
  destruct (getitem l i) eqn:E; [done|]. cbn. intros [= <-].
  by apply getitem_Raise_inv in E.
Qed.

Lemma getitem_to_bytes_Raise_inv (l : list Z) i k e :
  (n ← getitem l i; to_bytes n k) = Raise e →
  e = IndexError ∨ e = OverflowError.
Proof.
  destruct (getitem l i) eqn:E; cbn.
  - intros ->%to_bytes_Raise_inv. by right.
  - intros [= <-]. left. by apply getitem_Raise_inv in E.
Qed.

(** The exceptions of the fields of the header other than the refusal of
    the point count. *)
Ltac not_overflow :=
  repeat match goal with
  | H : cat _ _ = Raise _ |- _ => apply cat_Raise_inv in H as [H|H]
  | H : cat_list _ = Raise _ |- _ => apply cat_list_Raise_inv in H as [? H]
  | H : Ok _ = Raise _ |- _ => discriminate H
  | H : to_bytes _ _ = Raise _ |- _ => apply to_bytes_Raise_inv in H; subst
  | H : GlobalEncoding.write_to _ = Raise _ |- _ =>
      apply to_bytes_Raise_inv in H; subst
  | H : text32 _ = Raise _ |- _ => apply text32_Raise_inv in H; subst
  | H : LAS_HEADERS_SIZE _ = Raise _ |- _ =>
      apply LAS_HEADERS_SIZE_Raise_inv in H; subst
  | H : (_ <$> getitem _ _) = Raise _ |- _ =>
      apply fmap_getitem_Raise_inv in H
  | H : (getitem _ _ ≫= _) = Raise _ |- _ =>
      apply getitem_to_bytes_Raise_inv in H as [H|H]
  end.

Lemma layout_bytes_overflow header_size h :
  layout_bytes header_size h = Raise (LaspyException PointCountOverflow) →
  minor (version h) < 4 ∧ UINT32_MAX < point_count h.
Proof.
  unfold layout_bytes, legacy_counts_bytes, scales_bytes, offsets_bytes,
    maxs_mins_bytes, waveform_bytes, evlr_and_counts_bytes.
  intros H.
  destruct (Z.leb_spec 4 (minor (version h)));
    destruct (Z.leb_spec 3 (minor (version h)));
    destruct (Z.ltb_spec UINT32_MAX (point_count h));
    try (split; lia); exfalso; not_overflow; try discriminate.
Qed.

Lemma serialize_overflow write_vlrs h :
  serialize write_vlrs h = Raise (LaspyException PointCountOverflow) →
  VLRList_write_to (vlrs h) ≠ Raise (LaspyException PointCountOverflow) →
  minor (version h) < 4 ∧ UINT32_MAX < point_count h.
Proof.
  unfold serialize. rewrite version_with_creation_date. intros H Hv.
  assert (Hvb : ∃ vb, (if write_vlrs then VLRList_write_to (vlrs h) else Ok [])
                      = Ok vb).
  { destruct write_vlrs; [|by eexists].
    destruct (VLRList_write_to (vlrs h)) as [vb|e]; [by eexists|].
    cbn in H. by injection H as ->. }
  destruct Hvb as [vb Hvb]. rewrite Hvb in H. cbn [mbind result_bind] in H.
  destruct (identity_bytes h) as [b1|e] eqn:H1; cbn [mbind result_bind] in H.
  2:{ exfalso. injection H as ->. unfold identity_bytes in H1.
      not_overflow; discriminate. }
  destruct (date_bytes _) as [b2|e] eqn:H2; cbn [mbind result_bind] in H.
  2:{ exfalso. injection H as ->. unfold date_bytes in H2.
      not_overflow; discriminate. }
  destruct (LAS_HEADERS_SIZE _) as [hs|e] eqn:H3; cbn [mbind result_bind] in H.
  2:{ exfalso. injection H as ->. not_overflow; discriminate. }
  destruct (layout_bytes hs _) as [b3|e] eqn:H4; cbn [mbind result_bind] in H;
    [done|]. injection H as ->.
  apply layout_bytes_overflow in H4. rewrite with_creation_date_eq in H4.
  destruct write_vlrs; by destruct h.
Qed.

Lemma layout_bytes_point_count header_size h b :
  layout_bytes header_size (h <| point_count := 0 |>) = Ok b →
  minor (version h) < 4 → UINT32_MAX < point_count h →
  layout_bytes header_size h = Raise (LaspyException PointCountOverflow).
Proof.
  unfold layout_bytes. intros H Hm Hp.
  apply cat_Ok_inv in H as (a1 & ? & E1 & H & _).
  apply cat_Ok_inv in H as (a2 & ? & E2 & H & _).
  apply cat_Ok_inv in H as (a3 & ? & E3 & H & _).
  apply cat_Ok_inv in H as (a4 & ? & E4 & H & _).
  apply cat_Ok_inv in H as (a5 & ? & E5 & _ & _).
  replace (offset_to_point_data (h <| point_count := 0 |>))
    with (offset_to_point_data h) in E2 by (by destruct h).
  replace (vlrs (h <| point_count := 0 |>)) with (vlrs h) in E3
    by (by destruct h).
  replace (are_points_compressed (h <| point_count := 0 |>))
    with (are_points_compressed h) in E4 by (by destruct h).
  replace (point_format (h <| point_count := 0 |>)) with (point_format h)
    in E4, E5 by (by destruct h).
  rewrite E1, E2, E3, E4, E5. unfold legacy_counts_bytes.
  destruct (Z.leb_spec 4 (minor (version h))); [lia|].
  destruct (Z.ltb_spec UINT32_MAX (point_count h)); [|lia].
  reflexivity.
Qed.

Lemma serialize_point_count write_vlrs h h0' bs0 :
  serialize write_vlrs (h <| point_count := 0 |>) = Ok (h0', bs0) →
  minor (version h) < 4 → UINT32_MAX < point_count h →
  serialize write_vlrs h = Raise (LaspyException PointCountOverflow).
Proof.
  intros (vb & b1 & b2 & b3 & hs & Hvb & Hb1 & Hb2 & Hhs & -> & Hb3 & _)
    %serialize_Ok_inv Hm Hp.
  unfold serialize. rewrite version_with_creation_date.
  replace (vlrs (h <| point_count := 0 |>)) with (vlrs h) in Hvb
    by (by destruct h).
  replace (identity_bytes (h <| point_count := 0 |>))
    with (identity_bytes h) in Hb1 by (by destruct h).
  replace (date_bytes (with_creation_date (h <| point_count := 0 |>)))
    with (date_bytes (with_creation_date h)) in Hb2
    by (rewrite !with_creation_date_eq; by destruct h).
  replace (version (h <| point_count := 0 |>)) with (version h) in Hhs
    by (by destruct h).
  rewrite Hb1, Hb2, Hhs.
  destruct write_vlrs.
  - rewrite Hvb. cbn [mbind result_bind].
    erewrite layout_bytes_point_count; [done| |by rewrite with_creation_date_eq; destruct h..].
    rewrite <- Hb3. apply (f_equal (layout_bytes hs)).
      rewrite !with_creation_date_eq. by destruct h.
  - cbn [mbind result_bind].
    erewrite layout_bytes_point_count; [done| |by rewrite with_creation_date_eq; destruct h..].
    rewrite <- Hb3. apply (f_equal (layout_bytes hs)).
      rewrite !with_creation_date_eq. by destruct h.
Qed.

(** X11.  [write_to] raises the point count exception only when the minor
    version is below 4 and the point count is above 2^32 - 1 (the VLR list
    not raising it).  In that case [write_to] never returns, and it raises
    that exception whenever the same header with a point count of 0 can be
    written: each field written before the point count can then be
    written. *)
Theorem write_to_refuses_a_point_count_beyond_32_bits write_vlrs w :
  (∀ w', write_to write_vlrs w
         = (Raise (LaspyException PointCountOverflow), w') →
         VLRList_write_to (vlrs (w_self w))
         ≠ Raise (LaspyException PointCountOverflow) →
         minor (version (w_self w)) < 4
         ∧ UINT32_MAX < point_count (w_self w))
  ∧ (minor (version (w_self w)) < 4 →
     UINT32_MAX < point_count (w_self w) →
     (∀ w', write_to write_vlrs w ≠ (Ok tt, w'))
     ∧ ((∃ w0, write_to write_vlrs
                 (w <| w_self := (w_self w) <| point_count := 0 |> |>)
               = (Ok tt, w0)) →
        ∃ w', write_to write_vlrs w
              = (Raise (LaspyException PointCountOverflow), w'))).
Proof.
  split.
  - intros w' Hs%write_to_Raise_inv Hv. by apply (serialize_overflow write_vlrs).
  - intros Hm Hp. split.
    + intros w' (hs & vb & b1 & b2 & b3 & _ & _ & Heq & _ & _ & Hb3 & _)
        %write_to_Ok_bytes.
      apply layout_bytes_shape in Hb3 as (legacy & _ & _ & Hl & _).
      apply legacy_counts_bytes_shape in Hl.
      assert (Hv : version (w_self w') = version (w_self w))
        by (rewrite Heq; by destruct (w_self w)).
      assert (Hc : point_count (w_self w') = point_count (w_self w))
        by (rewrite Heq; by destruct (w_self w)).
      rewrite Hv, Hc in Hl.
      destruct (Z.leb_spec 4 (minor (version (w_self w)))); [lia|].
      destruct Hl as ([_ ?] & _). lia.
    + intros [w0 (bs0 & Hs0 & _)%write_to_Ok_inv].
      replace (w_self (w <| w_self := (w_self w) <| point_count := 0 |> |>))
        with ((w_self w) <| point_count := 0 |>) in Hs0 by (by destruct w).
      pose proof (serialize_point_count _ _ _ _ Hs0 Hm Hp) as Hs.
      pose proof (write_to_serialize write_vlrs w) as Hw.
      rewrite Hs in Hw. done.
Qed.

Lemma take_drop_segment {A} (pre mid post : list A) n k :
  length pre = n → length mid = k →
  take k (drop n (pre ++ mid ++ post)) = mid.
Proof.
  intros Hn Hk. rewrite drop_app_length' by done.
  by rewrite take_app_length'.
Qed.

(** X12.  Where the point counts are written, on a header whose UUID has
    its 16 bytes.  From the minor version 4 on, the 24 bytes from offset 107
    (the legacy point count and the five legacy counts by return) are zero,
    the point count is the 8 bytes at offset 247 and the 15 slots of the
    histogram are the 15 times 8 bytes from offset 255.  Below, the point
    count is the 4 bytes at offset 107 and the first five slots of the
    histogram are the 5 times 4 bytes from offset 111. *)
Theorem write_to_point_count_fields write_vlrs w w' :
  length (uuid (w_self w)) = 16%nat →
  write_to write_vlrs w = (Ok tt, w') →
  ∃ bs,
    w_stream w' = stream_write bs (w_stream w)
    ∧ if 4 <=? minor (version (w_self w)) then
        take 24 (drop 107 bs) = replicate 24 Byte.x00
        ∧ take 8 (drop 247 bs) = le_split 8 (point_count (w_self w))
        ∧ take 120 (drop 255 bs)
          = concat (le_split 8
                      <$> take 15 (number_of_points_by_return (w_self w)))
      else
        take 4 (drop 107 bs) = le_split 4 (point_count (w_self w))
        ∧ take 20 (drop 111 bs)
          = concat (le_split 4
                      <$> take 5 (number_of_points_by_return (w_self w))).
Proof.
  intros Hu (hs & vb & b1 & b2 & b3 & Hhs & Hvb & Heq & Hb1 & Hb2 & Hb3 & Hs)
    %write_to_Ok_bytes.
  exists (b1 ++ b2 ++ b3 ++ vb). split; [done|].
  assert (Hv : version (w_self w') = version (w_self w))
    by (rewrite Heq; by destruct (w_self w)).
  assert (Hc : point_count (w_self w') = point_count (w_self w))
    by (rewrite Heq; by destruct (w_self w)).
  assert (Hh : number_of_points_by_return (w_self w')
               = number_of_points_by_return (w_self w))
    by (rewrite Heq; by destruct (w_self w)).
  assert (Hu' : length (uuid (w_self w')) = 16%nat)
    by (rewrite Heq; by destruct (w_self w)).
  apply identity_bytes_shape in Hb1
    as (t1 & t2 & Ht1%text32_length & Ht2%text32_length
        & _ & _ & _ & _ & Hb1).
  apply date_bytes_shape in Hb2 as (_ & _ & Hb2).
  apply layout_bytes_shape in Hb3
    as (legacy & wave & ext & Hlegacy & Hwave & Hext & _ & _ & _ & _ & _
        & Hls & Hlo & Hlmx & Hlmn & Hb3).
  apply legacy_counts_bytes_shape in Hlegacy.
  apply waveform_bytes_shape in Hwave.
  apply evlr_and_counts_bytes_shape in Hext.
  rewrite <- Hv, <- Hc, <- Hh.
  remember (w_self w') as h' eqn:Hh'. clear Hh' Heq Hs Hhs Hvb Hv Hc Hh.
  set (pre := b1 ++ b2 ++ le_split 2 hs
              ++ le_split 4 (offset_to_point_data h')
              ++ le_split 4 (Z.of_nat (length (vlrs h')))
              ++ le_split 1 (if are_points_compressed h'
                             then uncompressed_id_to_compressed
                                    (pf_id (point_format h'))
                             else pf_id (point_format h'))
              ++ le_split 2 (pf_size (point_format h'))).
  assert (Hpre : length pre = 107%nat).
  { subst pre b1 b2. rewrite !length_app, !length_le_split, Hu', Ht1, Ht2.
    done. }
  set (floats := concat (pack_d <$> take 3 (scales h'))
                 ++ concat (pack_d <$> take 3 (offsets h'))
                 ++ concat (zip_with (λ a b, pack_d a ++ pack_d b)
                              (take 3 (maxs h')) (take 3 (mins h')))).
  assert (Hfl : length floats = 96%nat).
  { subst floats. rewrite !length_app, !length_concat_pack_d,
      length_maxs_mins, Hls, Hlo by done. done. }
  assert (Hbs : b1 ++ b2 ++ b3 ++ vb
                = pre ++ legacy ++ floats ++ wave ++ ext ++ vb).
  { subst pre floats b3. rewrite <- !app_assoc. reflexivity. }
  rewrite Hbs. clear Hbs.
  destruct (Z.leb_spec 4 (minor (version h'))) as [H4|H4].
  - destruct (Z.leb_spec 3 (minor (version h'))); [|lia].
    destruct Hwave as [_ ->].
    destruct Hext as (_ & _ & _ & Hlen & _ & ->). subst legacy.
    split_and!.
    + by apply take_drop_segment.
    + replace (pre ++ replicate 24 Byte.x00 ++ floats
               ++ le_split 8 (start_of_waveform_data_packet_record h')
               ++ (le_split 8 (start_of_first_evlr h')
                   ++ le_split 4 (number_of_evlrs h')
                   ++ le_split 8 (point_count h')
                   ++ concat (le_split 8 <$> take 15
                        (number_of_points_by_return h'))) ++ vb)
        with ((pre ++ replicate 24 Byte.x00 ++ floats
               ++ le_split 8 (start_of_waveform_data_packet_record h')
               ++ le_split 8 (start_of_first_evlr h')
               ++ le_split 4 (number_of_evlrs h'))
              ++ le_split 8 (point_count h')
              ++ (concat (le_split 8 <$> take 15
                    (number_of_points_by_return h')) ++ vb))
        by (rewrite <- !app_assoc; reflexivity).
      apply take_drop_segment; [|apply length_le_split].
      rewrite !length_app, !length_le_split, length_replicate, Hpre, Hfl.
      done.
    + replace (pre ++ replicate 24 Byte.x00 ++ floats
               ++ le_split 8 (start_of_waveform_data_packet_record h')
               ++ (le_split 8 (start_of_first_evlr h')
                   ++ le_split 4 (number_of_evlrs h')
                   ++ le_split 8 (point_count h')
                   ++ concat (le_split 8 <$> take 15
                        (number_of_points_by_return h'))) ++ vb)
        with ((pre ++ replicate 24 Byte.x00 ++ floats
               ++ le_split 8 (start_of_waveform_data_packet_record h')
               ++ le_split 8 (start_of_first_evlr h')
               ++ le_split 4 (number_of_evlrs h')
               ++ le_split 8 (point_count h'))
              ++ concat (le_split 8 <$> take 15
                   (number_of_points_by_return h')) ++ vb)
        by (rewrite <- !app_assoc; reflexivity).
      apply take_drop_segment.
      * rewrite !length_app, !length_le_split, length_replicate, Hpre, Hfl.
        done.
      * by rewrite length_concat_le_split, Hlen.
  - destruct Hlegacy as (_ & Hlen & _ & ->). split.
    + rewrite <- app_assoc. apply take_drop_segment; [done|].
      apply length_le_split.
    + replace (pre ++ (le_split 4 (point_count h')
                       ++ concat (le_split 4 <$> take 5
                            (number_of_points_by_return h')))
               ++ floats ++ wave ++ ext ++ vb)
        with ((pre ++ le_split 4 (point_count h'))
              ++ concat (le_split 4 <$> take 5
                   (number_of_points_by_return h'))
              ++ floats ++ wave ++ ext ++ vb)
        by (rewrite <- !app_assoc; reflexivity).
      apply take_drop_segment.
      * by rewrite length_app, length_le_split, Hpre.
      * by rewrite length_concat_le_split, Hlen.
Qed.

(** X13.  On a stream that does not start with the four bytes of the
    signature, the empty stream among them, [read_from] raises the invalid
    signature exception, having read those bytes at most (the header of
    [cls()] being made first). *)
Theorem read_from_checks_the_signature seekable bs h0 :
  LasHeader_init None None = Ok h0 →
  take 4 bs ≠ LAS_FILE_SIGNATURE →
  read_from seekable (stream_of bs)
  = (Raise (LaspyException InvalidFileSignature),
     mkstream (take 4 bs) (drop 4 bs)).
Proof.
  intros Hinit Hsig. unfold read_from. apply bind_Raise.
  unfold read_fixed_and_vlrs.
  erewrite bind_Ok; [|unfold lift; by rewrite Hinit].
  erewrite bind_Ok; [|reflexivity].
  apply bind_Raise. cbn [ahead passed stream_of app].
  change (Z.to_nat 4) with 4%nat. by rewrite decide_False.
Qed.

(** X14.  What [read_from] does once the fixed fields and the VLRs are
    read.  The point format is that of the id read, made uncompressed.
    Without an Extra-Bytes VLR (or with one whose descriptors raise
    [IndexError]) it is the point format of the header.  With one, if the
    point size read is the size of that point format, the first Extra-Bytes
    VLR is removed from the list, a warning is logged and the call returns;
    if not, its descriptors are added to the point format.  Save in the
    case of the warning, the call raises the incoherent point size
    exception exactly when the point size read is not the size of the
    point format so made.  An exception of the fixed fields, of the point
    format or of its descriptors is raised as it is. *)
Theorem read_from_resolves_the_point_format seekable s :
  match read_fixed_and_vlrs seekable s with
  | (Raise e, s') => read_from seekable s = (Raise e, s')
  | (Ok (header, point_format_id, point_size), s') =>
      let compressed :=
        header <| are_points_compressed :=
                    is_point_format_compressed point_format_id |> in
      let checked (pf : PointFormat) (log : list Warning) :=
        if point_size =? pf_size pf
        then (Ok (compressed <| _point_format := pf |>, log), s')
        else (Raise (LaspyException IncoherentPointSize), s') in
      match PointFormat_init
              (compressed_id_to_uncompressed point_format_id) with
      | Raise e => read_from seekable s = (Raise e, s')
      | Ok base =>
          match VLRList_get (vlrs header) with
          | [] => read_from seekable s = checked base []
          | structs :: _ =>
              match type_of_extra_dims structs with
              | Ok extra_dims =>
                  if point_size =? pf_size base
                  then ∃ l, VLRList_extract (vlrs header) = Ok l
                            ∧ read_from seekable s
                              = (Ok (compressed <| vlrs := l |>
                                                <| _point_format := base |>,
                                     [ExtraBytesVlrIgnored]), s')
                  else match foldlM_result add_extra_dimension base
                               extra_dims with
                       | Ok pf => read_from seekable s = checked pf []
                       | Raise e => read_from seekable s = (Raise e, s')
                       end
              | Raise IndexError => read_from seekable s = checked base []
              | Raise e => read_from seekable s = (Raise e, s')
              end
          end
      end
  end.
Proof.
  destruct (read_fixed_and_vlrs seekable s)
    as [[[[header point_format_id] point_size]|e] s'] eqn:Hr.
  2:{ unfold read_from. by rewrite (bind_Raise _ _ _ _ _ Hr). }
  assert (Hrf : read_from seekable s
                = (resolve_point_format header point_format_id point_size, s')).
  { unfold read_from. by rewrite (bind_Ok _ _ _ _ _ Hr). }
  rewrite Hrf. unfold resolve_point_format. cbv zeta.
  destruct (PointFormat_init _) as [base|]; [|done].
  cbn [mbind result_bind].
  replace (vlrs (header <| are_points_compressed :=
                   is_point_format_compressed point_format_id |>))
    with (vlrs header) by (by destruct header).
  pose proof (VLRList_extract_spec (vlrs header)) as Hx.
  destruct (VLRList_get (vlrs header)) as [|structs rest].
  - cbn [mbind result_bind].
    by destruct (point_size =? pf_size base).
  - destruct (type_of_extra_dims structs) as [dims|[]];
      cbn [mbind result_bind]; try done;
      try (by destruct (point_size =? pf_size base)).
    destruct (point_size =? pf_size base) eqn:Hsz.
    + destruct (VLRList_extract (vlrs header)) as [l|];
        [|by destruct Hx]. exists l. split; [done|].
      cbn [mbind result_bind]. by rewrite Hsz.
    + destruct (foldlM_result add_extra_dimension base dims) as [pf|];
        cbn [mbind result_bind]; [|done].
      by destruct (point_size =? pf_size pf).
Qed.



End HeaderFacts.

(** ** The header on concrete inputs *)

Section Examples.
#[local] Existing Instance Example.collaborators.
Import Example.

(** C8, on a batch in another order. *)
Lemma C8_witness :
  ∃ h', update batch new_header = (Ok tt, h')
    ∧ number_of_points_by_return h'
      = [2; 1; 0; 0; 1; 0; 0; 0; 0; 0; 0; 0; 0; 0; 0]
    ∧ point_count h' = 5.
Proof.
  apply (C8_update_histogram None None).
  - reflexivity.
  - refine (bool_decide_unpack _ _). vm_compute. exact I.
Defined.

(** C3 as claimed fails: on a new header of version 1.2, [update] with
    one point of return number 6 (point format 3 holds return numbers up to
    7) counts it in slot 5. *)
Lemma C3_counterexample :
  LasHeader_init None None = Ok new_header
  ∧ minor (version new_header) = 2
  ∧ fst (update [point 6] new_header) = Ok tt
  ∧ number_of_points_by_return (snd (update [point 6] new_header)) !! 5%nat
    = Some 1.
Proof. split; [reflexivity|]. split_and!; vm_compute; reflexivity. Qed.

Lemma C3_witness :
  number_of_points_by_return (snd (update batch new_header)) !! 5%nat
  = Some 0.
Proof.
  refine (proj1 (proj2 (proj2 (proj2 (proj2 C3_slots_from_5_on))))
            batch new_header (fst (update batch new_header)) _ 5%nat _ _ _ _).
  - apply surjective_pairing.
  - apply Forall_forall. refine (bool_decide_unpack _ _). vm_compute. exact I.
  - lia.
  - reflexivity.
Defined.

(** C4 as claimed fails for [read_from]: a file whose VLR section holds
    two Extra-Bytes VLRs is read into a header that holds both, next to a
    point format with the one extra dimension. *)
Lemma C4_counterexample :
  (λ '(h, _), (VLRList_get (vlrs h), extra_dimensions (point_format h)))
    <$> fst (read_from true (stream_of file_with_two_extra_bytes_vlrs))
  = Ok ([[byte_struct]; [byte_struct]], [byte_dim]).
Proof. vm_compute. reflexivity. Qed.

(** C4, on the header that [add_extra_dims] leaves. *)
Lemma C4_witness :
  fst (add_extra_dims [byte_dim] new_header) = Ok tt
  ∧ extra_bytes_in_sync (snd (add_extra_dims [byte_dim] new_header))
  ∧ VLRList_get (vlrs (snd (add_extra_dims [byte_dim] new_header)))
    = [[byte_struct]].
Proof.
  assert (Hfst : fst (add_extra_dims [byte_dim] new_header) = Ok tt)
    by (vm_compute; reflexivity).
  split; [exact Hfst|]. split; [|vm_compute; reflexivity].
  refine (proj1 (proj2 (proj2 C4_extra_bytes_vlr_follows_the_point_format))
            [byte_dim] new_header _ _ _).
  - unfold at_most_one_extra_bytes_vlr. simpl. lia.
  - rewrite <- Hfst. apply surjective_pairing.
Defined.

(** C5 as claimed fails: point format 3 is compatible with version 1.2,
    but with the four scaled bytes as an extra dimension the [point_format]
    setter raises [IndexError] from the synchronizer (slot 3 of the 3-slot
    scale array), after it has replaced the field. *)
Lemma C5_counterexample :
  raise_if_version_not_compatible_with_fmt
    (pf_id (format_3 [scaled_bytes_dim])) (Version_str (version new_header))
    = Ok tt
  ∧ fst (set_point_format (format_3 [scaled_bytes_dim]) new_header)
    = Raise IndexError
  ∧ point_format (snd (set_point_format (format_3 [scaled_bytes_dim])
                         new_header))
    = format_3 [scaled_bytes_dim]
  ∧ point_format new_header = format_3 [].
Proof. split_and!; vm_compute; reflexivity. Qed.

(** C5, on point format 6 given to a header of version 1.2. *)
Lemma C5_witness :
  set_point_format format_6 new_header
  = (Raise (LaspyException IncompatibleFormat), new_header).
Proof.
  refine (proj1 (C5_compatibility_gate new_header (mkVersion 1 2) _) _ _).
  vm_compute. reflexivity.
Defined.

(** C9 as claimed fails: [partial_reset] also assigns the creation date,
    here on a header whose date is unknown. *)
Lemma C9_counterexample :
  creation_date (new_header <| creation_date := None |>) = None
  ∧ fst (partial_reset (new_header <| creation_date := None |>)) = Ok tt
  ∧ creation_date (snd (partial_reset (new_header <| creation_date := None |>)))
    = Some day.
Proof. split_and!; vm_compute; reflexivity. Qed.

(** X1, on the flags [wkt] and [gps_time_type] of the register 9. *)
Lemma set_flag_keeps_the_other_flags_witness :
  GlobalEncoding.get_flag GlobalEncoding.GpsTime
    (GlobalEncoding.set_flag GlobalEncoding.Wkt true (GlobalEncoding.mk 9))
  = GlobalEncoding.get_flag GlobalEncoding.GpsTime (GlobalEncoding.mk 9)
  ∧ ∀ n, n ≠ GlobalEncoding.bit_of GlobalEncoding.Wkt →
         Z.testbit
           (GlobalEncoding.value
              (GlobalEncoding.set_flag GlobalEncoding.Wkt true
                 (GlobalEncoding.mk 9))) n
         = Z.testbit (GlobalEncoding.value (GlobalEncoding.mk 9)) n.
Proof.
  apply (set_flag_keeps_the_other_flags GlobalEncoding.Wkt
           GlobalEncoding.GpsTime true (GlobalEncoding.mk 9)).
  discriminate.
Defined.

(** X4, on the batch of five points and a new header. *)
Lemma update_returns_unless_the_batch_is_empty_witness :
  ∃ h', update batch new_header = (Ok tt, h').
Proof.
  exact (update_returns_unless_the_batch_is_empty batch new_header
           eq_refl eq_refl eq_refl eq_refl).
Defined.

(** X5, on the same. *)
Lemma update_extents_of_the_batch_witness :
  fst (update batch new_header) = Ok tt
  ∧ extents_updated X 0 batch new_header (snd (update batch new_header))
  ∧ extents_updated Y 1 batch new_header (snd (update batch new_header))
  ∧ extents_updated Z_ 2 batch new_header (snd (update batch new_header)).
Proof.
  assert (Hfst : fst (update batch new_header) = Ok tt)
    by (vm_compute; reflexivity).
  split; [exact Hfst|].
  pose proof (update_extents_of_the_batch batch new_header
                (snd (update batch new_header))) as H.
  destruct H as (? & ? & ? & _); [|by split_and!].
  rewrite <- Hfst. apply surjective_pairing.
Defined.

(** X6, on the same. *)
Lemma update_changes_extents_histogram_and_count_only_witness :
  length (maxs (snd (update batch new_header))) = length (maxs new_header)
  ∧ length (mins (snd (update batch new_header))) = length (mins new_header).
Proof.
  pose proof (update_changes_extents_histogram_and_count_only
                batch new_header (fst (update batch new_header))
                (snd (update batch new_header))
                (surjective_pairing _)) as (_ & ? & ? & _).
  by split.
Defined.

(** X9 and X10, on a new header written to an empty stream. *)
Lemma write_to_assigns_the_date_and_the_offset_witness :
  fst (write_to true (to_write new_header)) = Ok tt
  ∧ LAS_HEADERS_SIZE (Version_str (version new_header)) = Ok 227
  ∧ offset_to_point_data (w_self (snd (write_to true (to_write new_header))))
    = 227.
Proof.
  assert (Hfst : fst (write_to true (to_write new_header)) = Ok tt)
    by (vm_compute; reflexivity).
  split; [exact Hfst|]. split; [reflexivity|].
  destruct (write_to_assigns_the_date_and_the_offset true
              (to_write new_header)
              (snd (write_to true (to_write new_header))))
    as (hs & vb & Hhs & Hvb & ->).
  { rewrite <- Hfst. apply surjective_pairing. }
  injection Hhs as <-. injection Hvb as <-. reflexivity.
Defined.

Lemma write_to_writes_the_header_size_witness :
  ∃ fixed, w_stream (snd (write_to true (to_write new_header)))
           = stream_write fixed (stream_of [])
           ∧ length fixed = 227%nat.
Proof.
  assert (Hfst : fst (write_to true (to_write new_header)) = Ok tt)
    by (vm_compute; reflexivity).
  destruct (write_to_writes_the_header_size true (to_write new_header)
              (snd (write_to true (to_write new_header))))
    as (hs & fixed & vb & Hhs & Hvb & Hs & Hlen & _).
  { reflexivity. }
  { rewrite <- Hfst. apply surjective_pairing. }
  injection Hhs as <-. injection Hvb as <-. exists fixed.
  rewrite app_nil_r in Hs. split; [exact Hs|]. lia.
Defined.

(** X12, on a header of version 1.4 with a point count of 2^32. *)
Lemma write_to_point_count_fields_witness :
  ∃ bs, w_stream (snd (write_to true
                         (to_write (new_header <| _version := mkVersion 1 4 |>
                                               <| point_count := 2 ^ 32 |>))))
        = stream_write bs (stream_of [])
        ∧ take 24 (drop 107 bs) = replicate 24 Byte.x00
        ∧ take 8 (drop 247 bs) = le_split 8 (2 ^ 32).
Proof.
  set (h := new_header <| _version := mkVersion 1 4 |>
                       <| point_count := 2 ^ 32 |>).
  assert (Hfst : fst (write_to true (to_write h)) = Ok tt)
    by (vm_compute; reflexivity).
  destruct (write_to_point_count_fields true (to_write h)
              (snd (write_to true (to_write h))))
    as (bs & Hs & H1 & H2 & _).
  { reflexivity. }
  { rewrite <- Hfst. apply surjective_pairing. }
  exists bs. by split_and!.
Defined.

(** X13, on the empty stream. *)
Lemma read_from_checks_the_signature_witness :
  read_from true (stream_of [])
  = (Raise (LaspyException InvalidFileSignature), mkstream [] []).
Proof.
  apply (read_from_checks_the_signature true [] new_header).
  - reflexivity.
  - discriminate.
Defined.

End Examples.
